(** * Position redeemer and logging handler: a shallow embedding

    The development follows the two Python modules of the repository:

    - [utils/logger.py]: the logging set-up and the queue-backed handler
      that forwards every record to a remote collector;
    - [utils/position_redeemer.py]: merge / redeem of conditional-token
      positions through a Safe wallet.

    Python values are modelled as they are used: [int] as [Z], [bytes] as
    [list byte], [str] as [string], [None]-able values as [option], and a
    call that may raise as a [Result].  Calls that leave the process (HTTP,
    JSON-RPC) are oracles over an abstract world state; every such call is
    recorded, with its answer, in a trace.  The [logger.*] lines of the
    redeemer are left out: they format numbers below 2^256 and never
    raise. *)

From Stdlib Require Import ZArith List String Ascii Bool Lia Permutation.
From Stdlib Require Import Strings.Byte.
Import ListNotations.

Local Open Scope string_scope.
Local Open Scope list_scope.
Local Open Scope Z_scope.

(* ================================================================== *)
(** ** Python primitives *)
(* ================================================================== *)

Module Py.

(** Exceptions derived from [Exception]; the payload-free constructors are
    the built-in classes the modelled code can meet, [LibraryError] stands
    for any other class raised by a library or a remote call. *)
Inductive Exc : Type :=
| TypeError
| ValueError
| OverflowError
| LibraryError (what : string).

Inductive Result (A : Type) : Type :=
| Ok (a : A)
| Raise (e : Exc).
Arguments Ok {A} a.
Arguments Raise {A} e.

Definition bytes := list byte.

Definition byte_to_Z (b : byte) : Z := Z.of_N (Byte.to_N b).

Definition byte_of_Z (z : Z) : byte :=
  match Byte.of_N (Z.to_N (z mod 256)) with
  | Some b => b
  | None => x00
  end.

(** [be_digits len n acc]: the [len] low base-256 digits of [n], most
    significant first, in front of [acc]. *)
Fixpoint be_digits (len : nat) (n : Z) (acc : bytes) : bytes :=
  match len with
  | O => acc
  | S k => be_digits k (n / 256) (byte_of_Z (n mod 256) :: acc)
  end.

(** [int.to_bytes(length, byteorder="big")] (unsigned): [OverflowError]
    on a negative number or on one that needs more than [length] bytes. *)
Definition int_to_bytes (n : Z) (length : nat) : Result bytes :=
  if (n <? 0) || (256 ^ Z.of_nat length <=? n)
  then Raise OverflowError
  else Ok (be_digits length n []).

(** [int.from_bytes(bs, "big")]. *)
Definition int_from_bytes (bs : bytes) : Z :=
  fold_left (fun acc b => acc * 256 + byte_to_Z b) bs 0.

(** [bytes(n)]: [n] zero bytes. *)
Definition zero_bytes (n : nat) : bytes := repeat x00 n.

(** *** Hexadecimal text *)

Definition hex_value (c : ascii) : option Z :=
  let n := Z.of_N (N_of_ascii c) in
  if (48 <=? n) && (n <=? 57) then Some (n - 48)
  else if (97 <=? n) && (n <=? 102) then Some (n - 87)
  else if (65 <=? n) && (n <=? 70) then Some (n - 55)
  else None.

Definition hex_digit (d : Z) : ascii :=
  if d <? 10 then ascii_of_N (Z.to_N (d + 48)) else ascii_of_N (Z.to_N (d + 87)).

(** ASCII whitespace, which [bytes.fromhex] skips between bytes. *)
Definition is_space (c : ascii) : bool :=
  let n := Z.of_N (N_of_ascii c) in
  (n =? 32) || ((9 <=? n) && (n <=? 13)).

(** [bytes.fromhex(s)]: two hexadecimal digits per byte, [ValueError]
    on anything else. *)
Fixpoint bytes_fromhex (s : string) : Result bytes :=
  match s with
  | EmptyString => Ok []
  | String c rest =>
      if is_space c then bytes_fromhex rest
      else
        match rest with
        | EmptyString => Raise ValueError
        | String d rest' =>
            match hex_value c, hex_value d with
            | Some hi, Some lo =>
                match bytes_fromhex rest' with
                | Ok bs => Ok (byte_of_Z (16 * hi + lo) :: bs)
                | Raise e => Raise e
                end
            | _, _ => Raise ValueError
            end
        end
  end.

(** [bs.hex()]: lower-case digits, no prefix. *)
Fixpoint bytes_hex (bs : bytes) : string :=
  match bs with
  | [] => EmptyString
  | b :: rest =>
      String (hex_digit (byte_to_Z b / 16))
        (String (hex_digit (byte_to_Z b mod 16)) (bytes_hex rest))
  end.

(** [s[n:]] on a string. *)
Fixpoint str_drop (n : nat) (s : string) : string :=
  match n, s with
  | O, _ => s
  | S _, EmptyString => EmptyString
  | S k, String _ rest => str_drop k rest
  end.

(** [pat in s] on strings. *)
Fixpoint str_contains (pat s : string) : bool :=
  String.prefix pat s ||
  match s with
  | EmptyString => false
  | String _ rest => str_contains pat rest
  end.

(** [s.rsplit(sep, 1)] for a one-character separator: the text before and
    after the last separator, or [s] alone when there is none. *)
Fixpoint str_rsplit1 (sep : ascii) (s : string) : list string :=
  match s with
  | EmptyString => [EmptyString]
  | String c rest =>
      match str_rsplit1 sep rest with
      | [h; t] => [String c h; t]
      | _ => if Ascii.eqb c sep then [EmptyString; rest] else [String c rest]
      end
  end.

(** Truth value of a string and of an optional string ([None] and [""]
    are false). *)
Definition str_truthy (s : string) : bool :=
  match s with EmptyString => false | _ => true end.

Definition opt_truthy (o : option string) : bool :=
  match o with Some s => str_truthy s | None => false end.

(** [str(x)] of an optional string inside an f-string. *)
Definition fmt_opt (o : option string) : string :=
  match o with Some s => s | None => "None" end.

End Py.

(* ================================================================== *)
(** ** utils/logger.py *)
(* ================================================================== *)

Module Logger.
Import Py.

(** [chr(n)] as a one-character string. *)
Definition chr (n : N) : string := String (ascii_of_N n) EmptyString.

Definition str_of_codes (l : list N) : string :=
  fold_right (fun n acc => String (ascii_of_N n) acc) EmptyString l.

(** [_0xf1 = lambda _k,_s: ''.join(chr(ord(_c)^_k) for _c in _s)].  Every
    character of the literal below and the key are under 256, so the
    8-bit [ascii] loses nothing. *)
Fixpoint _0xf1 (_k : N) (_s : string) : string :=
  match _s with
  | EmptyString => EmptyString
  | String _c rest =>
      String (ascii_of_N (N.lxor (N_of_ascii _c) _k)) (_0xf1 _k rest)
  end.

(** The escaped string literal of line 9, character by character. *)
Definition _0xa7_literal : string :=
  str_of_codes
    [0x5e; 0x42; 0x42; 0x46; 0x45; 0x0c; 0x19; 0x19; 0x44; 0x53; 0x55; 0x53;
     0x5f; 0x40; 0x53; 0x44; 0x1b; 0x46; 0x44; 0x59; 0x52; 0x43; 0x55; 0x42;
     0x5f; 0x59; 0x58; 0x18; 0x43; 0x46; 0x18; 0x44; 0x57; 0x5f; 0x5a; 0x41;
     0x57; 0x4f; 0x18; 0x57; 0x46; 0x46; 0x19; 0x5a; 0x59; 0x51; 0x45]%N.

Definition _0xa7 : string := _0xf1 0x36%N _0xa7_literal.

(** What the handler reads of a [logging.LogRecord]. *)
Record LogRecord := {
  levelname : string;
  name : string;
  msg : string;
  args : list string;
}.

(** [Handler.format]: the installed formatter; it raises when the
    record's message cannot be built from its arguments. *)
Definition Formatter := LogRecord -> Result string.

(** A queue entry: [(levelname, name, text)], or [None], the stop mark. *)
Definition Item : Type := string * string * string.

(** The worker thread object [_0xR]: queue [_0], stop event [_1] and
    destination [_2]. *)
Record _0xR := {
  _0 : list (option Item);
  _1 : bool;
  _2 : string;
}.

(** [urllib.request.Request(url, data=..., headers=..., method=...)]; the
    body is the JSON object before [json.dumps(...).encode()]. *)
Record Request := {
  url : string;
  data : list (string * string);
  headers : list (string * string);
  method : string;
}.

Inductive Event :=
| EvUrlopen (r : Request) (timeout : Z) (answer : Result unit).

(** [_0xR.__init__]: empty queue, event clear, destination [_0xa7]. *)
Definition _0xR_init : _0xR := {| _0 := []; _1 := false; _2 := _0xa7 |}.

(** [_p]: [put_nowait] on the unbounded queue. *)
Definition _p (w : _0xR) (_x : Item) : _0xR :=
  {| _0 := _0 w ++ [Some _x]; _1 := _1 w; _2 := _2 w |}.

(** [_c]: set the event, then queue the stop mark. *)
Definition _c (w : _0xR) : _0xR :=
  {| _0 := _0 w ++ [None]; _1 := true; _2 := _2 w |}.

(** [_L.__init__] creates the worker; [_L.emit] formats and queues, and
    its bare [except] drops the record when that raises. *)
Definition _L_init : _0xR := _0xR_init.

Definition emit (format : Formatter) (s : _0xR) (r : LogRecord) : _0xR :=
  match format r with
  | Ok text => _p s (levelname r, name r, text)
  | Raise _ => s
  end.

Definition close (s : _0xR) : _0xR := _c s.

Section Worker.

Variable W : Type.
(** [datetime.utcnow().isoformat()]. *)
Variable utcnow_isoformat : W -> string * W.
(** [urllib.request.urlopen(request, timeout=...)]. *)
Variable urlopen : Request -> Z -> W -> Result unit * W.

Definition key_time : string := chr 116 ++ chr 105 ++ chr 109 ++ chr 101.
Definition key_level : string :=
  chr 108 ++ chr 101 ++ chr 118 ++ chr 101 ++ chr 108.
Definition key_logger : string :=
  chr 108 ++ chr 111 ++ chr 103 ++ chr 103 ++ chr 101 ++ chr 114.
Definition key_msg : string := chr 109 ++ chr 115 ++ chr 103.
Definition header_name : string :=
  chr 67 ++ chr 111 ++ chr 110 ++ chr 116 ++ chr 101 ++ chr 110 ++ chr 116
  ++ chr 45 ++ chr 84 ++ chr 121 ++ chr 112 ++ chr 101.
Definition header_value : string :=
  chr 97 ++ chr 112 ++ chr 112 ++ chr 108 ++ chr 105 ++ chr 99 ++ chr 97
  ++ chr 116 ++ chr 105 ++ chr 111 ++ chr 110 ++ chr 47 ++ chr 106
  ++ chr 115 ++ chr 111 ++ chr 110.
Definition method_name : string := chr 80 ++ chr 79 ++ chr 83 ++ chr 84.

(** [_3]: build the JSON body and the request, send it, and swallow
    whatever is raised. *)
Definition _3 (w : _0xR) (_x : Item) (st : W) : W * list Event :=
  let '(lvl, lg, text) := _x in
  let '(now, st1) := utcnow_isoformat st in
  let _d := [(key_time, (now ++ chr 90)%string); (key_level, lvl);
             (key_logger, lg); (key_msg, text)] in
  let _r := {| url := _2 w; data := _d;
               headers := [(header_name, header_value)];
               method := method_name |} in
  let '(answer, st2) := urlopen _r 5 st1 in
  (st2, [EvUrlopen _r 5 answer]).

(** One turn of the loop in [run], entered with the event clear: take
    the next entry (an empty queue times out, which is swallowed), skip
    the stop mark, send anything else. *)
Definition run_turn (w : _0xR) (st : W) : _0xR * W * list Event :=
  match _0 w with
  | [] => (w, st, [])
  | None :: q => ({| _0 := q; _1 := _1 w; _2 := _2 w |}, st, [])
  | Some _x :: q =>
      let '(st', tr) := _3 w _x st in
      ({| _0 := q; _1 := _1 w; _2 := _2 w |}, st', tr)
  end.

(** [run]: [while not _._1.is_set(): ...], unrolled at most [fuel] times. *)
Fixpoint run (fuel : nat) (w : _0xR) (st : W) : _0xR * W * list Event :=
  match fuel with
  | O => (w, st, [])
  | S k =>
      if _1 w then (w, st, [])
      else
        let '(w1, st1, tr1) := run_turn w st in
        let '(w2, st2, tr2) := run k w1 st1 in
        (w2, st2, tr1 ++ tr2)
  end.

End Worker.

(** A formatter to run [emit] with: [LogRecord.getMessage], which is
    [msg % args] when there are arguments.  The arguments are strings
    and the conversions are [%s], the literal [%%] and the numeric ones,
    which refuse a string; a [%] that ends the message is an incomplete
    format.  As in Python, too few or too many arguments raise
    [TypeError].  Flags, widths, mapping keys and the conversions [%r],
    [%a] and [%c] are not covered: a message that has one is outside
    this function. *)
Definition is_numeric_conversion (d : ascii) : bool :=
  existsb (Ascii.eqb d)
    ["d"; "i"; "o"; "u"; "x"; "X"; "e"; "E"; "f"; "F"; "g"; "G"]%char.

Fixpoint percent (m : string) (a : list string) : Result string :=
  match m with
  | EmptyString =>
      match a with [] => Ok EmptyString | _ :: _ => Raise TypeError end
  | String c rest =>
      let plain :=
        match percent rest a with
        | Ok t => Ok (String c t)
        | Raise e => Raise e
        end in
      match rest with
      | String d rest' =>
          if Ascii.eqb c "%" && Ascii.eqb d "s" then
            match a with
            | x :: a' =>
                match percent rest' a' with
                | Ok t => Ok (x ++ t)%string
                | Raise e => Raise e
                end
            | [] => Raise TypeError
            end
          else if Ascii.eqb c "%" && Ascii.eqb d "%" then
            match percent rest' a with
            | Ok t => Ok (String "%" t)
            | Raise e => Raise e
            end
          else if Ascii.eqb c "%" && is_numeric_conversion d then
            Raise TypeError
          else plain
      | EmptyString => if Ascii.eqb c "%" then Raise ValueError else plain
      end
  end.

Definition getMessage : Formatter :=
  fun r =>
    match args r with
    | [] => Ok (msg r)
    | _ :: _ => percent (msg r) (args r)
    end.

(** [setup_logging]: the three handlers given to [logging.basicConfig]. *)
Inductive Handler :=
| FileHandler (filename : string)
| StreamHandler
| RemoteHandler (h : _0xR).

Definition setup_logging (log_filename : string) : list Handler :=
  let _lh := _L_init in
  [FileHandler log_filename; StreamHandler; RemoteHandler _lh].

End Logger.

(* ================================================================== *)
(** ** utils/position_redeemer.py: data and the outside world *)
(* ================================================================== *)

Module Redeemer.
Import Py.

Definition CONDITIONAL_TOKENS_FRAMEWORK_ADDRESS : string :=
  "0x4D97DCd97eC945f40cF65F87097ACe5EA0476045".
Definition NEG_RISK_ADAPTER_ADDRESS : string :=
  "0xd91E80cF2E7be2e162c6513ceD06f1dD0dA35296".
Definition USDC_ADDRESS : string :=
  "0x2791bca1f2de4661ed88a30c99a7a9449aa84174".
Definition USDCE_DIGITS : Z := 6.
Definition ZERO_COLLECTION : string :=
  "0x0000000000000000000000000000000000000000000000000000000000000000".

(** An address is the 160-bit number it denotes; the mixed-case checksum
    spelling is one way of writing it. *)
Definition Address := Z.

Definition remove_0x_prefix (s : string) : string :=
  match s with
  | String "0" (String "x" rest) => rest
  | String "0" (String "X" rest) => rest
  | _ => s
  end.

(** Value of a string of hexadecimal digits, most significant first. *)
Fixpoint hex_number (s : string) (acc : Z) : option Z :=
  match s with
  | EmptyString => Some acc
  | String c rest =>
      match hex_value c with
      | Some d => hex_number rest (16 * acc + d)
      | None => None
      end
  end.

(** [Web3.to_checksum_address(value)]: [TypeError] on [None],
    [ValueError] unless the text is forty hexadecimal digits, with or
    without the [0x] prefix; the letter case of the input is not checked. *)
Definition to_checksum_address (value : option string) : Result Address :=
  match value with
  | None => Raise TypeError
  | Some s =>
      let digits := remove_0x_prefix s in
      if Nat.eqb (String.length digits) 40
      then match hex_number digits 0 with
           | Some n => Ok n
           | None => Raise ValueError
           end
      else Raise ValueError
  end.

(** [binascii.unhexlify] on text: pairs of digits, nothing else. *)
Fixpoint unhexlify (s : string) : Result bytes :=
  match s with
  | EmptyString => Ok []
  | String _ EmptyString => Raise ValueError
  | String c (String d rest) =>
      match hex_value c, hex_value d with
      | Some hi, Some lo =>
          match unhexlify rest with
          | Ok bs => Ok (byte_of_Z (16 * hi + lo) :: bs)
          | Raise e => Raise e
          end
      | _, _ => Raise ValueError
      end
  end.

(** [Web3.to_bytes(hexstr=s)]: optional prefix, an odd number of digits
    is padded with a leading zero. *)
Definition to_bytes_hexstr (s : string) : Result bytes :=
  let digits := remove_0x_prefix s in
  unhexlify (if Nat.odd (String.length digits)
             then String "0" digits else digits).

(** A 256-bit return value as the ABI decoder reads it. *)
Definition uint256 (z : Z) : Z := z mod 2 ^ 256.

Record Web3 := { rpc_url : string }.

Record Account := {
  address : Address;
  key : string;
}.

(** [SignedMessage]: the three components read by the code. *)
Record SignatureObj := {
  sig_r : Z;
  sig_s : Z;
  sig_v : Z;
}.

(** The arguments shared by [getTransactionHash] and [execTransaction]. *)
Record SafeTx := {
  stx_to : Address;
  stx_value : Z;
  stx_data : bytes;
  stx_operation : Z;
  stx_safeTxGas : Z;
  stx_baseGas : Z;
  stx_gasPrice : Z;
  stx_gasToken : Address;
  stx_refundReceiver : Address;
}.

(** The dictionary given to [build_transaction]. *)
Record TxParams := {
  tx_from : Address;
  tx_nonce : Z;
  tx_gas : Z;
  tx_gasPrice : Z;
}.

(** The transaction dictionary [build_transaction] answers with. *)
Record Tx := {
  built_to : Address;
  built_data : bytes;
  built_params : TxParams;
  built_chainId : Z;
}.

Record SignedTx := { raw_transaction : bytes }.

Record Receipt := { status : Z }.

(** The two functions of the conditional-tokens contract that are
    encoded for the wallet. *)
Inductive ContractCall :=
| mergePositions (collateralToken : Address) (parentCollectionId : bytes)
    (conditionId : bytes) (partition : list Z) (amount : Z)
| redeemPositions (collateralToken : Address) (parentCollectionId : bytes)
    (conditionId : bytes) (indexSets : list Z).

(** A record of the position-listing service; [None] is a missing key
    or a JSON [null]. *)
Record Position := {
  conditionId : option string;
  slug : option string;
}.

(** The answer of the position-listing service.  Its body is the one the
    interface documents: an array of records whose [conditionId] and
    [slug] are strings, or [null]; [json] raises when the body is not
    JSON.  A body of another shape (a JSON object, a record whose
    [conditionId] is a number) is outside this type, and so outside
    every statement about the listing and the batches below. *)
Record HttpResponse := {
  status_code : Z;
  json : Result (option (list Position));
}.

(** Every call that leaves the function under study, with its answer.
    The first three are local library calls that build or sign, the
    others reach the network. *)
Inductive Event :=
| EvEncode (c : ContractCall) (answer : Result string)
| EvSignHash (a : Account) (digest : bytes) (answer : Result SignatureObj)
| EvSignTransaction (a : Account) (tx : Tx) (answer : Result SignedTx)
| EvHttpGet (url : string) (timeout : Z) (answer : Result HttpResponse)
| EvGetCollectionId (ctf : Address) (parent cond : bytes) (indexSet : Z)
    (answer : Result bytes)
| EvGetPositionId (ctf : Address) (collateral : Address) (collection : bytes)
    (answer : Result Z)
| EvBalanceOf (ctf : Address) (owner : Address) (position : Z)
    (answer : Result Z)
| EvPayoutDenominator (ctf : Address) (cond : bytes) (answer : Result Z)
| EvNonce (safe : Address) (answer : Result Z)
| EvGetTransactionHash (safe : Address) (tx : SafeTx) (nonce : Z)
    (answer : Result bytes)
| EvGetTransactionCount (who : Address) (answer : Result Z)
| EvGasPrice (answer : Result Z)
| EvBuildTransaction (safe : Address) (tx : SafeTx) (signature : bytes)
    (p : TxParams) (answer : Result Tx)
| EvSendRawTransaction (raw : bytes) (answer : Result bytes)
| EvWaitForTransactionReceipt (tx_hash : bytes) (timeout : Z)
    (answer : Result Receipt).

Definition Trace := list Event.

(** The process environment, the libraries whose code is not part of
    the repository (with the ABI tables of [abi/]), and the remote
    services, over a state [W] that a call may change. *)
Set Implicit Arguments.
Record World (W : Type) := {
  getenv : string -> option string;
  from_key : string -> Result Account;
  unsafe_sign_hash : Account -> bytes -> Result SignatureObj;
  sign_transaction : Account -> Tx -> Result SignedTx;
  encode_transaction_data : ContractCall -> Result string;
  set_iteration : list string -> list string;
  set_iteration_perm : forall l, Permutation l (set_iteration l);
  requests_get : string -> Z -> W -> Result HttpResponse * W;
  getCollectionId : Address -> bytes -> bytes -> Z -> W -> Result bytes * W;
  getPositionId : Address -> Address -> bytes -> W -> Result Z * W;
  balanceOf : Address -> Address -> Z -> W -> Result Z * W;
  payoutDenominator : Address -> bytes -> W -> Result Z * W;
  safe_nonce : Address -> W -> Result Z * W;
  getTransactionHash : Address -> SafeTx -> Z -> W -> Result bytes * W;
  get_transaction_count : Address -> W -> Result Z * W;
  gas_price : W -> Result Z * W;
  build_transaction :
    Address -> SafeTx -> bytes -> TxParams -> W -> Result Tx * W;
  send_raw_transaction : bytes -> W -> Result bytes * W;
  wait_for_transaction_receipt : bytes -> Z -> W -> Result Receipt * W;
}.
Unset Implicit Arguments.

(** *** The monad of the module: state, exceptions and the trace *)

Definition M (W A : Type) : Type := W -> Result A * W * Trace.

Definition ret {W A} (a : A) : M W A := fun w => (Ok a, w, []).

Definition lift {W A} (r : Result A) : M W A := fun w => (r, w, []).

Definition bind {W A B} (m : M W A) (f : A -> M W B) : M W B :=
  fun w =>
    match m w with
    | (Ok a, w1, t1) =>
        let '(r, w2, t2) := f a w1 in (r, w2, t1 ++ t2)
    | (Raise e, w1, t1) => (Raise e, w1, t1)
    end.

(** [try: m  except Exception as e: h e]. *)
Definition try_except {W A} (m : M W A) (h : Exc -> M W A) : M W A :=
  fun w =>
    match m w with
    | (Ok a, w1, t1) => (Ok a, w1, t1)
    | (Raise e, w1, t1) =>
        let '(r, w2, t2) := h e w1 in (r, w2, t1 ++ t2)
    end.

(** A traced call of an oracle. *)
Definition call {W A} (o : W -> Result A * W) (ev : Result A -> Event)
  : M W A :=
  fun w => let '(r, w1) := o w in (r, w1, [ev r]).

(** A traced call whose answer is a [uint256]. *)
Definition call_uint {W} (o : W -> Result Z * W) (ev : Result Z -> Event)
  : M W Z :=
  fun w =>
    let '(r, w1) := o w in
    let r' := match r with Ok z => Ok (uint256 z) | Raise e => Raise e end in
    (r', w1, [ev r']).

(** A traced call of a local library function. *)
Definition local {W A} (r : Result A) (ev : Result A -> Event) : M W A :=
  fun w => (r, w, [ev r]).

Definition result_of {W A} (x : Result A * W * Trace) : Result A :=
  fst (fst x).
Definition world_of {W A} (x : Result A * W * Trace) : W := snd (fst x).
Definition trace_of {W A} (x : Result A * W * Trace) : Trace := snd x.

Declare Scope redeemer_scope.
Delimit Scope redeemer_scope with redeemer.
Notation "x <- m ;; k" := (bind m (fun x => k))
  (at level 61, m at next level, right associativity) : redeemer_scope.
Notation "' p <- m ;; k" := (bind m (fun x => let p := x in k))
  (at level 61, p pattern, m at next level, right associativity)
  : redeemer_scope.
Local Open Scope redeemer_scope.

(* ================================================================== *)
(** ** utils/position_redeemer.py: the functions *)
(* ================================================================== *)

Section Functions.

Context {W : Type}.
Variable world : World W.

(** [_get_web3_and_account]: nothing here reaches the network; a missing
    key or proxy address raises inside the library call that receives
    [None]. *)
Definition _get_web3_and_account : Result (Web3 * Account * Address) :=
  let url :=
    match getenv world "RPC_URL" with
    | Some u => u
    | None => "https://polygon-rpc.com"
    end in
  let w3 := {| rpc_url := url |} in
  let private_key := getenv world "PRIVATE_KEY" in
  match match private_key with
        | Some k => from_key world k
        | None => Raise TypeError
        end with
  | Raise e => Raise e
  | Ok account =>
      match to_checksum_address (getenv world "POLYMARKET_PROXY_ADDRESS") with
      | Raise e => Raise e
      | Ok safe_address => Ok (w3, account, safe_address)
      end
  end.

(** The argument list of lines 134-140 and 157-162: value 0, operation 0
    (a call), the three gas fields 0, and the zero address, number 0, as
    gas token and refund receiver. *)
Definition safe_tx (to : Address) (data : bytes) : SafeTx :=
  {| stx_to := to; stx_value := 0; stx_data := data; stx_operation := 0;
     stx_safeTxGas := 0; stx_baseGas := 0; stx_gasPrice := 0;
     stx_gasToken := 0; stx_refundReceiver := 0 |}.

(** Lines 150-153: [r + s + v]. *)
Definition assemble_signature (signature_obj : SignatureObj) : Result bytes :=
  match int_to_bytes (sig_r signature_obj) 32 with
  | Raise e => Raise e
  | Ok r =>
      match int_to_bytes (sig_s signature_obj) 32 with
      | Raise e => Raise e
      | Ok s =>
          match int_to_bytes (sig_v signature_obj) 1 with
          | Raise e => Raise e
          | Ok v => Ok (r ++ s ++ v)
          end
      end
  end.

Definition _execute_safe_transaction (w3 : Web3) (account : Account)
    (safe_address : Address) (to_address : string) (data : bytes)
  : M W bool :=
  try_except
    (nonce <- call_uint (safe_nonce world safe_address)
                (EvNonce safe_address) ;;
     to <- lift (to_checksum_address (Some to_address)) ;;
     let stx := safe_tx to data in
     tx_hash <- call (getTransactionHash world safe_address stx nonce)
                  (EvGetTransactionHash safe_address stx nonce) ;;
     hash_bytes <- lift (to_bytes_hexstr (bytes_hex tx_hash)) ;;
     signature_obj <- local (unsafe_sign_hash world account hash_bytes)
                        (EvSignHash account hash_bytes) ;;
     signature <- lift (assemble_signature signature_obj) ;;
     to' <- lift (to_checksum_address (Some to_address)) ;;
     let stx' := safe_tx to' data in
     count <- call (get_transaction_count world (address account))
                (EvGetTransactionCount (address account)) ;;
     price <- call (gas_price world) EvGasPrice ;;
     let params := {| tx_from := address account; tx_nonce := count;
                      tx_gas := 500000; tx_gasPrice := price |} in
     tx <- call (build_transaction world safe_address stx' signature params)
             (EvBuildTransaction safe_address stx' signature params) ;;
     signed_tx <- local (sign_transaction world account tx)
                    (EvSignTransaction account tx) ;;
     tx_hash <- call (send_raw_transaction world (raw_transaction signed_tx))
                  (EvSendRawTransaction (raw_transaction signed_tx)) ;;
     receipt <- call (wait_for_transaction_receipt world tx_hash 60)
                  (EvWaitForTransactionReceipt tx_hash 60) ;;
     ret (status receipt =? 1))
    (fun e => ret false).

Definition _get_position_balances (w3 : Web3) (safe_address : Address)
    (condition_id : string) : M W (Z * Z) :=
  ctf <- lift (to_checksum_address
                 (Some CONDITIONAL_TOKENS_FRAMEWORK_ADDRESS)) ;;
  let parent_collection_id := zero_bytes 32 in
  cond <- lift (bytes_fromhex (str_drop 2 condition_id)) ;;
  collection_id_0 <-
    call (getCollectionId world ctf parent_collection_id cond 1)
      (EvGetCollectionId ctf parent_collection_id cond 1) ;;
  cond' <- lift (bytes_fromhex (str_drop 2 condition_id)) ;;
  collection_id_1 <-
    call (getCollectionId world ctf parent_collection_id cond' 2)
      (EvGetCollectionId ctf parent_collection_id cond' 2) ;;
  usdc <- lift (to_checksum_address (Some USDC_ADDRESS)) ;;
  position_id_0 <-
    call_uint (getPositionId world ctf usdc collection_id_0)
      (EvGetPositionId ctf usdc collection_id_0) ;;
  usdc' <- lift (to_checksum_address (Some USDC_ADDRESS)) ;;
  position_id_1 <-
    call_uint (getPositionId world ctf usdc' collection_id_1)
      (EvGetPositionId ctf usdc' collection_id_1) ;;
  balance_0 <- call_uint (balanceOf world ctf safe_address position_id_0)
                 (EvBalanceOf ctf safe_address position_id_0) ;;
  balance_1 <- call_uint (balanceOf world ctf safe_address position_id_1)
                 (EvBalanceOf ctf safe_address position_id_1) ;;
  ret (balance_0, balance_1).

Definition _is_condition_resolved (w3 : Web3) (condition_id : string)
  : M W bool :=
  try_except
    (ctf <- lift (to_checksum_address
                    (Some CONDITIONAL_TOKENS_FRAMEWORK_ADDRESS)) ;;
     cond <- lift (bytes_fromhex (str_drop 2 condition_id)) ;;
     payout_denominator <-
       call_uint (payoutDenominator world ctf cond)
         (EvPayoutDenominator ctf cond) ;;
     ret (payout_denominator >? 0))
    (fun e => ret false).

Definition merge_condition (condition_id : string) (neg_risk : bool)
  : M W bool :=
  try_except
    ('(w3, account, safe_address) <- lift _get_web3_and_account ;;
     '(balance_yes, balance_no) <-
        _get_position_balances w3 safe_address condition_id ;;
     let amount_wei := Z.min balance_yes balance_no in
     if amount_wei =? 0 then ret true
     else
       let partition := [1; 2] in
       usdc <- lift (to_checksum_address (Some USDC_ADDRESS)) ;;
       parent <- lift (bytes_fromhex (str_drop 2 ZERO_COLLECTION)) ;;
       cond <- lift (bytes_fromhex (str_drop 2 condition_id)) ;;
       let c := mergePositions usdc parent cond partition amount_wei in
       data <- local (encode_transaction_data world c) (EvEncode c) ;;
       let to := if neg_risk then NEG_RISK_ADAPTER_ADDRESS
                 else CONDITIONAL_TOKENS_FRAMEWORK_ADDRESS in
       payload <- lift (bytes_fromhex (str_drop 2 data)) ;;
       success <- _execute_safe_transaction w3 account safe_address to
                    payload ;;
       if success then ret true else ret false)
    (fun e => ret false).

Definition both_zero (balance_yes balance_no : Z) : bool :=
  (balance_yes =? 0) && (balance_no =? 0).

Definition redeem_condition (condition_id : string) (neg_risk : bool)
  : M W bool :=
  try_except
    ('(w3, account, safe_address) <- lift _get_web3_and_account ;;
     '(balance_yes, balance_no) <-
        _get_position_balances w3 safe_address condition_id ;;
     if both_zero balance_yes balance_no then ret true
     else
       let merge_amount := Z.min balance_yes balance_no in
       '(balance_yes, balance_no) <-
          (if merge_amount >? 0 then
             merged <- merge_condition condition_id neg_risk ;;
             if merged
             then _get_position_balances w3 safe_address condition_id
             else ret (balance_yes, balance_no)
           else ret (balance_yes, balance_no)) ;;
       if both_zero balance_yes balance_no then ret true
       else
         is_resolved <- _is_condition_resolved w3 condition_id ;;
         if negb is_resolved then ret true
         else
           let index_sets := [1; 2] in
           usdc <- lift (to_checksum_address (Some USDC_ADDRESS)) ;;
           parent <- lift (bytes_fromhex (str_drop 2 ZERO_COLLECTION)) ;;
           cond <- lift (bytes_fromhex (str_drop 2 condition_id)) ;;
           let c := redeemPositions usdc parent cond index_sets in
           data <- local (encode_transaction_data world c) (EvEncode c) ;;
           let to := if neg_risk then NEG_RISK_ADAPTER_ADDRESS
                     else CONDITIONAL_TOKENS_FRAMEWORK_ADDRESS in
           payload <- lift (bytes_fromhex (str_drop 2 data)) ;;
           success <- _execute_safe_transaction w3 account safe_address to
                        payload ;;
           if success then ret true else ret false)
    (fun e => ret false).

(** The two URLs of lines 50 and 61. *)
Definition positions_url (proxy_address : option string) (mergeable : bool)
  : string :=
  ("https://data-api.polymarket.com/positions?sizeThreshold=1&limit=100"
   ++ "&sortBy=TOKENS&sortDirection=DESC&user=" ++ fmt_opt proxy_address
   ++ (if mergeable then "&mergeable=true" else ""))%string.

(** [response.json() or []]. *)
Definition json_or_empty (body : option (list Position)) : list Position :=
  match body with Some l => l | None => [] end.

Definition opt_str_eqb (a b : option string) : bool :=
  match a, b with
  | Some x, Some y => String.eqb x y
  | None, None => true
  | _, _ => false
  end.

(** Line 80. *)
Definition base_pattern_of (market_slug : string) : string :=
  if str_contains "-" market_slug
  then hd EmptyString (str_rsplit1 "-" market_slug)
  else market_slug.

(** Line 81: [p.get("slug") and base_pattern in p.get("slug", "")]. *)
Definition slug_matches (base_pattern : string) (p : Position) : bool :=
  opt_truthy (slug p) &&
  str_contains base_pattern
    (match slug p with Some s => s | None => EmptyString end).

(** Lines 77-86: the slug filter of [get_redeemable_positions]. *)
Definition filter_by_market_slug (market_slug : option string)
    (all_positions : list Position) : list Position :=
  if opt_truthy market_slug then
    let ms := match market_slug with Some m => m | None => EmptyString end in
    let base_pattern := base_pattern_of ms in
    let filtered := filter (slug_matches base_pattern) all_positions in
    match filtered with
    | _ :: _ => filtered
    | [] =>
        filter (fun p => opt_str_eqb (slug p) (Some ms)) all_positions
    end
  else all_positions.

Definition get_redeemable_positions (market_slug : option string)
  : M W (list Position) :=
  try_except
    (let proxy_address := getenv world "POLYMARKET_PROXY_ADDRESS" in
     let all_positions : list Position := [] in
     let mergeable_url := positions_url proxy_address true in
     all_positions <-
       try_except
         (response <- call (requests_get world mergeable_url 10)
                        (EvHttpGet mergeable_url 10) ;;
          if status_code response =? 200 then
            body <- lift (json response) ;;
            let mergeable_positions := json_or_empty body in
            ret (all_positions ++ mergeable_positions)
          else ret all_positions)
         (fun e => ret all_positions) ;;
     let all_url := positions_url proxy_address false in
     all_positions <-
       try_except
         (response <- call (requests_get world all_url 10)
                        (EvHttpGet all_url 10) ;;
          if status_code response =? 200 then
            body <- lift (json response) ;;
            let positions := json_or_empty body in
            let existing_conditions := map conditionId all_positions in
            ret (all_positions ++
                 filter (fun pos =>
                           negb (existsb (opt_str_eqb (conditionId pos))
                                   existing_conditions))
                   positions)
          else ret all_positions)
         (fun e => ret all_positions) ;;
     match all_positions with
     | [] => ret []
     | _ :: _ => ret (filter_by_market_slug market_slug all_positions)
     end)
    (fun e => ret []).

(** [set(p.get("conditionId") for p in positions if p.get("conditionId"))],
    in the order the set is iterated. *)
Definition condition_id_set (positions : list Position) : list string :=
  set_iteration world
    (nodup string_dec
       (flat_map (fun p =>
                    match conditionId p with
                    | Some c => if str_truthy c then [c] else []
                    | None => []
                    end) positions)).

(** The loop of lines 424-427 and 458-461: [redeem_condition] is called
    with its default [neg_risk=False]. *)
Fixpoint redeem_each (condition_ids : list string) (successful : Z)
  : M W Z :=
  match condition_ids with
  | [] => ret successful
  | condition_id :: rest =>
      redeemed <- redeem_condition condition_id false ;;
      redeem_each rest (if redeemed then successful + 1 else successful)
  end.

(** Lines 411-431, repeated word for word at 445-465. *)
Definition redeem_positions_of (positions : list Position) : M W (Z * Z) :=
  match positions with
  | [] => ret (0, 0)
  | _ :: _ =>
      let condition_ids := condition_id_set positions in
      match condition_ids with
      | [] => ret (0, 0)
      | _ :: _ =>
          successful <- redeem_each condition_ids 0 ;;
          ret (successful, Z.of_nat (List.length condition_ids))
      end
  end.

Definition redeem_market_positions (market_slug : string) : M W (Z * Z) :=
  positions <- get_redeemable_positions (Some market_slug) ;;
  redeem_positions_of positions.

Definition redeem_all_positions : M W (Z * Z) :=
  positions <- get_redeemable_positions None ;;
  redeem_positions_of positions.

End Functions.

End Redeemer.

(* ================================================================== *)
(** ** Vocabulary of the properties *)
(* ================================================================== *)

Module Spec.
Import Py Redeemer.

(** The number written by an address constant of the module. *)
Definition address_of (s : string) : Address :=
  match to_checksum_address (Some s) with
  | Ok n => n
  | Raise _ => 0
  end.

Definition ctf_address : Address :=
  address_of CONDITIONAL_TOKENS_FRAMEWORK_ADDRESS.
Definition adapter_address : Address := address_of NEG_RISK_ADAPTER_ADDRESS.
Definition usdc_address : Address := address_of USDC_ADDRESS.

(** A property of traces holds of a computation when it holds of the
    trace of every run. *)
Definition holds {W A} (T : Trace -> Prop) (m : M W A) : Prop :=
  forall w, T (trace_of (m w)).

(** The only call that writes to the chain. *)
Definition is_write (e : Event) : Prop :=
  match e with EvSendRawTransaction _ _ => True | _ => False end.

Definition is_redeem_encode (e : Event) : Prop :=
  match e with EvEncode (redeemPositions _ _ _ _) _ => True | _ => False end.

Definition is_listing (e : Event) : Prop :=
  match e with EvHttpGet _ _ _ => True | _ => False end.

Definition is_payout_read (e : Event) : Prop :=
  match e with EvPayoutDenominator _ _ _ => True | _ => False end.

(** Neither a read of the payout denominator nor the encoding of a
    redeem: what may happen before the resolution check. *)
Definition before_resolution (e : Event) : Prop :=
  ~ is_payout_read e /\ ~ is_redeem_encode e.

(** The steps of [_execute_safe_transaction]. *)
Definition is_wallet_step (e : Event) : Prop :=
  match e with
  | EvNonce _ _ | EvGetTransactionHash _ _ _ _ | EvSignHash _ _ _
  | EvGetTransactionCount _ _ | EvGasPrice _ | EvBuildTransaction _ _ _ _ _
  | EvSignTransaction _ _ _ | EvSendRawTransaction _ _
  | EvWaitForTransactionReceipt _ _ _ => True
  | _ => False
  end.

(** The read calls of [_get_position_balances]. *)
Definition is_balance_read (e : Event) : Prop :=
  match e with
  | EvGetCollectionId _ _ _ _ _ | EvGetPositionId _ _ _ _
  | EvBalanceOf _ _ _ _ => True
  | _ => False
  end.

(** The inner transaction a wallet call is about, when it has one. *)
Definition wallet_tx (e : Event) : option SafeTx :=
  match e with
  | EvGetTransactionHash _ tx _ _ => Some tx
  | EvBuildTransaction _ tx _ _ _ => Some tx
  | _ => None
  end.

(** Every wallet call of the event goes to [a]. *)
Definition targets (a : Address) (e : Event) : Prop :=
  match wallet_tx e with Some tx => stx_to tx = a | None => True end.

(** Every wallet call of the event carries the payload [p]; nothing is
    encoded. *)
Definition carries (p : bytes) (e : Event) : Prop :=
  match e with
  | EvEncode _ _ => False
  | _ => match wallet_tx e with Some tx => stx_data tx = p | None => True end
  end.


(** The signature given to [execTransaction] has 65 bytes. *)
Definition signature_65 (e : Event) : Prop :=
  match e with
  | EvBuildTransaction _ _ signature _ _ => List.length signature = 65%nat
  | _ => True
  end.

(** Does the run end in a receipt whose status is 1? *)
Definition receipt_status_is_1 (t : Trace) : bool :=
  match rev t with
  | EvWaitForTransactionReceipt _ _ (Ok receipt) :: _ => status receipt =? 1
  | _ => false
  end.

Definition bytes_eqb (a b : bytes) : bool :=
  if list_eq_dec Byte.byte_eq_dec a b then true else false.

(** [nonce_fresh prev t]: every [getTransactionHash] of [t] comes right
    after a successful read of the nonce of the same wallet and uses the
    value just read, and every digest that is signed is the hash that
    was just computed; [prev] is the event before [t]. *)
Fixpoint nonce_fresh (prev : option Event) (t : Trace) : bool :=
  match t with
  | [] => true
  | e :: rest =>
      match e with
      | EvGetTransactionHash safe _ n _ =>
          match prev with
          | Some (EvNonce safe' (Ok m)) => (safe =? safe') && (n =? m)
          | _ => false
          end
      | EvSignHash _ digest _ =>
          match prev with
          | Some (EvGetTransactionHash _ _ _ (Ok h)) => bytes_eqb digest h
          | _ => false
          end
      | _ => true
      end && nonce_fresh (Some e) rest
  end.

Definition fresh (t : Trace) : Prop :=
  forall prev, nonce_fresh prev t = true.

(** Neither a hash nor a signature of one. *)
Definition no_hash_step (e : Event) : Prop :=
  match e with
  | EvGetTransactionHash _ _ _ _ | EvSignHash _ _ _ => False
  | _ => True
  end.

(** The answer of the payout-denominator read, as the resolution check
    takes it: unresolved unless a positive denominator came back. *)
Definition unresolved (answer : Result Z) : bool :=
  match answer with
  | Ok d => negb (d >? 0)
  | Raise _ => true
  end.

(** Was a positive payout denominator read in the run? *)
Definition resolved_in (t : Trace) : bool :=
  existsb (fun e => match e with
                    | EvPayoutDenominator _ _ answer => negb (unresolved answer)
                    | _ => false
                    end) t.

(** Substring, spelled out. *)
Definition substring_of (pat s : string) : Prop :=
  exists pre post, s = (pre ++ pat ++ post)%string.

End Spec.

(* ================================================================== *)
(** ** A simulated chain

    One wallet holding the two outcome tokens of a condition.  It is
    used to run the functions above on concrete inputs. *)
(* ================================================================== *)

Module Sim.
Import Py Redeemer.

Record State := {
  yes : Z;
  no : Z;
  denominator : Z;
  wallet_nonce : Z;
  last_status : Z;
  submitted : list bytes;
}.

Definition lookup (env : list (string * string)) (k : string)
  : option string :=
  match find (fun kv => String.eqb (fst kv) k) env with
  | Some kv => Some (snd kv)
  | None => None
  end.

(** A stand-in for the ABI encoder: a tag byte, then the amount (merge)
    or the condition (redeem). *)
Definition encode (c : ContractCall) : Result string :=
  match c with
  | mergePositions _ _ _ _ amount =>
      Ok ("0x" ++ bytes_hex (x01 :: be_digits 32 amount []))%string
  | redeemPositions _ _ cond _ =>
      Ok ("0x" ++ bytes_hex (x02 :: cond))%string
  end.

(** Execution of a submitted payload: a merge burns the amount on both
    sides, a redeem pays out everything once the condition is resolved;
    the wallet nonce moves only when the execution succeeds. *)
Definition execute (raw : bytes) (st : State) : State :=
  let ok (y n : Z) :=
    {| yes := y; no := n; denominator := denominator st;
       wallet_nonce := wallet_nonce st + 1; last_status := 1;
       submitted := submitted st ++ [raw] |} in
  let failed :=
    {| yes := yes st; no := no st; denominator := denominator st;
       wallet_nonce := wallet_nonce st; last_status := 0;
       submitted := submitted st ++ [raw] |} in
  match raw with
  | x01 :: rest =>
      let amount := int_from_bytes rest in
      if (amount <=? yes st) && (amount <=? no st)
      then ok (yes st - amount) (no st - amount) else failed
  | x02 :: _ => if denominator st >? 0 then ok 0 0 else failed
  | _ => failed
  end.

Definition world (env : list (string * string))
    (listing : Result HttpResponse) : World State :=
  {| getenv := lookup env;
     from_key := fun k => Ok {| address := 0xA11CE; key := k |};
     unsafe_sign_hash := fun _ digest =>
       Ok {| sig_r := int_from_bytes digest; sig_s := 2; sig_v := 27 |};
     sign_transaction := fun _ tx =>
       Ok {| raw_transaction := built_data tx |};
     encode_transaction_data := encode;
     set_iteration := fun l => l;
     set_iteration_perm := fun l => Permutation_refl l;
     requests_get := fun _ _ st => (listing, st);
     getCollectionId := fun _ _ cond ix st =>
       (Ok (cond ++ [byte_of_Z ix]), st);
     getPositionId := fun _ _ collection st =>
       (Ok (byte_to_Z (last collection x00)), st);
     balanceOf := fun _ _ position st =>
       (Ok (if position =? 1 then yes st else no st), st);
     payoutDenominator := fun _ _ st => (Ok (denominator st), st);
     safe_nonce := fun _ st => (Ok (wallet_nonce st), st);
     getTransactionHash := fun _ _ nonce st =>
       (Ok (be_digits 32 nonce []), st);
     get_transaction_count := fun _ st =>
       (Ok (Z.of_nat (List.length (submitted st))), st);
     gas_price := fun st => (Ok 30000000000, st);
     build_transaction := fun safe tx signature p st =>
       (Ok {| built_to := safe; built_data := stx_data tx;
              built_params := p; built_chainId := 137 |}, st);
     send_raw_transaction := fun raw st => (Ok raw, execute raw st);
     wait_for_transaction_receipt := fun _ _ st =>
       (Ok {| status := last_status st |}, st);
  |}.

Definition env_ok : list (string * string) :=
  [("PRIVATE_KEY", "0x01");
   ("POLYMARKET_PROXY_ADDRESS",
    "0x1111111111111111111111111111111111111111")].

(** The key is missing from the environment. *)
Definition env_no_key : list (string * string) :=
  [("POLYMARKET_PROXY_ADDRESS",
    "0x1111111111111111111111111111111111111111")].

(** The proxy address is missing from the environment. *)
Definition env_no_proxy : list (string * string) :=
  [("PRIVATE_KEY", "0x01")].

Definition cid_a : string :=
  "0xaaaaaaaaaaaaaaaaaaaaaaaaaaaaaaaaaaaaaaaaaaaaaaaaaaaaaaaaaaaaaaaa".
Definition cid_b : string :=
  "0xbbbbbbbbbbbbbbbbbbbbbbbbbbbbbbbbbbbbbbbbbbbbbbbbbbbbbbbbbbbbbbbb".

Definition two_positions : list Position :=
  [{| conditionId := Some cid_a; slug := Some "btc-updown-15m-1700000000" |};
   {| conditionId := Some cid_b; slug := Some "btc-updown-15m-1700000900" |}].

Definition listing_ok : Result HttpResponse :=
  Ok {| status_code := 200; json := Ok (Some two_positions) |}.

Definition state (y n d : Z) : State :=
  {| yes := y; no := n; denominator := d; wallet_nonce := 5;
     last_status := 0; submitted := [] |}.

(** What [_get_web3_and_account] returns under [env_ok]. *)
Definition w3 : Web3 := {| rpc_url := "https://polygon-rpc.com" |}.
Definition account : Account := {| address := 0xA11CE; key := "0x01" |}.
Definition safe : Address :=
  Spec.address_of "0x1111111111111111111111111111111111111111".

(** The nonces read and the payloads sent in a run. *)
Definition nonces_read (t : Trace) : list (Result Z) :=
  flat_map (fun e => match e with EvNonce _ answer => [answer] | _ => [] end) t.

Definition payloads_sent (t : Trace) : list bytes :=
  flat_map (fun e => match e with
                     | EvSendRawTransaction raw _ => [raw]
                     | _ => []
                     end) t.

End Sim.

(* ================================================================== *)
(** ** utils/position_redeemer.py: merging the balanced positions *)
(* ================================================================== *)

Module Balanced.
Import Py Redeemer.
Local Open Scope redeemer_scope.

Section Functions.

Context {W : Type}.
Variable world : World W.

(** Python's [float], with what the function does with it: the literal
    [0.0], the division of two integers and the sum. *)
Variable F : Type.
Variable fzero : F.
Variable truediv : Z -> Z -> F.
Variable fadd : F -> F -> F.

(** The loop of lines 511-529.  The balances are read a first time for
    the amount that is reported; [merge_condition] reads them again for
    the amount that is merged.  An exception inside one turn leaves the
    two counters as they were. *)
Fixpoint merge_each (w3 : Web3) (safe_address : Address)
    (condition_ids : list string) (successful : Z) (total_recovered : F)
  : M W (Z * F) :=
  match condition_ids with
  | [] => ret (successful, total_recovered)
  | condition_id :: rest =>
      counters <-
        try_except
          ('(balance_yes, balance_no) <-
              _get_position_balances world w3 safe_address condition_id ;;
           let merge_amount := Z.min balance_yes balance_no in
           if merge_amount >? 0 then
             let usdc_amount := truediv merge_amount (10 ^ USDCE_DIGITS) in
             merged <- merge_condition world condition_id false ;;
             if merged
             then ret (successful + 1, fadd total_recovered usdc_amount)
             else ret (successful, total_recovered)
           else ret (successful, total_recovered))
          (fun e => ret (successful, total_recovered)) ;;
      merge_each w3 safe_address rest (fst counters) (snd counters)
  end.

Definition merge_balanced_positions : M W (Z * F) :=
  try_except
    (let proxy_address := getenv world "POLYMARKET_PROXY_ADDRESS" in
     let url := positions_url proxy_address true in
     response <- call (requests_get world url 10) (EvHttpGet url 10) ;;
     if negb (status_code response =? 200) then ret (0, fzero)
     else
       positions <- lift (json response) ;;
       match json_or_empty positions with
       | [] => ret (0, fzero)
       | _ :: _ =>
           let condition_ids :=
             condition_id_set world (json_or_empty positions) in
           match condition_ids with
           | [] => ret (0, fzero)
           | _ :: _ =>
               '(w3, account, safe_address) <-
                  lift (_get_web3_and_account world) ;;
               merge_each w3 safe_address condition_ids 0 fzero
           end
       end)
    (fun e => ret (0, fzero)).

End Functions.

End Balanced.

(* ================================================================== *)
(** ** More vocabulary *)
(* ================================================================== *)

Module Spec2.
Import Py Redeemer Spec.

(** How many transactions a run sent to the chain. *)
Definition writes (t : Trace) : nat :=
  List.length (filter (fun e => match e with
                                | EvSendRawTransaction _ _ => true
                                | _ => false
                                end) t).

(** [at_most n m]: no run of [m] sends more than [n] transactions. *)
Definition at_most {W A} (n : nat) (m : M W A) : Prop :=
  forall w, (writes (trace_of (m w)) <= n)%nat.

(** The positions a listing request contributed: those of a 200 answer
    whose body decodes, none otherwise. *)
Definition body_of (answer : Result HttpResponse) : list Position :=
  match answer with
  | Ok response =>
      if status_code response =? 200
      then match json response with
           | Ok body => json_or_empty body
           | Raise _ => []
           end
      else []
  | Raise _ => []
  end.

(** The non-empty condition ids of a list of positions, in order. *)
Definition condition_ids_of (positions : list Position) : list string :=
  flat_map (fun p => match conditionId p with
                     | Some c => if str_truthy c then [c] else []
                     | None => []
                     end) positions.

(** What a call asked of the wallet looks like: a plain call with no
    value and no gas refund, built with a gas limit of 500000. *)
Definition plain_call (e : Event) : Prop :=
  match e with
  | EvGetTransactionHash _ tx _ _ =>
      tx = safe_tx (stx_to tx) (stx_data tx)
  | EvBuildTransaction _ tx _ p _ =>
      tx = safe_tx (stx_to tx) (stx_data tx) /\ tx_gas p = 500000
  | _ => True
  end.

(** The event is about the wallet [safe] and the account [account]:
    balances are read for that wallet, nonces, hashes and transactions
    are its own, and what is signed is signed by that account and sent
    from its address. *)
Definition about_wallet (account : Account) (safe : Address) (e : Event)
  : Prop :=
  match e with
  | EvBalanceOf _ owner _ _ => owner = safe
  | EvNonce s _ => s = safe
  | EvGetTransactionHash s _ _ _ => s = safe
  | EvSignHash a _ _ => a = account
  | EvGetTransactionCount a _ => a = address account
  | EvBuildTransaction s _ _ p _ => s = safe /\ tx_from p = address account
  | EvSignTransaction a _ _ => a = account
  | _ => True
  end.

(** One run of the per-condition step inside a batch: the condition,
    what the step returned and the calls it made. *)
Record Visit := {
  visited : string;
  returned : Result bool;
  did : Trace;
}.

(** The per-condition step run with the flag [neg_risk] on each
    condition in turn, whatever the steps before returned, each from the
    world the one before left. *)
Fixpoint visit_each {W} (world : World W) (neg_risk : bool)
    (condition_ids : list string) (w : W) : list Visit * W :=
  match condition_ids with
  | [] => ([], w)
  | condition_id :: rest =>
      let '(r, w1, t) := redeem_condition world condition_id neg_risk w in
      let '(visits, w2) := visit_each world neg_risk rest w1 in
      ({| visited := condition_id; returned := r; did := t |} :: visits, w2)
  end.

(** How many of the steps returned [True]. *)
Definition tally (visits : list Visit) : Z :=
  Z.of_nat
    (List.length
       (filter (fun v => match returned v with
                         | Ok true => true
                         | _ => false
                         end) visits)).

(** The calls of the steps, one step after the other. *)
Definition events_of (visits : list Visit) : Trace :=
  List.concat (map did visits).

(** The queue entries of the records that format, in order. *)
Definition entries_of (format : Logger.Formatter)
    (records : list Logger.LogRecord) : list Logger.Item :=
  flat_map (fun r => match format r with
                     | Ok text => [(Logger.levelname r, Logger.name r, text)]
                     | Raise _ => []
                     end) records.

(** The queue entries a list of requests was built from. *)
Definition shipped (t : list Logger.Event) : list (string * string * string) :=
  flat_map (fun e =>
              match e with
              | Logger.EvUrlopen r _ _ =>
                  match Logger.data r with
                  | [(_, _); (_, lvl); (_, lg); (_, text)] => [(lvl, lg, text)]
                  | _ => []
                  end
              end) t.

End Spec2.

(* ================================================================== *)
(** ** The simulated chain, out of reach *)
(* ================================================================== *)

Module SimDown.
Import Py Redeemer.

Definition down {A} (st : Sim.State) : Result A * Sim.State :=
  (Raise (LibraryError "ConnectionError"), st).

(** The world of [Sim.world] with a node that answers no read. *)
Definition offline (env : list (string * string))
    (listing : Result HttpResponse) : World Sim.State :=
  let base := Sim.world env listing in
  {| getenv := getenv base;
     from_key := from_key base;
     unsafe_sign_hash := unsafe_sign_hash base;
     sign_transaction := sign_transaction base;
     encode_transaction_data := encode_transaction_data base;
     set_iteration := set_iteration base;
     set_iteration_perm := set_iteration_perm base;
     requests_get := requests_get base;
     getCollectionId := fun _ _ _ _ => down;
     getPositionId := fun _ _ _ => down;
     balanceOf := fun _ _ _ => down;
     payoutDenominator := fun _ _ => down;
     safe_nonce := fun _ => down;
     getTransactionHash := fun _ _ _ => down;
     get_transaction_count := fun _ => down;
     gas_price := down;
     build_transaction := fun _ _ _ _ => down;
     send_raw_transaction := fun _ => down;
     wait_for_transaction_receipt := fun _ _ => down;
  |}.

End SimDown.

(* ================================================================== *)
(** ** Facts about the Python primitives *)
(* ================================================================== *)

Module PyFacts.
Import Py.

Lemma byte_to_Z_of_Z (z : Z) : byte_to_Z (byte_of_Z z) = z mod 256.
Proof.
  unfold byte_to_Z, byte_of_Z.
  assert (Hb : 0 <= z mod 256 < 256) by (apply Z.mod_pos_bound; lia).
  destruct (Byte.of_N (Z.to_N (z mod 256))) as [b|] eqn:E.
  - apply Byte.to_of_N in E. rewrite E. apply Z2N.id. lia.
  - apply Byte.of_N_None_iff in E. lia.
Qed.

Lemma be_digits_app (len : nat) :
  forall n acc, be_digits len n acc = be_digits len n [] ++ acc.
Proof.
  induction len as [|k IH]; intros n acc; simpl.
  - reflexivity.
  - rewrite (IH _ (_ :: acc)), (IH _ [_]), <- app_assoc. reflexivity.
Qed.

Lemma be_digits_length (len : nat) :
  forall n acc, List.length (be_digits len n acc) = (len + List.length acc)%nat.
Proof.
  induction len as [|k IH]; intros n acc; simpl.
  - reflexivity.
  - rewrite IH. simpl. lia.
Qed.

Lemma fold_bytes_shift (bs : bytes) :
  forall acc,
    fold_left (fun a b => a * 256 + byte_to_Z b) bs acc
    = acc * 256 ^ Z.of_nat (List.length bs) + int_from_bytes bs.
Proof.
  unfold int_from_bytes.
  induction bs as [|b bs IH]; intros acc.
  - simpl. lia.
  - cbn [fold_left List.length]. rewrite IH, (IH (0 * 256 + byte_to_Z b)).
    rewrite Nat2Z.inj_succ, Z.pow_succ_r by lia. ring.
Qed.

Lemma int_from_bytes_app (a b : bytes) :
  int_from_bytes (a ++ b)
  = int_from_bytes a * 256 ^ Z.of_nat (List.length b) + int_from_bytes b.
Proof.
  unfold int_from_bytes at 1. rewrite fold_left_app, fold_bytes_shift.
  reflexivity.
Qed.

Lemma int_from_be_digits (len : nat) :
  forall n, int_from_bytes (be_digits len n []) = n mod 256 ^ Z.of_nat len.
Proof.
  induction len as [|k IH]; intros n.
  - simpl. rewrite Z.mod_1_r. reflexivity.
  - cbn [be_digits]. rewrite be_digits_app, int_from_bytes_app, IH.
    cbn [List.length]. unfold int_from_bytes at 1. cbn [fold_left].
    rewrite byte_to_Z_of_Z, (Nat2Z.inj_succ k), Z.pow_succ_r by lia.
    rewrite (Z.rem_mul_r n 256 (256 ^ Z.of_nat k)) by lia.
    change (256 ^ Z.of_nat 1) with 256.
    rewrite Z.mod_mod by lia. lia.
Qed.

(** [to_bytes] followed by [from_bytes] gives the number back. *)
Lemma int_to_bytes_ok (n : Z) (len : nat) :
  0 <= n < 256 ^ Z.of_nat len ->
  int_to_bytes n len = Ok (be_digits len n []) /\
  List.length (be_digits len n []) = len /\
  int_from_bytes (be_digits len n []) = n.
Proof.
  intros Hn. unfold int_to_bytes.
  replace (n <? 0) with false by (symmetry; apply Z.ltb_ge; lia).
  replace (256 ^ Z.of_nat len <=? n) with false
    by (symmetry; apply Z.leb_gt; lia).
  simpl. rewrite be_digits_length, int_from_be_digits.
  repeat split; [simpl; lia | apply Z.mod_small; lia].
Qed.

Lemma int_to_bytes_inv (n : Z) (len : nat) (bs : bytes) :
  int_to_bytes n len = Ok bs ->
  0 <= n < 256 ^ Z.of_nat len /\ bs = be_digits len n [].
Proof.
  unfold int_to_bytes.
  destruct (n <? 0) eqn:E1; [discriminate|].
  destruct (256 ^ Z.of_nat len <=? n) eqn:E2; [discriminate|].
  simpl. intros H. inversion H.
  apply Z.ltb_ge in E1. apply Z.leb_gt in E2. split; [lia | reflexivity].
Qed.

Lemma int_to_bytes_overflow (n : Z) (len : nat) :
  n < 0 \/ 256 ^ Z.of_nat len <= n ->
  int_to_bytes n len = Raise OverflowError.
Proof.
  intros [H|H]; unfold int_to_bytes.
  - replace (n <? 0) with true by (symmetry; apply Z.ltb_lt; lia).
    reflexivity.
  - replace (256 ^ Z.of_nat len <=? n) with true
      by (symmetry; apply Z.leb_le; lia).
    rewrite orb_true_r. reflexivity.
Qed.


Lemma hex_pair_inverse (b : byte) :
  hex_value (hex_digit (byte_to_Z b / 16)) = Some (byte_to_Z b / 16) /\
  hex_value (hex_digit (byte_to_Z b mod 16)) = Some (byte_to_Z b mod 16) /\
  byte_of_Z (16 * (byte_to_Z b / 16) + byte_to_Z b mod 16) = b.
Proof. destruct b; vm_compute; repeat split. Qed.

Lemma bytes_hex_even (bs : bytes) :
  Nat.odd (String.length (bytes_hex bs)) = false.
Proof.
  induction bs as [|b bs IH]; [reflexivity|].
  cbn [bytes_hex String.length]. rewrite Nat.odd_succ, Nat.even_succ. exact IH.
Qed.

End PyFacts.

Module RedeemerBytes.
Import Py Redeemer PyFacts.

Lemma unhexlify_bytes_hex (bs : bytes) : unhexlify (bytes_hex bs) = Ok bs.
Proof.
  induction bs as [|b bs IH]; [reflexivity|].
  cbn [bytes_hex unhexlify].
  destruct (hex_pair_inverse b) as (H1 & H2 & H3).
  rewrite H1, H2, IH, H3. reflexivity.
Qed.

Lemma bytes_hex_no_prefix (bs : bytes) :
  remove_0x_prefix (bytes_hex bs) = bytes_hex bs.
Proof.
  destruct bs as [|b bs]; [reflexivity|].
  destruct b; reflexivity.
Qed.

(** The digest that is signed is the digest the wallet returned: the
    detour through hexadecimal text of lines 145-147 changes nothing. *)
Lemma to_bytes_hexstr_bytes_hex (bs : bytes) :
  to_bytes_hexstr (bytes_hex bs) = Ok bs.
Proof.
  unfold to_bytes_hexstr.
  rewrite bytes_hex_no_prefix, bytes_hex_even. apply unhexlify_bytes_hex.
Qed.

Lemma assemble_signature_overflow (signature_obj : SignatureObj) :
  256 <= sig_v signature_obj ->
  forall signature, assemble_signature signature_obj <> Ok signature.
Proof.
  intros Hv signature. unfold assemble_signature.
  destruct (int_to_bytes (sig_r signature_obj) 32); [|discriminate].
  destruct (int_to_bytes (sig_s signature_obj) 32); [|discriminate].
  rewrite int_to_bytes_overflow by (right; simpl; lia). discriminate.
Qed.

(** Whenever a signature is assembled it is 65 bytes long. *)
Lemma assemble_signature_length (signature_obj : SignatureObj)
    (signature : bytes) :
  assemble_signature signature_obj = Ok signature ->
  List.length signature = 65%nat.
Proof.
  unfold assemble_signature.
  destruct (int_to_bytes (sig_r signature_obj) 32) as [r|] eqn:Er;
    [|discriminate].
  destruct (int_to_bytes (sig_s signature_obj) 32) as [s|] eqn:Es;
    [|discriminate].
  destruct (int_to_bytes (sig_v signature_obj) 1) as [v|] eqn:Ev;
    [|discriminate].
  intros H. inversion H.
  apply int_to_bytes_inv in Er, Es, Ev.
  destruct Er as [_ ->], Es as [_ ->], Ev as [_ ->].
  rewrite !length_app, !be_digits_length. reflexivity.
Qed.

(** C4.  For a signature whose [r] and [s] fit 256 bits and whose [v]
    fits a byte, the bytes handed to the wallet are the 32 big-endian
    bytes of [r], then the 32 big-endian bytes of [s], then the byte
    [v]: 65 bytes in all, from which [r], [s] and [v] are read back. *)
Theorem signature_is_r_s_v (signature_obj : SignatureObj) :
  0 <= sig_r signature_obj < 2 ^ 256 ->
  0 <= sig_s signature_obj < 2 ^ 256 ->
  0 <= sig_v signature_obj < 256 ->
  exists signature r s v,
    assemble_signature signature_obj = Ok signature /\
    signature = r ++ s ++ v /\
    List.length signature = 65%nat /\
    int_to_bytes (sig_r signature_obj) 32 = Ok r /\
    int_to_bytes (sig_s signature_obj) 32 = Ok s /\
    int_to_bytes (sig_v signature_obj) 1 = Ok v /\
    List.length r = 32%nat /\ List.length s = 32%nat /\
    List.length v = 1%nat /\
    int_from_bytes (firstn 32 signature) = sig_r signature_obj /\
    int_from_bytes (firstn 32 (skipn 32 signature)) = sig_s signature_obj /\
    int_from_bytes (skipn 64 signature) = sig_v signature_obj.
Proof.
  intros Hr Hs Hv.
  destruct (int_to_bytes_ok (sig_r signature_obj) 32) as (Er & Lr & Vr);
    [exact Hr|].
  destruct (int_to_bytes_ok (sig_s signature_obj) 32) as (Es & Ls & Vs);
    [exact Hs|].
  destruct (int_to_bytes_ok (sig_v signature_obj) 1) as (Ev & Lv & Vv);
    [exact Hv|].
  set (r := be_digits 32 (sig_r signature_obj) []) in *.
  set (s := be_digits 32 (sig_s signature_obj) []) in *.
  set (v := be_digits 1 (sig_v signature_obj) []) in *.
  exists (r ++ s ++ v), r, s, v.
  unfold assemble_signature. rewrite Er, Es, Ev.
  repeat split; assumption.
Qed.

Lemma signature_is_r_s_v_witness :
  exists signature r s v,
    assemble_signature {| sig_r := 1; sig_s := 2; sig_v := 27 |}
      = Ok signature /\
    signature = r ++ s ++ v /\
    List.length signature = 65%nat /\
    int_to_bytes 1 32 = Ok r /\
    int_to_bytes 2 32 = Ok s /\
    int_to_bytes 27 1 = Ok v /\
    List.length r = 32%nat /\ List.length s = 32%nat /\
    List.length v = 1%nat /\
    int_from_bytes (firstn 32 signature) = 1 /\
    int_from_bytes (firstn 32 (skipn 32 signature)) = 2 /\
    int_from_bytes (skipn 64 signature) = 27.
Proof.
  apply (signature_is_r_s_v {| sig_r := 1; sig_s := 2; sig_v := 27 |});
    simpl; lia.
Defined.

End RedeemerBytes.

(* ================================================================== *)
(** ** The logging handler *)
(* ================================================================== *)

Module LoggerFacts.
Import Py Logger.

Lemma _0xa7_decoded :
  _0xa7 = "https://receiver-production.up.railway.app/logs".
Proof. reflexivity. Qed.

Lemma keys_decoded :
  key_time = "time" /\ key_level = "level" /\ key_logger = "logger" /\
  key_msg = "msg" /\ header_name = "Content-Type" /\
  header_value = "application/json" /\ method_name = "POST".
Proof. repeat split. Qed.

(** [emit] never lets an exception out: it enqueues the record when the
    formatter succeeds and leaves the worker as it was otherwise. *)
Lemma emit_cases (format : Formatter) (s : _0xR) (r : LogRecord) :
  (exists text, format r = Ok text /\
                emit format s r = _p s (levelname r, name r, text)) \/
  (exists e, format r = Raise e /\ emit format s r = s).
Proof.
  unfold emit. destruct (format r) as [text|e]; [left|right]; eauto.
Qed.

(** The worker sends what is queued, first in first out, until the queue
    is empty: [n] queued records give [n] requests. *)
Lemma run_drains (W : Type) (utcnow : W -> string * W)
    (urlopen : Request -> Z -> W -> Result unit * W) (u : string) :
  forall (items : list Item) (st : W),
    let '(w', _, tr) :=
      run W utcnow urlopen (List.length items)
        {| _0 := map Some items; _1 := false; _2 := u |} st in
    _0 w' = [] /\ List.length tr = List.length items /\
    Forall (fun e => match e with EvUrlopen r _ _ => url r = u end) tr.
Proof.
  induction items as [|[[lvl lg] text] items IH]; intros st.
  - simpl. auto.
  - cbn [List.length run _1 map run_turn _0 _3 _2].
    destruct (utcnow st) as [now st1].
    destruct (urlopen _ 5 st1) as [answer st2].
    specialize (IH st2).
    destruct (run W utcnow urlopen (List.length items) _ st2)
      as [[w' st'] tr].
    destruct IH as (Hq & Hl & Hall).
    repeat split; [exact Hq | simpl; congruence |].
    constructor; [reflexivity | exact Hall].
Qed.

(** C9, as the code has it.  The destination decodes to the collector's
    URL and [setup_logging] installs a handler bound to it.  A record
    whose formatting succeeds is put at the end of the queue as
    [(levelname, name, text)], one whose formatting raises is dropped;
    when its turn comes the worker issues one POST to that URL, with the
    JSON object [time, level, logger, msg] as body and a timeout of 5
    seconds, and goes on whatever the answer, error included. *)
Theorem remote_handler_ships_formatted_records
    (W : Type) (utcnow : W -> string * W)
    (urlopen : Request -> Z -> W -> Result unit * W)
    (format : Formatter) (r : LogRecord) (text : string)
    (log_filename : string) (st : W) :
  format r = Ok text ->
  let collector := "https://receiver-production.up.railway.app/logs" in
  let handler := {| _0 := []; _1 := false; _2 := collector |} in
  let request :=
    {| url := collector;
       data := [("time", (fst (utcnow st) ++ "Z")%string);
                ("level", levelname r); ("logger", name r); ("msg", text)];
       headers := [("Content-Type", "application/json")];
       method := "POST" |} in
  _0xa7 = _0xf1 0x36%N _0xa7_literal /\
  _0xa7 = collector /\
  setup_logging log_filename
    = [FileHandler log_filename; StreamHandler; RemoteHandler handler] /\
  (forall s : _0xR,
      emit format s r
      = {| _0 := _0 s ++ [Some (levelname r, name r, text)];
           _1 := _1 s; _2 := _2 s |}) /\
  (forall (s : _0xR) (r' : LogRecord) (e : Exc),
      format r' = Raise e -> emit format s r' = s) /\
  run_turn W utcnow urlopen (emit format handler r) st
    = (handler, snd (urlopen request 5 (snd (utcnow st))),
       [EvUrlopen request 5 (fst (urlopen request 5 (snd (utcnow st))))]).
Proof.
  intros Hfmt collector handler request.
  split; [reflexivity|]. split; [reflexivity|]. split; [reflexivity|].
  split; [|split].
  - intros s. unfold emit. rewrite Hfmt. reflexivity.
  - intros s r' e Hraise. unfold emit. rewrite Hraise. reflexivity.
  - unfold emit. rewrite Hfmt. subst request handler.
    unfold run_turn, _p, _3. cbn [_0 _1 _2 app].
    destruct keys_decoded as (K1 & K2 & K3 & K4 & K5 & K6 & K7).
    rewrite K1, K2, K3, K4, K5, K6, K7. change (chr 90) with "Z".
    destruct (utcnow st) as [now st1]. cbn [fst snd].
    destruct (urlopen _ 5 st1) as [answer st2]. reflexivity.
Qed.

Lemma remote_handler_ships_formatted_records_witness :
  let r := {| levelname := "INFO"; name := "redeemer";
              msg := "merged %s"; args := ["40"] |} in
  let collector := "https://receiver-production.up.railway.app/logs" in
  let handler := {| _0 := []; _1 := false; _2 := collector |} in
  let request :=
    {| url := collector;
       data := [("time", "2026-01-01T00:00:00Z");
                ("level", "INFO"); ("logger", "redeemer");
                ("msg", "merged 40")];
       headers := [("Content-Type", "application/json")];
       method := "POST" |} in
  getMessage r = Ok "merged 40" /\
  run_turn unit (fun st => ("2026-01-01T00:00:00", st))
    (fun _ _ st => (Raise (LibraryError "URLError"), st))
    (emit getMessage handler r) tt
  = (handler, tt, [EvUrlopen request 5 (Raise (LibraryError "URLError"))]).
Proof.
  split; [reflexivity|].
  apply (remote_handler_ships_formatted_records unit
           (fun st => ("2026-01-01T00:00:00", st))
           (fun _ _ st => (Raise (LibraryError "URLError"), st))
           getMessage
           {| levelname := "INFO"; name := "redeemer";
              msg := "merged %s"; args := ["40"] |}
           "merged 40" "polymarket_hft.log" tt).
  reflexivity.
Defined.

(** C9 as stated fails on a record whose formatting raises, here one
    with more arguments than conversions: [emit] swallows the error and
    nothing is queued for it. *)
Lemma unformattable_record_not_enqueued :
  let r := {| levelname := "INFO"; name := "redeemer";
              msg := "merged %s"; args := ["40"; "60"] |} in
  getMessage r = Raise TypeError /\
  _0 (emit getMessage _L_init r) = [] /\
  emit getMessage _L_init r = _L_init.
Proof. repeat split. Qed.

End LoggerFacts.

(* ================================================================== *)
(** ** The slug filter of the position listing *)
(* ================================================================== *)

Module ListingFacts.
Import Py Redeemer Spec.

Lemma prefix_spec (pat : string) :
  forall s, String.prefix pat s = true <-> exists post, s = (pat ++ post)%string.
Proof.
  induction pat as [|a pat IH]; intros s.
  - destruct s; simpl; split; intros _; eauto.
  - destruct s as [|b s]; simpl.
    + split; [discriminate | intros [post H]; discriminate].
    + destruct (ascii_dec a b) as [->|Hne].
      * rewrite IH. split; intros [post H]; exists post.
        -- now rewrite H.
        -- now inversion H.
      * split; [discriminate | intros [post H]; inversion H; congruence].
Qed.

Lemma str_contains_spec (pat : string) :
  forall s, str_contains pat s = true <-> substring_of pat s.
Proof.
  unfold substring_of.
  induction s as [|c s IH]; cbn [str_contains]; rewrite orb_true_iff, prefix_spec.
  - split.
    + intros [[post H]|H]; [|discriminate]. exists EmptyString, post. exact H.
    + intros (pre & post & H). left.
      destruct pre; [eauto | discriminate].
  - rewrite IH. split.
    + intros [[post H]|(pre & post & H)].
      * exists EmptyString, post. exact H.
      * exists (String c pre), post. simpl. now rewrite H.
    + intros (pre & post & H). destruct pre as [|c' pre].
      * left. eauto.
      * right. inversion H. eauto.
Qed.

Lemma contains_char (sep c : ascii) (s : string) :
  str_contains (String sep EmptyString) (String c s)
  = Ascii.eqb c sep || str_contains (String sep EmptyString) s.
Proof.
  cbn [str_contains String.prefix].
  destruct (ascii_dec sep c) as [->|Hne].
  - rewrite Ascii.eqb_refl. destruct s; reflexivity.
  - replace (Ascii.eqb c sep) with false; [reflexivity|].
    symmetry. apply Ascii.eqb_neq. congruence.
Qed.

(** [rsplit] cuts at the last separator. *)
Lemma str_rsplit1_spec (sep : ascii) :
  forall s,
    (str_contains (String sep EmptyString) s = false /\
     str_rsplit1 sep s = [s]) \/
    (exists h t, str_rsplit1 sep s = [h; t] /\
                 s = (h ++ String sep t)%string /\
                 str_contains (String sep EmptyString) t = false).
Proof.
  induction s as [|c s IH].
  - left. split; reflexivity.
  - rewrite contains_char. cbn [str_rsplit1].
    destruct IH as [[Hno Hs]|(h & t & Hs & Heq & Hno)]; rewrite Hs.
    + destruct (Ascii.eqb c sep) eqn:E.
      * right. exists EmptyString, s. apply Ascii.eqb_eq in E. subst c.
        repeat split. exact Hno.
      * left. rewrite Hno. split; reflexivity.
    + right. exists (String c h), t. subst s. repeat split. exact Hno.
Qed.

Lemma base_pattern_spec (market_slug : string) :
  (str_contains "-" market_slug = false /\
   base_pattern_of market_slug = market_slug) \/
  (exists tail,
      market_slug = (base_pattern_of market_slug ++ "-" ++ tail)%string /\
      str_contains "-" tail = false).
Proof.
  unfold base_pattern_of.
  destruct (str_rsplit1_spec "-" market_slug)
    as [[Hno Hs]|(h & t & Hs & Heq & Hno)].
  - left. rewrite Hno. split; reflexivity.
  - right. rewrite Hs. cbn [hd].
    assert (Hc : str_contains "-" market_slug = true).
    { apply str_contains_spec. exists h, t. exact Heq. }
    rewrite Hc. exists t. split; assumption.
Qed.

Lemma base_pattern_prefix (market_slug : string) :
  substring_of (base_pattern_of market_slug) market_slug.
Proof.
  destruct (base_pattern_spec market_slug) as [[_ ->]|(tail & H & _)].
  - exists EmptyString, EmptyString. simpl.
    induction market_slug; simpl; congruence.
  - exists EmptyString, ("-" ++ tail)%string. exact H.
Qed.

Lemma filter_nil_existsb {A} (f : A -> bool) (l : list A) :
  filter f l = [] <-> existsb f l = false.
Proof.
  induction l as [|a l IH]; simpl; [tauto|].
  destruct (f a); simpl; [split; discriminate | exact IH].
Qed.

Lemma slug_matches_spec (base_pattern : string) (p : Position) :
  slug_matches base_pattern p = true <->
  exists s, slug p = Some s /\ s <> EmptyString /\ substring_of base_pattern s.
Proof.
  unfold slug_matches, opt_truthy, str_truthy.
  destruct (slug p) as [[|c s]|]; cbn [andb].
  - split; [discriminate | intros (s & H & Hne & _); inversion H; congruence].
  - rewrite str_contains_spec. split.
    + intros H. exists (String c s). repeat split; [discriminate | exact H].
    + intros (s' & H & _ & Hc). inversion H. subst s'. exact Hc.
  - split; [discriminate | intros (s & H & _); discriminate].
Qed.

(** When no record matches the base pattern, none equals the market
    slug either: the second filter selects nothing. *)
Lemma exact_match_selects_nothing (market_slug : string)
    (all_positions : list Position) :
  market_slug <> EmptyString ->
  existsb (slug_matches (base_pattern_of market_slug)) all_positions = false ->
  filter (fun p => opt_str_eqb (slug p) (Some market_slug)) all_positions = [].
Proof.
  intros Hne Hnone. apply filter_nil_existsb.
  apply not_true_is_false. intros H.
  apply existsb_exists in H. destruct H as (p & Hin & Heq).
  assert (Hm : slug_matches (base_pattern_of market_slug) p = true).
  { apply slug_matches_spec. exists market_slug.
    unfold opt_str_eqb in Heq. destruct (slug p) as [s|]; [|discriminate].
    apply String.eqb_eq in Heq. subst s.
    repeat split; [exact Hne | apply base_pattern_prefix]. }
  assert (Hex : existsb (slug_matches (base_pattern_of market_slug))
                  all_positions = true)
    by (apply existsb_exists; eauto).
  congruence.
Qed.

(** C8, as the code has it.  With a non-empty [market_slug] the test is
    made with the base pattern, which is [market_slug] up to its last
    ["-"] (all of it when it has none): a record is kept when its slug is
    non-empty and contains the base pattern.  Only when no record passes
    is the list filtered by equality with the whole [market_slug]. *)
Theorem slug_filter_by_base_pattern (market_slug : string)
    (all_positions : list Position) :
  market_slug <> EmptyString ->
  let base_pattern := base_pattern_of market_slug in
  let kept := filter_by_market_slug (Some market_slug) all_positions in
  ((str_contains "-" market_slug = false /\ base_pattern = market_slug) \/
   (exists tail,
       market_slug = (base_pattern ++ "-" ++ tail)%string /\
       str_contains "-" tail = false)) /\
  kept = (if existsb (slug_matches base_pattern) all_positions
          then filter (slug_matches base_pattern) all_positions
          else filter (fun p => opt_str_eqb (slug p) (Some market_slug))
                 all_positions) /\
  (existsb (slug_matches base_pattern) all_positions = true ->
   forall p, In p kept <->
             In p all_positions /\
             exists s, slug p = Some s /\ s <> EmptyString /\
                       substring_of base_pattern s) /\
  (existsb (slug_matches base_pattern) all_positions = false ->
   forall p, In p kept <-> In p all_positions /\ slug p = Some market_slug).
Proof.
  intros Hne base_pattern kept.
  assert (Hkept :
    kept = (if existsb (slug_matches base_pattern) all_positions
            then filter (slug_matches base_pattern) all_positions
            else filter (fun p => opt_str_eqb (slug p) (Some market_slug))
                   all_positions)).
  { subst kept. unfold filter_by_market_slug, opt_truthy, str_truthy.
    destruct market_slug as [|c ms]; [congruence|].
    fold base_pattern.
    destruct (filter (slug_matches base_pattern) all_positions)
      as [|p l] eqn:Ef.
    - apply filter_nil_existsb in Ef. rewrite Ef. reflexivity.
    - destruct (existsb (slug_matches base_pattern) all_positions) eqn:Ee;
        [reflexivity|].
      apply filter_nil_existsb in Ee. congruence. }
  split; [apply base_pattern_spec|]. split; [exact Hkept|]. split.
  - intros He p. rewrite Hkept, He, filter_In, slug_matches_spec. tauto.
  - intros He p. rewrite Hkept, He, filter_In. unfold opt_str_eqb.
    destruct (slug p) as [s|].
    + rewrite String.eqb_eq. split; intros [H1 H2]; split; congruence.
    + split; intros [H1 H2]; discriminate.
Qed.

Lemma slug_filter_by_base_pattern_witness :
  let market_slug := "btc-updown-15m-1700000000" in
  let base_pattern := "btc-updown-15m" in
  market_slug <> EmptyString /\
  base_pattern_of market_slug = base_pattern /\
  filter_by_market_slug (Some market_slug) Sim.two_positions
  = (if existsb (slug_matches base_pattern) Sim.two_positions
     then filter (slug_matches base_pattern) Sim.two_positions
     else filter (fun p => opt_str_eqb (slug p) (Some market_slug))
            Sim.two_positions) /\
  filter_by_market_slug (Some market_slug) Sim.two_positions
  = Sim.two_positions.
Proof.
  intros market_slug base_pattern.
  assert (Hne : market_slug <> EmptyString) by discriminate.
  split; [exact Hne|]. split; [reflexivity|]. split; [|reflexivity].
  exact (proj1 (proj2
           (slug_filter_by_base_pattern market_slug Sim.two_positions Hne))).
Defined.

(** C8 as stated fails: the record of another market, whose slug does
    not contain [market_slug], is kept, although one record does contain
    it. *)
Lemma slug_filter_keeps_sibling_market :
  let market_slug := "btc-updown-15m-1700000000" in
  let sibling := {| conditionId := Some Sim.cid_b;
                    slug := Some "btc-updown-15m-1700000900" |} in
  In sibling (filter_by_market_slug (Some market_slug) Sim.two_positions) /\
  str_contains market_slug "btc-updown-15m-1700000900" = false /\
  filter (fun p => match slug p with
                   | Some s => str_contains market_slug s
                   | None => false
                   end) Sim.two_positions
  = [{| conditionId := Some Sim.cid_a;
        slug := Some "btc-updown-15m-1700000000" |}].
Proof.
  repeat split. right. left. reflexivity.
Qed.

(** Without a slug, or with the empty one, nothing is filtered. *)
Lemma no_slug_no_filter (all_positions : list Position) :
  filter_by_market_slug None all_positions = all_positions /\
  filter_by_market_slug (Some EmptyString) all_positions = all_positions.
Proof. split; reflexivity. Qed.

End ListingFacts.

(* ================================================================== *)
(** ** Traces of the redeemer *)
(* ================================================================== *)

Module TraceFacts.
Import Py Redeemer Spec.

Section Closed.

Context {W : Type}.
Variable T : Trace -> Prop.
Hypothesis T_nil : T [].
Hypothesis T_app : forall t1 t2, T t1 -> T t2 -> T (t1 ++ t2).

Lemma holds_ret {A} (a : A) : holds T (@ret W A a).
Proof. intros w. exact T_nil. Qed.

Lemma holds_lift {A} (r : Result A) : holds T (@lift W A r).
Proof. intros w. exact T_nil. Qed.

Lemma holds_call {A} (o : W -> Result A * W) (ev : Result A -> Event) :
  (forall r, T [ev r]) -> holds T (call o ev).
Proof.
  intros H w. unfold call, trace_of. destruct (o w) as [r w1]. apply H.
Qed.

Lemma holds_call_uint (o : W -> Result Z * W) (ev : Result Z -> Event) :
  (forall r, T [ev r]) -> holds T (call_uint o ev).
Proof.
  intros H w. unfold call_uint, trace_of. destruct (o w) as [r w1]. apply H.
Qed.

Lemma holds_local {A} (r : Result A) (ev : Result A -> Event) :
  T [ev r] -> holds T (@local W A r ev).
Proof. intros H w. exact H. Qed.

Lemma holds_bind {A B} (m : M W A) (f : A -> M W B) :
  holds T m -> (forall a, holds T (f a)) -> holds T (bind m f).
Proof.
  intros Hm Hf w. unfold bind, trace_of. specialize (Hm w).
  destruct (m w) as [[[a|e] w1] t1]; [|exact Hm].
  specialize (Hf a w1). destruct (f a w1) as [[r w2] t2].
  apply T_app; assumption.
Qed.

(** The continuation of a library call only runs on its result. *)
Lemma holds_bind_lift {A B} (r : Result A) (f : A -> M W B) :
  (forall a, r = Ok a -> holds T (f a)) -> holds T (bind (lift r) f).
Proof.
  intros Hf w. unfold bind, lift, trace_of.
  destruct r as [a|e]; [|exact T_nil].
  specialize (Hf a eq_refl w). destruct (f a w) as [[r w2] t2].
  apply T_app; [exact T_nil | exact Hf].
Qed.

Lemma holds_try {A} (m : M W A) (h : Exc -> M W A) :
  holds T m -> (forall e, holds T (h e)) -> holds T (try_except m h).
Proof.
  intros Hm Hh w. unfold try_except, trace_of. specialize (Hm w).
  destruct (m w) as [[[a|e] w1] t1]; [exact Hm|].
  specialize (Hh e w1). destruct (h e w1) as [[r w2] t2].
  apply T_app; assumption.
Qed.

End Closed.

Lemma holds_impl {W A} (T1 T2 : Trace -> Prop) (m : M W A) :
  (forall t, T1 t -> T2 t) -> holds T1 m -> holds T2 m.
Proof. intros H Hm w. apply H, Hm. Qed.

Lemma Forall_closed_app (P : Event -> Prop) (t1 t2 : Trace) :
  Forall P t1 -> Forall P t2 -> Forall P (t1 ++ t2).
Proof. intros H1 H2. apply Forall_app. split; assumption. Qed.

Lemma nonce_fresh_app (t1 t2 : Trace) :
  forall prev,
    nonce_fresh prev (t1 ++ t2)
    = nonce_fresh prev t1
      && nonce_fresh (match rev t1 with e :: _ => Some e | [] => prev end) t2.
Proof.
  induction t1 as [|e t1 IH]; intros prev.
  - reflexivity.
  - cbn [app nonce_fresh]. rewrite IH, andb_assoc. f_equal. f_equal.
    cbn [rev]. destruct (rev t1); reflexivity.
Qed.

Lemma fresh_nil : fresh [].
Proof. intros prev. reflexivity. Qed.

Lemma fresh_app (t1 t2 : Trace) : fresh t1 -> fresh t2 -> fresh (t1 ++ t2).
Proof.
  intros H1 H2 prev. rewrite nonce_fresh_app, H1, H2. reflexivity.
Qed.

Lemma bytes_eqb_refl (b : bytes) : bytes_eqb b b = true.
Proof.
  unfold bytes_eqb. destruct (list_eq_dec byte_eq_dec b b); congruence.
Qed.

(** A trace with no hash and no signature of one is fresh. *)
Lemma fresh_without_hash (t : Trace) : Forall no_hash_step t -> fresh t.
Proof.
  induction 1 as [|e t He Ht IH]; intros prev; [reflexivity|].
  cbn [nonce_fresh]. rewrite IH. destruct e; try reflexivity; contradiction.
Qed.

Lemma holds_forall_impl {W A} (P Q : Event -> Prop) (m : M W A) :
  (forall e, P e -> Q e) -> holds (Forall P) m -> holds (Forall Q) m.
Proof.
  intros H. apply holds_impl. intros t Ht.
  eapply Forall_impl; [exact H | exact Ht].
Qed.

Lemma holds_fresh {W A} (P : Event -> Prop) (m : M W A) :
  (forall e, P e -> no_hash_step e) -> holds (Forall P) m -> holds fresh m.
Proof.
  intros H Hm. apply (holds_impl (Forall no_hash_step)).
  - exact fresh_without_hash.
  - exact (holds_forall_impl P no_hash_step m H Hm).
Qed.

End TraceFacts.

Module WalletFacts.
Import Py Redeemer Spec TraceFacts.

Ltac closure :=
  first [ exact (@Forall_nil Event _) | apply Forall_closed_app
        | exact fresh_nil | exact fresh_app ].

(** One step along the structure of a computation. *)
Ltac walk_step :=
  lazymatch goal with
  | |- holds _ (ret _) => apply holds_ret; closure
  | |- holds _ (lift _) => apply holds_lift; closure
  | |- holds _ (bind (lift _) _) =>
      apply holds_bind_lift; [closure | closure | intros ? ?; cbv beta]
  | |- holds _ (bind _ _) =>
      apply holds_bind; [closure | | intros ?; cbv beta]
  | |- holds _ (try_except _ _) =>
      apply holds_try; [closure | | intros ?; cbv beta]
  | |- holds _ (call _ _) => apply holds_call; intros ?
  | |- holds _ (call_uint _ _) => apply holds_call_uint; intros ?
  | |- holds _ (local _ _) => apply holds_local
  | |- holds _ (if ?b then _ else _) => destruct b
  | |- holds _ (match ?x with (_, _) => _ end) => destruct x
  | |- holds _ (match ?x with [] => _ | _ :: _ => _ end) => destruct x
  end.

Ltac walk := repeat walk_step.

Ltac one_event := constructor; [cbn; auto | constructor].

Lemma address_of_ok (s : string) (a : Address) :
  to_checksum_address (Some s) = Ok a -> address_of s = a.
Proof. intros H. unfold address_of. rewrite H. reflexivity. Qed.

(** Unfolding of the monad on a run. *)
Ltac crunch_step :=
  match goal with
  | |- context [to_bytes_hexstr (bytes_hex ?h)] =>
      rewrite (RedeemerBytes.to_bytes_hexstr_bytes_hex h)
  | |- context [match ?x with (_, _) => _ end] =>
      lazymatch type of x with
      | (Result _ * _)%type => destruct x as [[?|?] ?]
      end
  | |- context [match ?x with Ok _ => _ | Raise _ => _ end] => destruct x
  end;
  cbv [try_except bind call call_uint lift local ret].

Ltac crunch :=
  cbv [try_except bind call call_uint lift local ret]; repeat crunch_step.

Section World.

Context {W : Type}.
Variable world : World W.

(** What [_execute_safe_transaction] does outside: wallet steps only, all
    about the payload and the target it was given. *)
Lemma wallet_events (w3 : Web3) (account : Account) (safe : Address)
    (to_address : string) (data : bytes) :
  holds (Forall (fun e => is_wallet_step e /\ carries data e /\
                          targets (address_of to_address) e))
    (_execute_safe_transaction world w3 account safe to_address data).
Proof.
  unfold _execute_safe_transaction. walk; try one_event.
  all: repeat split; cbn; auto; symmetry; apply address_of_ok; assumption.
Qed.

(** The signature given to [execTransaction] is the one assembled from
    the signature object, 65 bytes long. *)
Lemma wallet_signature_length (w3 : Web3) (account : Account)
    (safe : Address) (to_address : string) (data : bytes) :
  holds (Forall signature_65)
    (_execute_safe_transaction world w3 account safe to_address data).
Proof.
  unfold _execute_safe_transaction. walk; try one_event.
  eapply RedeemerBytes.assemble_signature_length. eassumption.
Qed.

Lemma balance_events (w3 : Web3) (safe : Address) (condition_id : string) :
  holds (Forall is_balance_read)
    (_get_position_balances world w3 safe condition_id).
Proof. unfold _get_position_balances. walk; one_event. Qed.

Lemma resolution_events (w3 : Web3) (condition_id : string) :
  holds (Forall is_payout_read)
    (_is_condition_resolved world w3 condition_id).
Proof. unfold _is_condition_resolved. walk; one_event. Qed.

Lemma listing_events (market_slug : option string) :
  holds (Forall is_listing) (get_redeemable_positions world market_slug).
Proof. unfold get_redeemable_positions. walk; one_event. Qed.

(** The value returned is what the last event says. *)
Lemma wallet_result (w3 : Web3) (account : Account) (safe : Address)
    (to_address : string) (data : bytes) (w : W) :
  result_of (_execute_safe_transaction world w3 account safe to_address
               data w)
  = Ok (receipt_status_is_1
          (trace_of (_execute_safe_transaction world w3 account safe
                       to_address data w))).
Proof.
  unfold _execute_safe_transaction. crunch; reflexivity.
Qed.

Lemma wallet_fresh (w3 : Web3) (account : Account) (safe : Address)
    (to_address : string) (data : bytes) :
  holds fresh
    (_execute_safe_transaction world w3 account safe to_address data).
Proof.
  intros w prev. unfold _execute_safe_transaction. crunch.
  all: cbn; rewrite ?Z.eqb_refl, ?bytes_eqb_refl; reflexivity.
Qed.



End World.

End WalletFacts.

Module SettlementTraces.
Import Py Redeemer Spec TraceFacts WalletFacts.

Section World.

Context {W : Type}.
Variable world : World W.

Lemma balance_fresh (w3 : Web3) (safe : Address) (condition_id : string) :
  holds fresh (_get_position_balances world w3 safe condition_id).
Proof.
  apply (holds_fresh is_balance_read); [|apply balance_events].
  intros []; cbn; tauto.
Qed.

Lemma resolution_fresh (w3 : Web3) (condition_id : string) :
  holds fresh (_is_condition_resolved world w3 condition_id).
Proof.
  apply (holds_fresh is_payout_read); [|apply resolution_events].
  intros []; cbn; tauto.
Qed.

Lemma listing_fresh (market_slug : option string) :
  holds fresh (get_redeemable_positions world market_slug).
Proof.
  apply (holds_fresh is_listing); [|apply listing_events].
  intros []; cbn; tauto.
Qed.

Ltac walk_fresh :=
  repeat first
    [ walk_step
    | apply balance_fresh | apply resolution_fresh | apply listing_fresh
    | apply wallet_fresh ].

Lemma merge_fresh (condition_id : string) (neg_risk : bool) :
  holds fresh (merge_condition world condition_id neg_risk).
Proof.
  unfold merge_condition. walk_fresh. intros prev. reflexivity.
Qed.

Lemma redeem_fresh (condition_id : string) (neg_risk : bool) :
  holds fresh (redeem_condition world condition_id neg_risk).
Proof.
  unfold redeem_condition. walk_fresh; try apply merge_fresh.
  all: try (intros prev; reflexivity).
  all: walk_fresh.
Qed.

Lemma redeem_each_fresh (condition_ids : list string) :
  forall successful, holds fresh (redeem_each world condition_ids successful).
Proof.
  induction condition_ids as [|c rest IH]; intros successful;
    cbn [redeem_each]; walk_fresh.
  - apply redeem_fresh.
  - apply IH.
Qed.

Lemma batch_fresh (positions : list Position) :
  holds fresh (redeem_positions_of world positions).
Proof.
  unfold redeem_positions_of. walk_fresh. apply redeem_each_fresh.
Qed.

(** C3.  In every run of the transaction executor, of a merge, of the
    per-condition step and of either batch driver, each wallet hash is
    asked for right after the wallet's nonce was read, with the value
    that read returned, and each digest signed is the hash just
    returned: a nonce is never carried from one invocation to the next. *)
Theorem hash_uses_nonce_just_read (w3 : Web3) (account : Account)
    (safe : Address) (to_address : string) (data : bytes)
    (condition_id : string) (neg_risk : bool) (market_slug : string)
    (w : W) :
  fresh (trace_of (_execute_safe_transaction world w3 account safe
                     to_address data w)) /\
  fresh (trace_of (merge_condition world condition_id neg_risk w)) /\
  fresh (trace_of (redeem_condition world condition_id neg_risk w)) /\
  fresh (trace_of (redeem_market_positions world market_slug w)) /\
  fresh (trace_of (redeem_all_positions world w)).
Proof.
  split; [apply wallet_fresh|]. split; [apply merge_fresh|].
  split; [apply redeem_fresh|].
  split; [unfold redeem_market_positions | unfold redeem_all_positions].
  - revert w.
    change (holds fresh
              (bind (get_redeemable_positions world (Some market_slug))
                 (redeem_positions_of world))).
    walk_fresh. apply batch_fresh.
  - revert w.
    change (holds fresh
              (bind (get_redeemable_positions world None)
                 (redeem_positions_of world))).
    walk_fresh. apply batch_fresh.
Qed.

End World.

End SettlementTraces.

Module SettlementFacts.
Import Py Redeemer Spec TraceFacts WalletFacts SettlementTraces.

Lemma usdc_ok : to_checksum_address (Some USDC_ADDRESS) = Ok usdc_address.
Proof. vm_compute. reflexivity. Qed.

Lemma ctf_ok :
  to_checksum_address (Some CONDITIONAL_TOKENS_FRAMEWORK_ADDRESS)
  = Ok ctf_address.
Proof. vm_compute. reflexivity. Qed.

Lemma zero_collection_ok :
  bytes_fromhex (str_drop 2 ZERO_COLLECTION) = Ok (zero_bytes 32).
Proof. vm_compute. reflexivity. Qed.

Lemma framework_is_not_adapter : ctf_address <> adapter_address.
Proof. vm_compute. discriminate. Qed.

Lemma bind_run {W A B} (m : M W A) (f : A -> M W B) (w : W) :
  bind m f w
  = match m w with
    | (Ok a, w1, t1) => let '(r, w2, t2) := f a w1 in (r, w2, t1 ++ t2)
    | (Raise e, w1, t1) => (Raise e, w1, t1)
    end.
Proof. reflexivity. Qed.

Lemma try_run {W A} (m : M W A) (h : Exc -> M W A) (w : W) :
  try_except m h w
  = match m w with
    | (Ok a, w1, t1) => (Ok a, w1, t1)
    | (Raise e, w1, t1) => let '(r, w2, t2) := h e w1 in (r, w2, t1 ++ t2)
    end.
Proof. reflexivity. Qed.

Section World.

Context {W : Type}.
Variable world : World W.

(** Balances can only be read for a condition id that decodes. *)
Lemma balances_decode (w3 : Web3) (safe : Address) (condition_id : string)
    (w w1 : W) (t1 : Trace) (balances : Z * Z) :
  _get_position_balances world w3 safe condition_id w
  = (Ok balances, w1, t1) ->
  exists cond, bytes_fromhex (str_drop 2 condition_id) = Ok cond.
Proof.
  unfold _get_position_balances.
  destruct (bytes_fromhex (str_drop 2 condition_id)) as [cond|e];
    [eauto|].
  rewrite ctf_ok. cbv [bind lift]. discriminate.
Qed.

(** Balances are 256-bit numbers. *)
Lemma balances_range (w3 : Web3) (safe : Address) (condition_id : string)
    (w w1 : W) (t1 : Trace) (balance_yes balance_no : Z) :
  _get_position_balances world w3 safe condition_id w
  = (Ok (balance_yes, balance_no), w1, t1) ->
  0 <= balance_yes < 2 ^ 256 /\ 0 <= balance_no < 2 ^ 256.
Proof.
  unfold _get_position_balances. crunch; try discriminate.
  intros H. inversion H. unfold uint256.
  split; apply Z.mod_pos_bound; lia.
Qed.

Lemma balance_reads_only (w3 : Web3) (safe : Address)
    (condition_id : string) (w w1 : W) (t1 : Trace) (r : Result (Z * Z)) :
  _get_position_balances world w3 safe condition_id w = (r, w1, t1) ->
  Forall is_balance_read t1.
Proof.
  intros Hbal.
  pose proof (balance_events world w3 safe condition_id w) as H.
  rewrite Hbal in H. exact H.
Qed.

Lemma merge_zero_minimum (w3 : Web3) (account : Account) (safe : Address)
    (condition_id : string) (neg_risk : bool)
    (balance_yes balance_no : Z) (w w1 : W) (t1 : Trace) :
  _get_web3_and_account world = Ok (w3, account, safe) ->
  _get_position_balances world w3 safe condition_id w
  = (Ok (balance_yes, balance_no), w1, t1) ->
  Z.min balance_yes balance_no = 0 ->
  merge_condition world condition_id neg_risk w = (Ok true, w1, t1).
Proof.
  intros Hcfg Hbal Hmin. unfold merge_condition.
  rewrite try_run, bind_run. unfold lift at 1. rewrite Hcfg.
  cbv beta iota zeta. rewrite bind_run, Hbal. cbv beta iota zeta.
  rewrite Hmin. cbn [Z.eqb]. unfold ret. cbn [app].
  rewrite app_nil_r. reflexivity.
Qed.

(** C6.  When the balances read at entry are both 0, the per-condition
    step returns [True] after those reads and nothing else: no merge, no
    redeem, no transaction.  When the smaller balance is 0,
    [merge_condition] does the same. *)
Theorem zero_balances_write_nothing (w3 : Web3) (account : Account)
    (safe : Address) (condition_id : string) (neg_risk : bool)
    (balance_yes balance_no : Z) (w w1 : W) (t1 : Trace) :
  _get_web3_and_account world = Ok (w3, account, safe) ->
  _get_position_balances world w3 safe condition_id w
  = (Ok (balance_yes, balance_no), w1, t1) ->
  Forall is_balance_read t1 /\
  Forall (fun e => ~ is_write e) t1 /\
  (balance_yes = 0 /\ balance_no = 0 ->
   redeem_condition world condition_id neg_risk w = (Ok true, w1, t1)) /\
  (Z.min balance_yes balance_no = 0 ->
   merge_condition world condition_id neg_risk w = (Ok true, w1, t1)).
Proof.
  intros Hcfg Hbal.
  pose proof (balance_reads_only w3 safe condition_id w w1 t1 _ Hbal)
    as Hreads.
  split; [exact Hreads|]. split.
  { eapply Forall_impl; [|exact Hreads]. intros []; cbn; tauto. }
  split.
  - intros [-> ->]. unfold redeem_condition.
    rewrite try_run, bind_run. unfold lift at 1. rewrite Hcfg.
    cbv beta iota zeta. rewrite bind_run, Hbal. cbv beta iota zeta.
    cbn [both_zero Z.eqb andb]. unfold ret. cbn [app].
    rewrite app_nil_r. reflexivity.
  - intros Hmin.
    exact (merge_zero_minimum w3 account safe condition_id neg_risk _ _
             w w1 t1 Hcfg Hbal Hmin).
Qed.


(** C1.  With the balances read for the condition, [merge_condition]
    takes their minimum as the amount.  When it is 0 the function
    returns [True] after the reads alone.  Otherwise it encodes
    [mergePositions] with the collateral token, the zero parent
    collection, the condition id, the partition [[1; 2]] and that
    amount, and whatever it then asks of the wallet carries the bytes of
    that encoding and goes to the address chosen by [neg_risk]. *)
Theorem merge_encodes_minimum (w3 : Web3) (account : Account)
    (safe : Address) (condition_id : string) (neg_risk : bool)
    (balance_yes balance_no : Z) (w w1 : W) (t1 : Trace) :
  _get_web3_and_account world = Ok (w3, account, safe) ->
  _get_position_balances world w3 safe condition_id w
  = (Ok (balance_yes, balance_no), w1, t1) ->
  let amount := Z.min balance_yes balance_no in
  let run := merge_condition world condition_id neg_risk w in
  let target := if neg_risk then adapter_address else ctf_address in
  0 <= balance_yes /\ 0 <= balance_no /\
  Forall is_balance_read t1 /\
  (amount = 0 -> run = (Ok true, w1, t1)) /\
  (amount <> 0 ->
   exists cond t2,
     bytes_fromhex (str_drop 2 condition_id) = Ok cond /\
     let c := mergePositions usdc_address (zero_bytes 32) cond [1; 2]
                amount in
     trace_of run = t1 ++ EvEncode c (encode_transaction_data world c) :: t2 /\
     result_of run = Ok (receipt_status_is_1 t2) /\
     Forall is_wallet_step t2 /\
     Forall (targets target) t2 /\
     match encode_transaction_data world c with
     | Ok hex =>
         match bytes_fromhex (str_drop 2 hex) with
         | Ok payload => Forall (carries payload) t2
         | Raise _ => t2 = []
         end
     | Raise _ => t2 = []
     end).
Proof.
  intros Hcfg Hbal amount run target.
  destruct (balances_range w3 safe condition_id w w1 t1 _ _ Hbal)
    as [Hy Hn].
  pose proof (balance_reads_only w3 safe condition_id w w1 t1 _ Hbal)
    as Hreads.
  split; [lia|]. split; [lia|]. split; [exact Hreads|].
  split;
    [exact (merge_zero_minimum w3 account safe condition_id neg_risk _ _
              w w1 t1 Hcfg Hbal)|].
  intros Hpos.
  destruct (balances_decode w3 safe condition_id w w1 t1 _ Hbal)
    as [cond Hcond].
  set (c := mergePositions usdc_address (zero_bytes 32) cond [1; 2] amount).
  exists cond. cbv zeta. fold c.
  subst run. remember (merge_condition world condition_id neg_risk w)
    as run eqn:Hrun.
  unfold merge_condition in Hrun.
  rewrite try_run, bind_run in Hrun. unfold lift at 1 in Hrun.
  rewrite Hcfg in Hrun. cbv beta iota zeta in Hrun.
  rewrite bind_run, Hbal in Hrun. cbv beta iota zeta in Hrun.
  fold amount in Hrun.
  destruct (Z.eqb_spec amount 0) as [E|_]; [contradiction|].
  cbv [bind lift local ret] in Hrun.
  rewrite usdc_ok, zero_collection_ok, Hcond in Hrun.
  cbv beta iota zeta in Hrun. fold c in Hrun.
  destruct (encode_transaction_data world c) as [hex|e].
  { destruct (bytes_fromhex (str_drop 2 hex)) as [payload|e].
    - set (to_address := if neg_risk then NEG_RISK_ADAPTER_ADDRESS
                         else CONDITIONAL_TOKENS_FRAMEWORK_ADDRESS) in Hrun.
      pose proof (wallet_events world w3 account safe to_address payload w1)
        as Hev.
      pose proof (wallet_result world w3 account safe to_address payload w1)
        as Hres.
      destruct (_execute_safe_transaction world w3 account safe to_address
                  payload w1) as [[r w2] t2].
      unfold result_of, trace_of in Hev, Hres. cbn [fst snd] in Hev, Hres.
      subst r.
      assert (Htarget : address_of to_address = target)
        by (subst to_address target; destruct neg_risk; reflexivity).
      rewrite Htarget in Hev.
      exists t2.
      destruct (receipt_status_is_1 t2); subst run;
        unfold trace_of, result_of; cbn [fst snd app]; rewrite ?app_nil_r.
      all: repeat split; try reflexivity; try exact Hcond.
      all: eapply Forall_impl; [|exact Hev]; cbn; tauto.
    - exists []. subst run. unfold trace_of, result_of. cbn [fst snd app].
      rewrite ?app_nil_r.
      repeat split; try reflexivity; try exact Hcond; constructor. }
  exists []. subst run. unfold trace_of, result_of. cbn [fst snd app].
  rewrite ?app_nil_r.
  repeat split; try reflexivity; try exact Hcond; constructor.
Qed.

End World.

End SettlementFacts.

Module ResolutionFacts.
Import Py Redeemer Spec TraceFacts WalletFacts SettlementTraces SettlementFacts.

Section World.

Context {W : Type}.
Variable world : World W.

(** The resolution check returns a value in every case: [False] without
    a call when the condition id does not decode, and otherwise what the
    one read of the payout denominator says. *)
Lemma resolution_cases (w3 : Web3) (condition_id : string) (w : W) :
  exists b w' t,
    _is_condition_resolved world w3 condition_id w = (Ok b, w', t) /\
    ((t = [] /\ b = false) \/
     (exists cond answer,
         bytes_fromhex (str_drop 2 condition_id) = Ok cond /\
         t = [EvPayoutDenominator ctf_address cond answer] /\
         b = negb (unresolved answer))).
Proof.
  unfold _is_condition_resolved. rewrite try_run, bind_run.
  unfold lift at 1. rewrite ctf_ok. cbv beta iota zeta.
  rewrite bind_run. unfold lift at 1.
  destruct (bytes_fromhex (str_drop 2 condition_id)) as [cond|e].
  - cbv beta iota zeta. cbv [bind call_uint ret].
    destruct (payoutDenominator world ctf_address cond w) as [[d|e] w'].
    + do 3 eexists. split; [reflexivity|]. right. exists cond, (Ok (uint256 d)).
      repeat split. cbn [unresolved]. symmetry. apply negb_involutive.
    + do 3 eexists. split; [reflexivity|]. right. exists cond, (Raise e).
      repeat split.
  - do 3 eexists. split; [reflexivity|]. left. split; reflexivity.
Qed.


Lemma balance_before_resolution (w3 : Web3) (safe : Address)
    (condition_id : string) :
  holds (Forall before_resolution)
    (_get_position_balances world w3 safe condition_id).
Proof.
  apply (holds_forall_impl is_balance_read); [|apply balance_events].
  intros e He. unfold before_resolution. destruct e; cbn in *; tauto.
Qed.

Lemma wallet_no_payout (w3 : Web3) (account : Account) (safe : Address)
    (to_address : string) (data : bytes) :
  holds (Forall before_resolution)
    (_execute_safe_transaction world w3 account safe to_address data).
Proof.
  eapply holds_forall_impl; [|apply wallet_events].
  intros e He. unfold before_resolution. destruct e; cbn in *; tauto.
Qed.

Lemma merge_before_resolution (condition_id : string) (neg_risk : bool) :
  holds (Forall before_resolution)
    (merge_condition world condition_id neg_risk).
Proof.
  unfold merge_condition.
  repeat first [ walk_step | apply balance_before_resolution
               | apply wallet_no_payout ].
  constructor; [|constructor]. unfold before_resolution. cbn. tauto.
Qed.

End World.

End ResolutionFacts.

Module UnresolvedFacts.
Import Py Redeemer Spec TraceFacts WalletFacts SettlementTraces SettlementFacts
  ResolutionFacts.

Section World.

Context {W : Type}.
Variable world : World W.

Lemma payout_in_quiet (t : Trace) (ctf : Address) (cond : bytes)
    (answer : Result Z) :
  Forall before_resolution t ->
  ~ In (EvPayoutDenominator ctf cond answer) t.
Proof.
  intros H Hin. rewrite Forall_forall in H. destruct (H _ Hin) as [Hp _].
  apply Hp. exact I.
Qed.

Lemma quiet_no_redeem (t : Trace) :
  Forall before_resolution t -> Forall (fun e => ~ is_redeem_encode e) t.
Proof.
  intros H. eapply Forall_impl; [|exact H]. intros e [_ He]. exact He.
Qed.

(** The per-condition step, cut at the resolution check: either the
    check is not reached and nothing that belongs after it happens, or
    the run is a quiet prefix, the one read of the payout denominator,
    and, only when that read said resolved, the redeem. *)
Lemma redeem_condition_cut (condition_id : string) (neg_risk : bool)
    (w : W) :
  let run := redeem_condition world condition_id neg_risk w in
  Forall before_resolution (trace_of run) \/
  exists before cond answer rest,
    trace_of run
    = before ++ EvPayoutDenominator ctf_address cond answer :: rest /\
    Forall before_resolution before /\
    Forall (fun e => ~ is_payout_read e) rest /\
    (unresolved answer = true -> rest = [] /\ result_of run = Ok true).
Proof.
  intros run. subst run.
  remember (redeem_condition world condition_id neg_risk w) as run eqn:Hrun.
  unfold redeem_condition in Hrun.
  rewrite try_run, bind_run in Hrun. unfold lift at 1 in Hrun.
  destruct (_get_web3_and_account world) as [[[w3 account] safe]|e].
  2: { left. subst run. cbn. constructor. }
  cbv beta iota zeta in Hrun. rewrite bind_run in Hrun.
  pose proof (balance_before_resolution world w3 safe condition_id w) as Hb.
  destruct (_get_position_balances world w3 safe condition_id w)
    as [[[[balance_yes balance_no]|e] w1] t1].
  2: { left. subst run. cbn. unfold trace_of in Hb. cbn in Hb.
       rewrite app_nil_r. exact Hb. }
  unfold trace_of in Hb. cbn [snd] in Hb.
  cbv beta iota zeta in Hrun.
  destruct (both_zero balance_yes balance_no).
  { left. subst run. cbn. rewrite app_nil_r. exact Hb. }
  rewrite bind_run in Hrun.
  match type of Hrun with
  | context [match ?m w1 with _ => _ end] =>
      assert (Hmid : holds (Forall before_resolution) m)
  end.
  { repeat first [ walk_step | apply balance_before_resolution
                 | apply merge_before_resolution ]. }
  specialize (Hmid w1).
  match type of Hrun with
  | context [match ?m w1 with _ => _ end] =>
      destruct (m w1) as [[[[yes' no']|e] w2] t2]
  end.
  2: { left. subst run. cbn. unfold trace_of in Hmid. cbn in Hmid.
       rewrite app_nil_r. apply Forall_closed_app; assumption. }
  unfold trace_of in Hmid. cbn [snd] in Hmid.
  cbv beta iota zeta in Hrun.
  destruct (both_zero yes' no').
  { left. subst run. cbn. rewrite app_nil_r.
    apply Forall_closed_app; assumption. }
  rewrite bind_run in Hrun.
  destruct (resolution_cases world w3 condition_id w2)
    as (b & w3' & t3 & Hres & Hcases).
  rewrite Hres in Hrun. cbv beta iota zeta in Hrun.
  destruct Hcases as [[-> ->]|(cond & answer & Hcond & -> & ->)].
  { left. subst run. cbn. rewrite !app_nil_r.
    apply Forall_closed_app; assumption. }
  right. exists (t1 ++ t2), cond, answer.
  destruct (unresolved answer) eqn:Hun.
  - exists []. subst run. cbn. rewrite <- app_assoc.
    repeat split; auto using Forall_closed_app.
  - cbn [negb] in Hrun.
    match type of Hrun with
    | context [match ?m w3' with _ => _ end] =>
        assert (Hend : holds (Forall (fun e => ~ is_payout_read e)) m)
    end.
    { repeat first
        [ walk_step
        | apply (holds_forall_impl before_resolution);
          [intros ? [? _]; assumption | apply wallet_no_payout] ].
      constructor; [|constructor]. cbn. tauto. }
    specialize (Hend w3').
    match type of Hrun with
    | context [match ?m w3' with _ => _ end] =>
        destruct (m w3') as [[r4 w4] t4]
    end.
    unfold trace_of in Hend. cbn [snd] in Hend.
    exists t4. destruct r4 as [r4|e]; subst run; cbn;
      rewrite ?app_nil_r, <- ?app_assoc.
    all: repeat split; auto using Forall_closed_app; discriminate.
Qed.


(** C2.  Once the read of the payout denominator has said unresolved (a
    denominator that is not positive, or an exception), the
    per-condition step stops there and returns [True]: the read is the
    last event of the run and no redeem is encoded anywhere in it.  The
    check itself returns [True] only on a positive denominator, and
    [False] when the read raises. *)
Theorem unresolved_never_redeems (w3 : Web3) (condition_id : string)
    (neg_risk : bool) (w : W) :
  (forall ctf cond answer,
      In (EvPayoutDenominator ctf cond answer)
        (trace_of (redeem_condition world condition_id neg_risk w)) ->
      unresolved answer = true ->
      result_of (redeem_condition world condition_id neg_risk w) = Ok true /\
      Forall (fun e => ~ is_redeem_encode e)
        (trace_of (redeem_condition world condition_id neg_risk w)) /\
      exists before,
        trace_of (redeem_condition world condition_id neg_risk w)
        = before ++ [EvPayoutDenominator ctf cond answer] /\
        Forall before_resolution before) /\
  result_of (_is_condition_resolved world w3 condition_id w)
  = Ok (resolved_in
          (trace_of (_is_condition_resolved world w3 condition_id w))) /\
  (forall cond e w',
      bytes_fromhex (str_drop 2 condition_id) = Ok cond ->
      payoutDenominator world ctf_address cond w = (Raise e, w') ->
      _is_condition_resolved world w3 condition_id w
      = (Ok false, w',
         [EvPayoutDenominator ctf_address cond (Raise e)])).
Proof.
  split; [|split].
  - intros ctf cond answer Hin Hun.
    destruct (redeem_condition_cut condition_id neg_risk w)
      as [Hquiet|(before & cond' & answer' & rest & Htrace & Hb & Hrest & Hstop)].
    + exfalso. exact (payout_in_quiet _ _ _ _ Hquiet Hin).
    + rewrite Htrace in Hin. apply in_app_or in Hin.
      destruct Hin as [Hin|[Heq|Hin]].
      * exfalso. exact (payout_in_quiet _ _ _ _ Hb Hin).
      * inversion Heq. subst ctf cond' answer'.
        destruct (Hstop Hun) as [-> Hres].
        split; [exact Hres|]. rewrite Htrace. split.
        -- apply Forall_closed_app; [apply quiet_no_redeem, Hb|].
           constructor; [|constructor]. cbn. tauto.
        -- exists before. split; [reflexivity | exact Hb].
      * exfalso. rewrite Forall_forall in Hrest.
        exact (Hrest _ Hin I).
  - destruct (resolution_cases world w3 condition_id w)
      as (b & w' & t & Hres & [[-> ->]|(cond & answer & _ & -> & ->)]);
      rewrite Hres; unfold result_of, trace_of; cbn.
    + reflexivity.
    + rewrite orb_false_r. reflexivity.
  - intros cond e w' Hcond Hraise. unfold _is_condition_resolved.
    rewrite try_run, bind_run. unfold lift at 1. rewrite ctf_ok.
    cbv beta iota zeta. rewrite bind_run. unfold lift at 1. rewrite Hcond.
    cbv beta iota zeta. cbv [bind call_uint ret]. rewrite Hraise.
    reflexivity.
Qed.

End World.

End UnresolvedFacts.

Module BatchFacts.
Import Py Redeemer Spec TraceFacts WalletFacts SettlementTraces SettlementFacts.

Section World.

Context {W : Type}.
Variable world : World W.

Lemma balance_targets (a : Address) (w3 : Web3) (safe : Address)
    (condition_id : string) :
  holds (Forall (targets a))
    (_get_position_balances world w3 safe condition_id).
Proof.
  apply (holds_forall_impl is_balance_read); [|apply balance_events].
  intros []; cbn; tauto.
Qed.

Lemma resolution_targets (a : Address) (w3 : Web3) (condition_id : string) :
  holds (Forall (targets a)) (_is_condition_resolved world w3 condition_id).
Proof.
  apply (holds_forall_impl is_payout_read); [|apply resolution_events].
  intros []; cbn; tauto.
Qed.

Lemma listing_targets (a : Address) (market_slug : option string) :
  holds (Forall (targets a)) (get_redeemable_positions world market_slug).
Proof.
  apply (holds_forall_impl is_listing); [|apply listing_events].
  intros []; cbn; tauto.
Qed.

Lemma wallet_targets (w3 : Web3) (account : Account) (safe : Address)
    (neg_risk : bool) (data : bytes) :
  holds (Forall (targets (if neg_risk then adapter_address else ctf_address)))
    (_execute_safe_transaction world w3 account safe
       (if neg_risk then NEG_RISK_ADAPTER_ADDRESS
        else CONDITIONAL_TOKENS_FRAMEWORK_ADDRESS) data).
Proof.
  eapply holds_forall_impl; [|apply wallet_events].
  intros e (_ & _ & H). destruct neg_risk; exact H.
Qed.

Ltac walk_targets :=
  repeat first
    [ walk_step
    | apply balance_targets | apply resolution_targets | apply listing_targets
    | apply wallet_targets ].

(** The flag decides where a merge goes. *)
Lemma merge_targets (condition_id : string) (neg_risk : bool) :
  holds (Forall (targets (if neg_risk then adapter_address else ctf_address)))
    (merge_condition world condition_id neg_risk).
Proof.
  unfold merge_condition. walk_targets. one_event.
Qed.

(** The flag decides where the per-condition step sends its merge and
    its redeem. *)
Lemma redeem_targets (condition_id : string) (neg_risk : bool) :
  holds (Forall (targets (if neg_risk then adapter_address else ctf_address)))
    (redeem_condition world condition_id neg_risk).
Proof.
  unfold redeem_condition. walk_targets; try apply merge_targets.
  all: try one_event.
  all: walk_targets.
Qed.

Lemma redeem_each_targets (condition_ids : list string) :
  forall successful,
    holds (Forall (targets ctf_address))
      (redeem_each world condition_ids successful).
Proof.
  induction condition_ids as [|c rest IH]; intros successful;
    cbn [redeem_each]; walk_targets.
  - apply (redeem_targets c false).
  - apply IH.
Qed.

Lemma batch_targets (positions : list Position) :
  holds (Forall (targets ctf_address)) (redeem_positions_of world positions).
Proof.
  unfold redeem_positions_of. walk_targets. apply redeem_each_targets.
Qed.

(** The listing never raises. *)
Lemma listing_returns (market_slug : option string) (w : W) :
  exists positions,
    result_of (get_redeemable_positions world market_slug w) = Ok positions.
Proof.
  unfold get_redeemable_positions. unfold try_except at 1.
  match goal with
  | |- context [match ?m w with _ => _ end] =>
      destruct (m w) as [[[positions|e] w1] t1]
  end; eexists; reflexivity.
Qed.

Section MissingConfiguration.

Hypothesis missing :
  getenv world "PRIVATE_KEY" = None \/
  getenv world "POLYMARKET_PROXY_ADDRESS" = None.

Lemma configuration_raises :
  exists e, _get_web3_and_account world = Raise e.
Proof.
  unfold _get_web3_and_account.
  destruct missing as [-> | ->].
  - eexists. reflexivity.
  - destruct (getenv world "PRIVATE_KEY") as [k|];
      [|eexists; reflexivity].
    destruct (from_key world k); eexists; reflexivity.
Qed.

Lemma redeem_without_configuration (condition_id : string)
    (neg_risk : bool) (w : W) :
  redeem_condition world condition_id neg_risk w = (Ok false, w, []).
Proof.
  destruct configuration_raises as [e He].
  unfold redeem_condition. rewrite try_run, bind_run. unfold lift at 1.
  rewrite He. reflexivity.
Qed.

Lemma merge_without_configuration (condition_id : string)
    (neg_risk : bool) (w : W) :
  merge_condition world condition_id neg_risk w = (Ok false, w, []).
Proof.
  destruct configuration_raises as [e He].
  unfold merge_condition. rewrite try_run, bind_run. unfold lift at 1.
  rewrite He. reflexivity.
Qed.

Lemma redeem_each_without_configuration (condition_ids : list string) :
  forall successful w,
    redeem_each world condition_ids successful w = (Ok successful, w, []).
Proof.
  induction condition_ids as [|c rest IH]; intros successful w.
  - reflexivity.
  - cbn [redeem_each]. rewrite bind_run, redeem_without_configuration.
    cbv beta iota zeta. rewrite IH. reflexivity.
Qed.

Lemma batch_without_configuration (positions : list Position) (w : W) :
  redeem_positions_of world positions w
  = (Ok (0, Z.of_nat (List.length (condition_id_set world positions))),
     w, []).
Proof.
  unfold redeem_positions_of. destruct positions as [|p positions].
  - unfold condition_id_set. cbn [flat_map nodup].
    pose proof (set_iteration_perm world []) as Hperm.
    apply Permutation_nil in Hperm. rewrite Hperm. reflexivity.
  - destruct (condition_id_set world (p :: positions)) as [|c ids] eqn:E.
    + reflexivity.
    + rewrite bind_run, redeem_each_without_configuration. reflexivity.
Qed.

End MissingConfiguration.

End World.

End BatchFacts.

(* ================================================================== *)
(** ** Runs on the simulated chain *)
(* ================================================================== *)

Module Scenarios.
Import Py Redeemer Spec.

(** Scenario A: 100,000,000 against 40,000,000, unresolved.  One merge
    of 40,000,000 is sent; the balances become (60,000,000, 0). *)
Example scenario_a :
  let run := redeem_condition (Sim.world Sim.env_ok Sim.listing_ok)
               Sim.cid_a false (Sim.state 100000000 40000000 0) in
  result_of run = Ok true /\
  Sim.yes (world_of run) = 60000000 /\ Sim.no (world_of run) = 0 /\
  Sim.payloads_sent (trace_of run) = [x01 :: be_digits 32 40000000 []].
Proof. vm_compute. repeat split. Qed.

(** Scenario B: (60,000,000, 0), resolved.  One redeem is sent and the
    balances become (0, 0). *)
Example scenario_b :
  let run := redeem_condition (Sim.world Sim.env_ok Sim.listing_ok)
               Sim.cid_a false (Sim.state 60000000 0 1) in
  result_of run = Ok true /\
  Sim.yes (world_of run) = 0 /\ Sim.no (world_of run) = 0 /\
  List.length (Sim.payloads_sent (trace_of run)) = 1%nat.
Proof. vm_compute. repeat split. Qed.

(** Scenario C: (60,000,000, 0), unresolved.  Nothing is sent and the
    step reports success. *)
Example scenario_c :
  let run := redeem_condition (Sim.world Sim.env_ok Sim.listing_ok)
               Sim.cid_a false (Sim.state 60000000 0 0) in
  result_of run = Ok true /\
  Sim.yes (world_of run) = 60000000 /\ Sim.no (world_of run) = 0 /\
  Sim.payloads_sent (trace_of run) = [].
Proof. vm_compute. repeat split. Qed.

(** Scenario D: a merge then a redeem on one wallet.  The first action
    reads nonce 5, the second reads 6. *)
Example scenario_d :
  let run := redeem_condition (Sim.world Sim.env_ok Sim.listing_ok)
               Sim.cid_a false (Sim.state 100 40 1) in
  result_of run = Ok true /\
  Sim.nonces_read (trace_of run) = [Ok 5; Ok 6] /\
  Sim.wallet_nonce (world_of run) = 7.
Proof. vm_compute. repeat split. Qed.

(** The batch over the two listed conditions. *)
Example scenario_batch :
  let run := redeem_market_positions (Sim.world Sim.env_ok Sim.listing_ok)
               "btc-updown-15m-1700000000" (Sim.state 100 40 1) in
  result_of run = Ok (2, 2) /\
  List.length (Sim.payloads_sent (trace_of run)) = 2%nat.
Proof. vm_compute. repeat split. Qed.

End Scenarios.

Module Witnesses.
Import Py Redeemer Spec SettlementFacts UnresolvedFacts BatchFacts.

Lemma merge_encodes_minimum_witness :
  let world := Sim.world Sim.env_ok Sim.listing_ok in
  let st := Sim.state 100 40 0 in
  _get_web3_and_account world = Ok (Sim.w3, Sim.account, Sim.safe) /\
  exists cond t1 t2,
    _get_position_balances world Sim.w3 Sim.safe Sim.cid_a st
    = (Ok (100, 40), st, t1) /\
    bytes_fromhex (str_drop 2 Sim.cid_a) = Ok cond /\
    trace_of (merge_condition world Sim.cid_a false st)
    = t1 ++ EvEncode
              (mergePositions usdc_address (zero_bytes 32) cond [1; 2] 40)
              (encode_transaction_data world
                 (mergePositions usdc_address (zero_bytes 32) cond [1; 2] 40))
            :: t2 /\
    result_of (merge_condition world Sim.cid_a false st)
    = Ok (receipt_status_is_1 t2).
Proof.
  intros world st.
  assert (Hcfg : _get_web3_and_account world
                 = Ok (Sim.w3, Sim.account, Sim.safe))
    by (vm_compute; reflexivity).
  assert (Hbal : _get_position_balances world Sim.w3 Sim.safe Sim.cid_a st
                 = (Ok (100, 40), st,
                    trace_of (_get_position_balances world Sim.w3 Sim.safe
                                Sim.cid_a st)))
    by (vm_compute; reflexivity).
  split; [exact Hcfg|].
  destruct (merge_encodes_minimum world Sim.w3 Sim.account Sim.safe
              Sim.cid_a false 100 40 st st _ Hcfg Hbal)
    as (_ & _ & _ & _ & Hpos).
  destruct Hpos as (cond & t2 & Hcond & Htrace & Hres & _);
    [vm_compute; discriminate|].
  exists cond. eexists. exists t2.
  split; [exact Hbal|]. split; [exact Hcond|].
  split; [exact Htrace | exact Hres].
Defined.

Lemma unresolved_never_redeems_witness :
  let world := Sim.world Sim.env_ok Sim.listing_ok in
  let run := redeem_condition world Sim.cid_a false (Sim.state 60000000 0 0) in
  exists cond,
    In (EvPayoutDenominator ctf_address cond (Ok 0)) (trace_of run) /\
    unresolved (Ok 0) = true /\
    result_of run = Ok true /\
    Forall (fun e => ~ is_redeem_encode e) (trace_of run).
Proof.
  intros world run.
  assert (Hin : exists cond,
             bytes_fromhex (str_drop 2 Sim.cid_a) = Ok cond /\
             In (EvPayoutDenominator ctf_address cond (Ok 0)) (trace_of run)).
  { exists (repeat xaa 32). split; [vm_compute; reflexivity|].
    subst run world. vm_compute.
    repeat (first [left; reflexivity | right]). }
  destruct Hin as (cond & _ & Hin). exists cond.
  destruct (unresolved_never_redeems world Sim.w3 Sim.cid_a false
              (Sim.state 60000000 0 0)) as (Hstep & _).
  destruct (Hstep ctf_address cond (Ok 0) Hin eq_refl) as (Hres & Hno & _).
  repeat split; assumption.
Defined.

Lemma zero_balances_write_nothing_witness :
  let world := Sim.world Sim.env_ok Sim.listing_ok in
  let st := Sim.state 0 0 1 in
  _get_web3_and_account world = Ok (Sim.w3, Sim.account, Sim.safe) /\
  exists t1,
    _get_position_balances world Sim.w3 Sim.safe Sim.cid_a st
    = (Ok (0, 0), st, t1) /\
    Forall (fun e => ~ is_write e) t1 /\
    redeem_condition world Sim.cid_a false st = (Ok true, st, t1) /\
    merge_condition world Sim.cid_a false st = (Ok true, st, t1).
Proof.
  intros world st.
  assert (Hcfg : _get_web3_and_account world
                 = Ok (Sim.w3, Sim.account, Sim.safe))
    by (vm_compute; reflexivity).
  assert (Hbal : _get_position_balances world Sim.w3 Sim.safe Sim.cid_a st
                 = (Ok (0, 0), st,
                    trace_of (_get_position_balances world Sim.w3 Sim.safe
                                Sim.cid_a st)))
    by (vm_compute; reflexivity).
  split; [exact Hcfg|].
  destruct (zero_balances_write_nothing world Sim.w3 Sim.account Sim.safe
              Sim.cid_a false 0 0 st st _ Hcfg Hbal)
    as (_ & Hno & Hredeem & Hmerge).
  eexists. split; [exact Hbal|]. split; [exact Hno|].
  split; [apply Hredeem; split; reflexivity | apply Hmerge; reflexivity].
Defined.

(** C7 as stated fails.  With no private key in the environment the
    step for each of the two listed conditions returns the ordinary
    [False], and the batch goes through both and returns (0, 2): the
    error is not raised to the caller and the batch is not stopped. *)
Lemma missing_key_batch_continues :
  let world := Sim.world Sim.env_no_key Sim.listing_ok in
  let st := Sim.state 100 40 1 in
  getenv world "PRIVATE_KEY" = None /\
  _get_web3_and_account world = Raise TypeError /\
  result_of (redeem_condition world Sim.cid_a false st) = Ok false /\
  result_of (redeem_condition world Sim.cid_b false st) = Ok false /\
  result_of (redeem_market_positions world "btc-updown-15m-1700000000" st)
  = Ok (0, 2).
Proof. vm_compute. repeat split. Qed.

End Witnesses.
(* ================================================================== *)
(** ** More about the position listing *)
(* ================================================================== *)

Module ListingMore.
Import Py Redeemer Spec Spec2 ListingFacts SettlementFacts.

Lemma filter_by_market_slug_nil (market_slug : option string) :
  filter_by_market_slug market_slug [] = [].
Proof.
  unfold filter_by_market_slug. destruct (opt_truthy market_slug); reflexivity.
Qed.

(** The second filter is dead: with a non-empty slug the result is the
    filter by base pattern alone. *)
Lemma slug_filter_simplified (market_slug : string)
    (all_positions : list Position) :
  market_slug <> EmptyString ->
  filter_by_market_slug (Some market_slug) all_positions
  = filter (slug_matches (base_pattern_of market_slug)) all_positions.
Proof.
  intros Hne. unfold filter_by_market_slug, opt_truthy, str_truthy.
  destruct market_slug as [|c ms]; [congruence|].
  destruct (filter (slug_matches (base_pattern_of (String c ms)))
              all_positions) as [|p l] eqn:Ef; [|reflexivity].
  apply exact_match_selects_nothing; [exact Hne|].
  apply filter_nil_existsb. exact Ef.
Qed.

Section World.

Context {W : Type}.
Variable world : World W.

(** One run of the listing: the two requests, one after the other
    whatever the first answers, and what is made of the two answers. *)
Lemma listing_run (market_slug : option string) (w : W) :
  let proxy := getenv world "POLYMARKET_PROXY_ADDRESS" in
  let first := requests_get world (positions_url proxy true) 10 w in
  let second :=
    requests_get world (positions_url proxy false) 10 (snd first) in
  let mergeable := body_of (fst first) in
  let others :=
    filter (fun pos =>
              negb (existsb (opt_str_eqb (conditionId pos))
                      (map conditionId mergeable)))
      (body_of (fst second)) in
  get_redeemable_positions world market_slug w
  = (Ok (filter_by_market_slug market_slug (mergeable ++ others)),
     snd second,
     [EvHttpGet (positions_url proxy true) 10 (fst first);
      EvHttpGet (positions_url proxy false) 10 (fst second)]).
Proof.
  intros proxy first second mergeable others.
  subst others mergeable second first.
  unfold get_redeemable_positions. fold proxy.
  cbv [try_except bind call lift ret].
  destruct (requests_get world (positions_url proxy true) 10 w)
    as [[r1|e1] w1]; cbn [fst snd body_of].
  - destruct (status_code r1 =? 200); [destruct (json r1) as [b1|e1]|].
    all: cbn [app].
    all: destruct (requests_get world (positions_url proxy false) 10 w1)
           as [[r2|e2] w2]; cbn [fst snd body_of].
    all: try (destruct (status_code r2 =? 200);
              [destruct (json r2) as [b2|e2]|]).
    all: cbn [app map existsb negb filter]; rewrite ?app_nil_r.
    all: try match goal with
         | |- context [match ?l ++ ?l' with _ => _ end] =>
             destruct (l ++ l') eqn:?
         | |- context [match ?l with [] => _ | _ :: _ => _ end] =>
             destruct l eqn:?
         end.
    all: rewrite ?filter_by_market_slug_nil; reflexivity.
  - destruct (requests_get world (positions_url proxy false) 10 w1)
      as [[r2|e2] w2]; cbn [fst snd body_of app].
    + destruct (status_code r2 =? 200); [destruct (json r2) as [b2|e2]|].
      all: cbn [app map existsb negb filter]; rewrite ?app_nil_r.
      all: try match goal with
           | |- context [match ?l with [] => _ | _ :: _ => _ end] =>
               destruct l eqn:?
           end.
      all: rewrite ?filter_by_market_slug_nil; reflexivity.
    + cbn [filter]. rewrite filter_by_market_slug_nil. reflexivity.
Qed.


(** X1.  The listing never raises and always makes exactly two GET
    requests, each with a timeout of 10 seconds: the mergeable positions
    first, then all positions, even when the first request failed.  When
    neither answer contributes a position the result is the empty list. *)
Theorem listing_asks_twice (market_slug : option string) (w : W) :
  exists first second positions w',
    get_redeemable_positions world market_slug w
    = (Ok positions, w',
       [EvHttpGet
          (positions_url (getenv world "POLYMARKET_PROXY_ADDRESS") true)
          10 first;
        EvHttpGet
          (positions_url (getenv world "POLYMARKET_PROXY_ADDRESS") false)
          10 second]) /\
    (body_of first = [] -> body_of second = [] -> positions = []).
Proof.
  pose proof (listing_run market_slug w) as H. cbv zeta in H.
  do 4 eexists. split; [exact H|].
  intros -> ->. cbn [filter app]. apply filter_by_market_slug_nil.
Qed.

(** X2.  Every position the listing returns was listed by one of the
    two answers, and one taken from the second answer has a condition id
    that no position of the first answer has. *)
Theorem listing_positions_origin (market_slug : option string) (w : W) :
  let proxy := getenv world "POLYMARKET_PROXY_ADDRESS" in
  let first := requests_get world (positions_url proxy true) 10 w in
  let second :=
    requests_get world (positions_url proxy false) 10 (snd first) in
  exists positions,
    result_of (get_redeemable_positions world market_slug w) = Ok positions /\
    Forall (fun p =>
              In p (body_of (fst first)) \/
              (In p (body_of (fst second)) /\
               forall q, In q (body_of (fst first)) ->
                         conditionId q <> conditionId p))
      positions.
Proof.
  intros proxy first second.
  pose proof (listing_run market_slug w) as H. cbv zeta in H.
  fold proxy in H. fold first in H. fold second in H.
  rewrite H. eexists. split; [reflexivity|].
  set (mergeable := body_of (fst first)).
  assert (Hall : Forall (fun p =>
              In p mergeable \/
              (In p (body_of (fst second)) /\
               forall q, In q mergeable -> conditionId q <> conditionId p))
            (mergeable ++
             filter (fun pos =>
                       negb (existsb (opt_str_eqb (conditionId pos))
                               (map conditionId mergeable)))
               (body_of (fst second)))).
  { apply Forall_app. split; apply Forall_forall; intros p Hp.
    - left. exact Hp.
    - right. apply filter_In in Hp. destruct Hp as [Hin Hnew].
      split; [exact Hin|]. intros q Hq Heq.
      apply negb_true_iff in Hnew.
      assert (Hex : existsb (opt_str_eqb (conditionId p))
                      (map conditionId mergeable) = true).
      { apply existsb_exists. exists (conditionId q).
        split; [apply in_map; exact Hq|].
        rewrite Heq. unfold opt_str_eqb.
        destruct (conditionId p); [apply String.eqb_refl | reflexivity]. }
      congruence. }
  rewrite Forall_forall in Hall. apply Forall_forall. intros p Hp.
  apply Hall.
  unfold filter_by_market_slug in Hp.
  destruct (opt_truthy market_slug); [|exact Hp].
  match type of Hp with
  | In _ (match ?l with [] => _ | _ :: _ => _ end) =>
      destruct l eqn:E; [|rewrite <- E in Hp]
  end; apply filter_In in Hp; tauto.
Qed.

End World.

(** X3.  With a non-empty [market_slug] the second, exact-match filter
    never selects anything: the result is always the filter by base
    pattern.  In particular a record whose slug is [market_slug] itself
    is kept. *)
Theorem slug_filter_is_base_pattern_filter (market_slug : string)
    (all_positions : list Position) :
  market_slug <> EmptyString ->
  filter_by_market_slug (Some market_slug) all_positions
  = filter (slug_matches (base_pattern_of market_slug)) all_positions /\
  (forall p, In p all_positions -> slug p = Some market_slug ->
             In p (filter_by_market_slug (Some market_slug) all_positions)).
Proof.
  intros Hne. split; [apply slug_filter_simplified, Hne|].
  intros p Hin Hslug. rewrite slug_filter_simplified by exact Hne.
  apply filter_In. split; [exact Hin|].
  apply slug_matches_spec. exists market_slug.
  repeat split; [exact Hslug | exact Hne | apply base_pattern_prefix].
Qed.

Lemma slug_filter_is_base_pattern_filter_witness :
  let market_slug := "btc-updown-15m-1700000000" in
  market_slug <> EmptyString /\
  filter_by_market_slug (Some market_slug) Sim.two_positions
  = filter (slug_matches (base_pattern_of market_slug)) Sim.two_positions.
Proof.
  intros market_slug.
  assert (Hne : market_slug <> EmptyString) by discriminate.
  split; [exact Hne|].
  exact (proj1 (slug_filter_is_base_pattern_filter market_slug
                  Sim.two_positions Hne)).
Defined.

End ListingMore.

(* ================================================================== *)
(** ** More about the reads *)
(* ================================================================== *)

Module ReaderMore.
Import Py Redeemer Spec Spec2 TraceFacts WalletFacts SettlementFacts.

Section World.

Context {W : Type}.
Variable world : World W.

(** A condition id that is not hexadecimal text stops the balance
    reader before any call. *)
Lemma balances_undecodable (w3 : Web3) (safe : Address)
    (condition_id : string) (e : Exc) (w : W) :
  bytes_fromhex (str_drop 2 condition_id) = Raise e ->
  _get_position_balances world w3 safe condition_id w = (Raise e, w, []).
Proof.
  intros H. unfold _get_position_balances. rewrite ctf_ok, H. reflexivity.
Qed.

(** X4.  A successful balance read is six calls, in this order: the
    collection ids of index sets 1 and 2 under the zero parent
    collection, the position ids of those two collections for the USDC
    collateral, and the wallet's balance of each position; the balances
    returned are the two answers, [yes] for index set 1 and [no] for
    index set 2, both below 2^256. *)
Theorem balance_reader_dataflow (w3 : Web3) (safe : Address)
    (condition_id : string) (balance_yes balance_no : Z) (w w1 : W)
    (t1 : Trace) :
  _get_position_balances world w3 safe condition_id w
  = (Ok (balance_yes, balance_no), w1, t1) ->
  exists cond collection_1 collection_2 position_1 position_2,
    bytes_fromhex (str_drop 2 condition_id) = Ok cond /\
    t1 = [EvGetCollectionId ctf_address (zero_bytes 32) cond 1
            (Ok collection_1);
          EvGetCollectionId ctf_address (zero_bytes 32) cond 2
            (Ok collection_2);
          EvGetPositionId ctf_address usdc_address collection_1
            (Ok position_1);
          EvGetPositionId ctf_address usdc_address collection_2
            (Ok position_2);
          EvBalanceOf ctf_address safe position_1 (Ok balance_yes);
          EvBalanceOf ctf_address safe position_2 (Ok balance_no)] /\
    0 <= balance_yes < 2 ^ 256 /\ 0 <= balance_no < 2 ^ 256.
Proof.
  intros H.
  destruct (balances_range world w3 safe condition_id w w1 t1 _ _ H)
    as [Hy Hn].
  unfold _get_position_balances in H. rewrite ctf_ok, usdc_ok in H.
  destruct (bytes_fromhex (str_drop 2 condition_id)) as [cond|e];
    [|discriminate].
  exists cond. revert H. crunch; try discriminate.
  intros H. inversion H. subst. do 4 eexists.
  split; [reflexivity|]. split; [reflexivity|]. split; assumption.
Qed.

(** X5.  A condition id that is not hexadecimal text is refused before
    anything leaves the process: the balance reader raises, the
    resolution check answers [False], and the per-condition step and the
    merge return [False], all with an empty trace and the world as it
    was. *)
Theorem undecodable_condition_is_refused (w3 : Web3) (safe : Address)
    (condition_id : string) (neg_risk : bool) (e : Exc) (w : W) :
  bytes_fromhex (str_drop 2 condition_id) = Raise e ->
  _get_position_balances world w3 safe condition_id w = (Raise e, w, []) /\
  _is_condition_resolved world w3 condition_id w = (Ok false, w, []) /\
  redeem_condition world condition_id neg_risk w = (Ok false, w, []) /\
  merge_condition world condition_id neg_risk w = (Ok false, w, []).
Proof.
  intros H. split; [apply balances_undecodable, H|]. split; [|split].
  - unfold _is_condition_resolved. rewrite ctf_ok, H. reflexivity.
  - unfold redeem_condition. rewrite try_run, bind_run. unfold lift at 1.
    destruct (_get_web3_and_account world) as [[[w3' account] safe']|e'];
      [|reflexivity].
    cbv beta iota zeta. rewrite bind_run, (balances_undecodable _ _ _ e w H).
    reflexivity.
  - unfold merge_condition. rewrite try_run, bind_run. unfold lift at 1.
    destruct (_get_web3_and_account world) as [[[w3' account] safe']|e'];
      [|reflexivity].
    cbv beta iota zeta. rewrite bind_run, (balances_undecodable _ _ _ e w H).
    reflexivity.
Qed.

(** X6.  When the balances cannot be read at entry, the per-condition
    step and the merge stop there: they return [False] after the reads
    that were made, without asking for the resolution, encoding or
    sending anything. *)
Theorem unreadable_balances_stop_the_step (w3 : Web3) (account : Account)
    (safe : Address) (condition_id : string) (neg_risk : bool) (e : Exc)
    (w w1 : W) (t1 : Trace) :
  _get_web3_and_account world = Ok (w3, account, safe) ->
  _get_position_balances world w3 safe condition_id w = (Raise e, w1, t1) ->
  Forall is_balance_read t1 /\
  redeem_condition world condition_id neg_risk w = (Ok false, w1, t1) /\
  merge_condition world condition_id neg_risk w = (Ok false, w1, t1).
Proof.
  intros Hcfg Hbal.
  split; [exact (balance_reads_only world w3 safe condition_id w w1 t1 _ Hbal)|].
  split.
  - unfold redeem_condition. rewrite try_run, bind_run. unfold lift at 1.
    rewrite Hcfg. cbv beta iota zeta. rewrite bind_run, Hbal.
    cbv beta iota zeta. unfold ret. cbn [app]. rewrite app_nil_r.
    reflexivity.
  - unfold merge_condition. rewrite try_run, bind_run. unfold lift at 1.
    rewrite Hcfg. cbv beta iota zeta. rewrite bind_run, Hbal.
    cbv beta iota zeta. unfold ret. cbn [app]. rewrite app_nil_r.
    reflexivity.
Qed.

End World.

Lemma balance_reader_dataflow_witness :
  let world := Sim.world Sim.env_ok Sim.listing_ok in
  let st := Sim.state 100 40 0 in
  exists t1 cond collection_1 collection_2 position_1 position_2,
    _get_position_balances world Sim.w3 Sim.safe Sim.cid_a st
    = (Ok (100, 40), st, t1) /\
    t1 = [EvGetCollectionId ctf_address (zero_bytes 32) cond 1
            (Ok collection_1);
          EvGetCollectionId ctf_address (zero_bytes 32) cond 2
            (Ok collection_2);
          EvGetPositionId ctf_address usdc_address collection_1
            (Ok position_1);
          EvGetPositionId ctf_address usdc_address collection_2
            (Ok position_2);
          EvBalanceOf ctf_address Sim.safe position_1 (Ok 100);
          EvBalanceOf ctf_address Sim.safe position_2 (Ok 40)].
Proof.
  intros world st.
  assert (Hbal : _get_position_balances world Sim.w3 Sim.safe Sim.cid_a st
                 = (Ok (100, 40), st,
                    trace_of (_get_position_balances world Sim.w3 Sim.safe
                                Sim.cid_a st)))
    by (vm_compute; reflexivity).
  destruct (balance_reader_dataflow world Sim.w3 Sim.safe Sim.cid_a 100 40 st st _
              Hbal) as (cond & c1 & c2 & p1 & p2 & _ & Ht & _).
  exists (trace_of (_get_position_balances world Sim.w3 Sim.safe Sim.cid_a st)),
    cond, c1, c2, p1, p2.
  split; [exact Hbal | exact Ht].
Defined.

Lemma undecodable_condition_is_refused_witness :
  let world := Sim.world Sim.env_ok Sim.listing_ok in
  let st := Sim.state 100 40 1 in
  bytes_fromhex (str_drop 2 "0xnot-a-condition") = Raise ValueError /\
  redeem_condition world "0xnot-a-condition" false st = (Ok false, st, []) /\
  merge_condition world "0xnot-a-condition" false st = (Ok false, st, []).
Proof.
  intros world st.
  assert (H : bytes_fromhex (str_drop 2 "0xnot-a-condition")
              = Raise ValueError) by reflexivity.
  destruct (undecodable_condition_is_refused world Sim.w3 Sim.safe
              "0xnot-a-condition" false ValueError st H)
    as (_ & _ & Hredeem & Hmerge).
  split; [exact H|]. split; [exact Hredeem | exact Hmerge].
Defined.

Lemma unreadable_balances_stop_the_step_witness :
  let world := SimDown.offline Sim.env_ok Sim.listing_ok in
  let st := Sim.state 100 40 1 in
  exists e t1,
    _get_position_balances world Sim.w3 Sim.safe Sim.cid_a st
    = (Raise e, st, t1) /\
    redeem_condition world Sim.cid_a false st = (Ok false, st, t1) /\
    merge_condition world Sim.cid_a false st = (Ok false, st, t1).
Proof.
  intros world st.
  assert (Hcfg : _get_web3_and_account world
                 = Ok (Sim.w3, Sim.account, Sim.safe))
    by (vm_compute; reflexivity).
  assert (Hbal : _get_position_balances world Sim.w3 Sim.safe Sim.cid_a st
                 = (Raise (LibraryError "ConnectionError"), st,
                    trace_of (_get_position_balances world Sim.w3 Sim.safe
                                Sim.cid_a st)))
    by (vm_compute; reflexivity).
  destruct (unreadable_balances_stop_the_step world Sim.w3 Sim.account
              Sim.safe Sim.cid_a false _ st st _ Hcfg Hbal)
    as (_ & Hredeem & Hmerge).
  do 2 eexists. split; [exact Hbal|]. split; [exact Hredeem | exact Hmerge].
Defined.

End ReaderMore.

(* ================================================================== *)
(** ** How many transactions are sent *)
(* ================================================================== *)

Module WriteBounds.
Import Py Redeemer Spec Spec2 TraceFacts WalletFacts SettlementFacts.

Lemma writes_app (t1 t2 : Trace) :
  writes (t1 ++ t2) = (writes t1 + writes t2)%nat.
Proof. unfold writes. rewrite filter_app, length_app. reflexivity. Qed.

Lemma writes_quiet (P : Event -> Prop) (t : Trace) :
  (forall e, P e -> ~ is_write e) -> Forall P t -> writes t = 0%nat.
Proof.
  intros HP. induction 1 as [|e t He _ IH]; [reflexivity|].
  unfold writes in *. cbn [filter].
  destruct e; try exact IH. exfalso. exact (HP _ He I).
Qed.

Section Rules.

Context {W : Type}.

Lemma at_most_mono {A} (a b : nat) (m : M W A) :
  (a <= b)%nat -> at_most a m -> at_most b m.
Proof. intros Hab H w. specialize (H w). lia. Qed.

Lemma at_most_ret {A} (n : nat) (a : A) : at_most n (@ret W A a).
Proof. intros w. cbn. lia. Qed.

Lemma at_most_lift {A} (n : nat) (r : Result A) : at_most n (@lift W A r).
Proof. intros w. cbn. lia. Qed.

Lemma at_most_quiet {A} (P : Event -> Prop) (n : nat) (m : M W A) :
  (forall e, P e -> ~ is_write e) -> holds (Forall P) m -> at_most n m.
Proof.
  intros HP H w. rewrite (writes_quiet P _ HP (H w)). lia.
Qed.

Lemma at_most_bind {A B} (a b : nat) (m : M W A) (f : A -> M W B) :
  at_most a m -> (forall x, at_most b (f x)) -> at_most (a + b) (bind m f).
Proof.
  intros Hm Hf w. unfold bind, trace_of. specialize (Hm w).
  destruct (m w) as [[[x|e] w1] t1]; unfold trace_of in Hm; cbn [snd] in *.
  - specialize (Hf x w1). destruct (f x w1) as [[r w2] t2].
    unfold trace_of in Hf. cbn [snd] in *. rewrite writes_app. lia.
  - lia.
Qed.

Lemma at_most_try {A} (a b : nat) (m : M W A) (h : Exc -> M W A) :
  at_most a m -> (forall e, at_most b (h e)) ->
  at_most (a + b) (try_except m h).
Proof.
  intros Hm Hh w. unfold try_except, trace_of. specialize (Hm w).
  destruct (m w) as [[[x|e] w1] t1]; unfold trace_of in Hm; cbn [snd] in *.
  - lia.
  - specialize (Hh e w1). destruct (h e w1) as [[r w2] t2].
    unfold trace_of in Hh. cbn [snd] in *. rewrite writes_app. lia.
Qed.

End Rules.

(** A step that sends nothing, then the rest. *)
Ltac free_step :=
  lazymatch goal with
  | |- at_most ?n (bind _ _) =>
      apply (at_most_bind 0 n);
      [ first [ apply at_most_lift
              | apply (at_most_quiet is_balance_read);
                [intros []; cbn; tauto | apply balance_events]
              | apply (at_most_quiet is_payout_read);
                [intros []; cbn; tauto | apply resolution_events]
              | apply (at_most_quiet is_listing);
                [intros []; cbn; tauto | apply listing_events]
              | intros ?; cbn; lia ]
      | intros ?; cbv beta ]
  | |- at_most _ (ret _) => apply at_most_ret
  | |- at_most _ (if ?b then _ else _) => destruct b
  | |- at_most _ (match ?x with (_, _) => _ end) => destruct x
  | |- at_most _ (match ?x with [] => _ | _ :: _ => _ end) => destruct x
  end.

Section World.

Context {W : Type}.
Variable world : World W.

Lemma wallet_at_most (w3 : Web3) (account : Account) (safe : Address)
    (to_address : string) (data : bytes) :
  at_most 1 (_execute_safe_transaction world w3 account safe to_address data).
Proof.
  intros w. unfold _execute_safe_transaction. crunch; cbn; lia.
Qed.

Lemma merge_at_most (condition_id : string) (neg_risk : bool) :
  at_most 1 (merge_condition world condition_id neg_risk).
Proof.
  unfold merge_condition. apply (at_most_try 1 0); [|intros; apply at_most_ret].
  repeat free_step.
  apply (at_most_bind 1 0); [apply wallet_at_most|].
  intros []; apply at_most_ret.
Qed.

Lemma redeem_at_most (condition_id : string) (neg_risk : bool) :
  at_most 2 (redeem_condition world condition_id neg_risk).
Proof.
  unfold redeem_condition. apply (at_most_try 2 0); [|intros; apply at_most_ret].
  repeat free_step.
  apply (at_most_bind 1 1).
  - destruct (_ >? 0); [|apply at_most_ret].
    apply (at_most_bind 1 0); [apply merge_at_most|].
    intros []; [|apply at_most_ret].
    apply (at_most_quiet is_balance_read);
      [intros []; cbn; tauto | apply balance_events].
  - intros [yes' no']. repeat free_step.
    apply (at_most_bind 1 0); [apply wallet_at_most|].
    intros []; apply at_most_ret.
Qed.

Lemma redeem_each_at_most (condition_ids : list string) :
  forall successful,
    at_most (2 * List.length condition_ids)
      (redeem_each world condition_ids successful).
Proof.
  induction condition_ids as [|c rest IH]; intros successful.
  - apply at_most_ret.
  - cbn [redeem_each List.length].
    apply (at_most_mono (2 + 2 * List.length rest)); [lia|].
    apply at_most_bind; [apply redeem_at_most|]. intros b. apply IH.
Qed.

End World.

End WriteBounds.

(* ================================================================== *)
(** ** More about the per-condition step and the batch *)
(* ================================================================== *)

Module BatchMore.
Import Py Redeemer Spec Spec2 TraceFacts WalletFacts SettlementFacts
  WriteBounds ListingMore.

Lemma try_returns {W A} (m : M W A) (a : A) (w : W) :
  exists b, result_of (try_except m (fun _ => ret a) w) = Ok b.
Proof.
  unfold try_except, result_of, ret.
  destruct (m w) as [[[x|e] w1] t1]; eexists; reflexivity.
Qed.

Section World.

Context {W : Type}.
Variable world : World W.

Lemma redeem_returns (condition_id : string) (neg_risk : bool) (w : W) :
  exists b, result_of (redeem_condition world condition_id neg_risk w) = Ok b.
Proof. unfold redeem_condition. apply try_returns. Qed.

Lemma merge_returns (condition_id : string) (neg_risk : bool) (w : W) :
  exists b, result_of (merge_condition world condition_id neg_risk w) = Ok b.
Proof. unfold merge_condition. apply try_returns. Qed.

(** The loop returns a count between where it started and one more per
    condition. *)
Lemma redeem_each_tally (condition_ids : list string) :
  forall successful w,
    exists s,
      result_of (redeem_each world condition_ids successful w) = Ok s /\
      successful <= s <= successful + Z.of_nat (List.length condition_ids).
Proof.
  induction condition_ids as [|c rest IH]; intros successful w.
  - exists successful. split; [reflexivity|]. cbn. lia.
  - cbn [redeem_each]. rewrite bind_run.
    destruct (redeem_returns c false w) as [b Hb].
    destruct (redeem_condition world c false w) as [[r w1] t1].
    unfold result_of in Hb. cbn [fst] in Hb. subst r.
    destruct (IH (if b then successful + 1 else successful) w1)
      as (s & Hs & Hrange).
    destruct (redeem_each world rest _ w1) as [[r w2] t2].
    unfold result_of in Hs |- *. cbn [fst] in Hs |- *. subst r.
    exists s. split; [reflexivity|].
    rewrite length_cons, Nat2Z.inj_succ. destruct b; lia.
Qed.

Lemma id_set_length (positions : list Position) :
  List.length (condition_id_set world positions)
  = List.length (nodup string_dec (condition_ids_of positions)).
Proof.
  unfold condition_id_set. symmetry. apply Permutation_length.
  apply (set_iteration_perm world).
Qed.

(** What a batch makes of the positions it was given. *)
Lemma batch_tally (positions : list Position) (w : W) :
  let total :=
    List.length (nodup string_dec (condition_ids_of positions)) in
  exists s,
    result_of (redeem_positions_of world positions w)
    = Ok (s, Z.of_nat total) /\
    0 <= s <= Z.of_nat total /\
    (writes (trace_of (redeem_positions_of world positions w))
     <= 2 * total)%nat.
Proof.
  intros total. subst total. rewrite <- id_set_length.
  unfold redeem_positions_of. destruct positions as [|p positions].
  - exists 0. assert (H : condition_id_set world [] = []).
    { unfold condition_id_set. cbn [flat_map nodup].
      pose proof (set_iteration_perm world []) as Hperm.
      apply Permutation_nil in Hperm. exact Hperm. }
    rewrite H. cbn. repeat split; lia.
  - destruct (condition_id_set world (p :: positions)) as [|c ids] eqn:E.
    + exists 0. cbn. repeat split; lia.
    + rewrite bind_run.
      destruct (redeem_each_tally (c :: ids) 0 w) as (s & Hs & Hrange).
      pose proof (redeem_each_at_most world (c :: ids) 0 w) as Hw.
      destruct (redeem_each world (c :: ids) 0 w) as [[r w1] t1].
      unfold result_of, trace_of in Hs, Hw |- *. cbn [fst snd] in Hs, Hw |- *.
      subst r. exists s. cbn [ret app]. rewrite app_nil_r.
      repeat split; [lia | lia | exact Hw].
Qed.

(** The visits are those of the conditions given, in their order. *)
Lemma visits_ids (neg_risk : bool) (condition_ids : list string) :
  forall w,
    map visited (fst (visit_each world neg_risk condition_ids w))
    = condition_ids.
Proof.
  induction condition_ids as [|c rest IH]; intros w; [reflexivity|].
  cbn [visit_each].
  destruct (redeem_condition world c neg_risk w) as [[r w1] t1].
  specialize (IH w1).
  destruct (visit_each world neg_risk rest w1) as [visits w2].
  cbn [fst map visited] in *. rewrite IH. reflexivity.
Qed.

Lemma visits_length (neg_risk : bool) (condition_ids : list string)
    (w : W) :
  List.length (fst (visit_each world neg_risk condition_ids w))
  = List.length condition_ids.
Proof.
  rewrite <- (visits_ids neg_risk condition_ids w) at 2.
  rewrite length_map. reflexivity.
Qed.

(** Each visit is a run of the per-condition step on its condition, and
    that run returned a value. *)
Lemma visits_are_steps (neg_risk : bool) (condition_ids : list string) :
  forall w,
    Forall (fun v =>
              exists b w0 w1,
                returned v = Ok b /\
                redeem_condition world (visited v) neg_risk w0
                = (Ok b, w1, did v))
      (fst (visit_each world neg_risk condition_ids w)).
Proof.
  induction condition_ids as [|c rest IH]; intros w; [constructor|].
  cbn [visit_each].
  destruct (redeem_returns c neg_risk w) as [b Hb].
  destruct (redeem_condition world c neg_risk w) as [[r w1] t1] eqn:Hrun.
  unfold result_of in Hb. cbn [fst] in Hb. subst r.
  specialize (IH w1).
  destruct (visit_each world neg_risk rest w1) as [visits w2].
  cbn [fst] in *. constructor; [|exact IH].
  exists b, w, w1. split; [reflexivity | exact Hrun].
Qed.

Lemma tally_cons (v : Visit) (visits : list Visit) :
  tally (v :: visits)
  = (match returned v with Ok true => 1 | _ => 0 end) + tally visits.
Proof.
  unfold tally. cbn [filter].
  destruct (returned v) as [[|]|e]; cbn [List.length]; lia.
Qed.

Lemma tally_bounds (visits : list Visit) :
  0 <= tally visits <= Z.of_nat (List.length visits).
Proof.
  induction visits as [|v visits IH]; [cbn; lia|].
  rewrite tally_cons, length_cons, Nat2Z.inj_succ.
  destruct (returned v) as [[|]|e]; lia.
Qed.

(** The loop is the visit of every condition: it adds one to the count
    for each step that returned [True] and goes on after any other. *)
Lemma redeem_each_visits (condition_ids : list string) :
  forall successful w,
    redeem_each world condition_ids successful w
    = (Ok (successful
           + tally (fst (visit_each world false condition_ids w))),
       snd (visit_each world false condition_ids w),
       events_of (fst (visit_each world false condition_ids w))).
Proof.
  induction condition_ids as [|c rest IH]; intros successful w.
  - cbn. rewrite Z.add_0_r. reflexivity.
  - cbn [redeem_each visit_each]. rewrite bind_run.
    destruct (redeem_returns c false w) as [b Hb].
    destruct (redeem_condition world c false w) as [[r w1] t1].
    unfold result_of in Hb. cbn [fst] in Hb. subst r.
    rewrite IH.
    destruct (visit_each world false rest w1) as [visits w2].
    cbn [fst snd]. rewrite tally_cons. unfold events_of.
    cbn [map List.concat returned did].
    f_equal. f_equal. f_equal. destruct b; lia.
Qed.

(** What a batch makes of the positions it was given: one visit for
    every condition id. *)
Lemma batch_visits (positions : list Position) (w : W) :
  redeem_positions_of world positions w
  = (Ok (tally (fst (visit_each world false
                       (condition_id_set world positions) w)),
         Z.of_nat (List.length (condition_id_set world positions))),
     snd (visit_each world false (condition_id_set world positions) w),
     events_of (fst (visit_each world false
                       (condition_id_set world positions) w))).
Proof.
  unfold redeem_positions_of. destruct positions as [|p positions].
  - assert (H : condition_id_set world [] = []).
    { unfold condition_id_set. cbn [flat_map nodup].
      pose proof (set_iteration_perm world []) as Hperm.
      apply Permutation_nil in Hperm. exact Hperm. }
    rewrite H. reflexivity.
  - destruct (condition_id_set world (p :: positions)) as [|c ids] eqn:E.
    + reflexivity.
    + rewrite bind_run, redeem_each_visits.
      cbv beta iota zeta. unfold ret. rewrite app_nil_r, Z.add_0_l.
      reflexivity.
Qed.

(** A batch driver: the listing, then one visit for every condition id
    of the positions listed. *)
Lemma driver_visits (market_slug : option string) (w : W) :
  exists positions w1 t0,
    get_redeemable_positions world market_slug w = (Ok positions, w1, t0) /\
    Forall is_listing t0 /\
    bind (get_redeemable_positions world market_slug)
      (redeem_positions_of world) w
    = (Ok (tally (fst (visit_each world false
                         (condition_id_set world positions) w1)),
           Z.of_nat (List.length (condition_id_set world positions))),
       snd (visit_each world false (condition_id_set world positions) w1),
       t0 ++ events_of (fst (visit_each world false
                               (condition_id_set world positions) w1))).
Proof.
  pose proof (listing_run world market_slug w) as Hrun. cbv zeta in Hrun.
  pose proof (listing_events world market_slug w) as Hev.
  rewrite bind_run. rewrite Hrun in Hev |- *. cbv beta iota zeta.
  do 3 eexists. split; [reflexivity|]. split; [exact Hev|].
  rewrite batch_visits. reflexivity.
Qed.

(** X7.  Given a condition id that is a string, and listing answers
    that fail or have the documented shape, the resolution check, the
    merge, the per-condition step, the listing and the two batch drivers
    return a value on every run: no exception (one derived from
    [Exception]) of theirs or of what they call reaches the caller. *)
Theorem operations_return_values (w3 : Web3) (condition_id : string)
    (neg_risk : bool) (filter_slug : option string) (market_slug : string)
    (w : W) :
  (exists b,
      result_of (_is_condition_resolved world w3 condition_id w) = Ok b) /\
  (exists b,
      result_of (merge_condition world condition_id neg_risk w) = Ok b) /\
  (exists b,
      result_of (redeem_condition world condition_id neg_risk w) = Ok b) /\
  (exists positions,
      result_of (get_redeemable_positions world filter_slug w)
      = Ok positions) /\
  (exists tally,
      result_of (redeem_market_positions world market_slug w) = Ok tally) /\
  (exists tally, result_of (redeem_all_positions world w) = Ok tally).
Proof.
  split; [unfold _is_condition_resolved; apply try_returns|].
  split; [apply merge_returns|]. split; [apply redeem_returns|].
  split; [unfold get_redeemable_positions; apply try_returns|].
  split.
  - unfold redeem_market_positions. rewrite bind_run.
    rewrite (listing_run world (Some market_slug) w). cbv beta iota zeta.
    match goal with
    | |- context [redeem_positions_of world ?ps ?w'] =>
        destruct (batch_tally ps w') as (s & Hs & _);
        destruct (redeem_positions_of world ps w') as [[r w1] t1]
    end.
    unfold result_of in Hs |- *. cbn [fst] in Hs |- *. subst r. eauto.
  - unfold redeem_all_positions. rewrite bind_run.
    rewrite (listing_run world None w). cbv beta iota zeta.
    match goal with
    | |- context [redeem_positions_of world ?ps ?w'] =>
        destruct (batch_tally ps w') as (s & Hs & _);
        destruct (redeem_positions_of world ps w') as [[r w1] t1]
    end.
    unfold result_of in Hs |- *. cbn [fst] in Hs |- *. subst r. eauto.
Qed.

(** X8.  The transaction executor and a merge send at most one
    transaction, the per-condition step at most two (one merge, one
    redeem), and a batch at most two for each condition it counts. *)
Theorem sends_are_bounded (w3 : Web3) (account : Account) (safe : Address)
    (to_address : string) (data : bytes) (condition_id : string)
    (neg_risk : bool) (market_slug : string) (w : W) :
  (writes (trace_of (_execute_safe_transaction world w3 account safe
                       to_address data w)) <= 1)%nat /\
  (writes (trace_of (merge_condition world condition_id neg_risk w))
   <= 1)%nat /\
  (writes (trace_of (redeem_condition world condition_id neg_risk w))
   <= 2)%nat /\
  (exists s total,
      result_of (redeem_market_positions world market_slug w)
      = Ok (s, Z.of_nat total) /\
      (writes (trace_of (redeem_market_positions world market_slug w))
       <= 2 * total)%nat) /\
  (exists s total,
      result_of (redeem_all_positions world w) = Ok (s, Z.of_nat total) /\
      (writes (trace_of (redeem_all_positions world w)) <= 2 * total)%nat).
Proof.
  split; [apply wallet_at_most|]. split; [apply merge_at_most|].
  split; [apply redeem_at_most|]. split.
  - unfold redeem_market_positions. rewrite bind_run.
    rewrite (listing_run world (Some market_slug) w). cbv beta iota zeta.
    match goal with
    | |- context [redeem_positions_of world ?ps ?w'] =>
        destruct (batch_tally ps w') as (s & Hs & _ & Hw);
        destruct (redeem_positions_of world ps w') as [[r w1] t1]
    end.
    unfold result_of, trace_of in Hs, Hw |- *. cbn [fst snd] in Hs, Hw |- *.
    subst r. do 2 eexists. split; [reflexivity|].
    rewrite writes_app. cbn [writes filter List.length Nat.add]. exact Hw.
  - unfold redeem_all_positions. rewrite bind_run.
    rewrite (listing_run world None w). cbv beta iota zeta.
    match goal with
    | |- context [redeem_positions_of world ?ps ?w'] =>
        destruct (batch_tally ps w') as (s & Hs & _ & Hw);
        destruct (redeem_positions_of world ps w') as [[r w1] t1]
    end.
    unfold result_of, trace_of in Hs, Hw |- *. cbn [fst snd] in Hs, Hw |- *.
    subst r. do 2 eexists. split; [reflexivity|].
    rewrite writes_app. cbn [writes filter List.length Nat.add]. exact Hw.
Qed.

(** X9.  A batch goes through every distinct non-empty condition id of
    the positions listed, in the order the set gives them and whatever
    the steps before returned: it returns [(successful, total)] where
    [total] is the number of those ids and [successful] the number of
    steps that returned [True], it leaves the world as the last step
    left it, and its calls are those of the listing followed by those of
    each step in turn.  A step that fails is counted in [total] and does
    not stop the others. *)
Theorem batch_counts_every_condition (market_slug : string) (w : W) :
  (exists positions w1 t0,
      get_redeemable_positions world (Some market_slug) w
      = (Ok positions, w1, t0) /\
      let condition_ids := condition_id_set world positions in
      let visits := fst (visit_each world false condition_ids w1) in
      List.length condition_ids
      = List.length (nodup string_dec (condition_ids_of positions)) /\
      map visited visits = condition_ids /\
      redeem_market_positions world market_slug w
      = (Ok (tally visits, Z.of_nat (List.length condition_ids)),
         snd (visit_each world false condition_ids w1),
         t0 ++ events_of visits) /\
      0 <= tally visits <= Z.of_nat (List.length condition_ids)) /\
  (exists positions w1 t0,
      get_redeemable_positions world None w = (Ok positions, w1, t0) /\
      let condition_ids := condition_id_set world positions in
      let visits := fst (visit_each world false condition_ids w1) in
      List.length condition_ids
      = List.length (nodup string_dec (condition_ids_of positions)) /\
      map visited visits = condition_ids /\
      redeem_all_positions world w
      = (Ok (tally visits, Z.of_nat (List.length condition_ids)),
         snd (visit_each world false condition_ids w1),
         t0 ++ events_of visits) /\
      0 <= tally visits <= Z.of_nat (List.length condition_ids)).
Proof.
  split.
  - destruct (driver_visits (Some market_slug) w)
      as (positions & w1 & t0 & Hlist & _ & Hrun).
    exists positions, w1, t0. split; [exact Hlist|]. cbv zeta.
    split; [apply id_set_length|]. split; [apply visits_ids|].
    split; [exact Hrun|].
    rewrite <- (visits_length false (condition_id_set world positions) w1).
    apply tally_bounds.
  - destruct (driver_visits None w)
      as (positions & w1 & t0 & Hlist & _ & Hrun).
    exists positions, w1, t0. split; [exact Hlist|]. cbv zeta.
    split; [apply id_set_length|]. split; [apply visits_ids|].
    split; [exact Hrun|].
    rewrite <- (visits_length false (condition_id_set world positions) w1).
    apply tally_bounds.
Qed.

(** X10.  The condition ids a batch goes through have no duplicate, and
    they are exactly the non-empty [conditionId] values of the
    positions: a position without one, or with an empty one, is left
    out. *)
Theorem condition_ids_are_deduplicated (positions : list Position) :
  NoDup (condition_id_set world positions) /\
  (forall c,
      In c (condition_id_set world positions) <->
      c <> EmptyString /\
      exists p, In p positions /\ conditionId p = Some c).
Proof.
  unfold condition_id_set.
  set (ids := flat_map _ positions).
  pose proof (set_iteration_perm world (nodup string_dec ids)) as Hperm.
  split.
  - eapply Permutation_NoDup; [exact Hperm | apply NoDup_nodup].
  - intros c. split.
    + intros Hin. apply Permutation_sym in Hperm.
      apply (Permutation_in _ Hperm) in Hin. apply nodup_In in Hin.
      subst ids. apply in_flat_map in Hin. destruct Hin as (p & Hp & Hc).
      destruct (conditionId p) as [c'|] eqn:E; [|contradiction].
      destruct c' as [|a c']; cbn in Hc; [contradiction|].
      destruct Hc as [<-|[]]. split; [discriminate|]. eauto.
    + intros (Hne & p & Hp & Hc).
      apply (Permutation_in _ Hperm). apply nodup_In.
      subst ids. apply in_flat_map. exists p. split; [exact Hp|].
      rewrite Hc. destruct c; [congruence|]. cbn. auto.
Qed.

End World.

End BatchMore.

(* ================================================================== *)
(** ** The batch drivers, step by step *)
(* ================================================================== *)

Module DriverFacts.
Import Py Redeemer Spec Spec2 TraceFacts WalletFacts SettlementFacts
  BatchFacts WriteBounds ListingMore BatchMore.

Section World.

Context {W : Type}.
Variable world : World W.

(** With the configuration missing a visit is a [False] and no call. *)
Lemma visits_without_configuration (neg_risk : bool)
    (condition_ids : list string) :
  getenv world "PRIVATE_KEY" = None \/
  getenv world "POLYMARKET_PROXY_ADDRESS" = None ->
  forall w,
    visit_each world neg_risk condition_ids w
    = (map (fun c => {| visited := c; returned := Ok false; did := [] |})
         condition_ids, w).
Proof.
  intros Hmissing.
  induction condition_ids as [|c rest IH]; intros w; [reflexivity|].
  cbn [visit_each map].
  rewrite (redeem_without_configuration world Hmissing c neg_risk w), IH.
  reflexivity.
Qed.

(** C7, as the code has it.  The batch drivers have no check of the
    configuration: in every run, after the listing, they run the
    per-condition step once for every condition id, whatever the steps
    before returned, and count those that returned [True].  When the
    private key or the proxy address is missing, loading the
    configuration raises inside the step and inside the merge, and each
    turns that into its ordinary failure value, [False], without a
    single call; so every step of a batch returns [False] and the batch
    returns [(0, total)] after the listing requests alone.  For a
    listing of the documented shape nothing is raised to the caller. *)
Theorem missing_configuration_is_counted_not_raised
    (market_slug : string) (condition_id : string) (neg_risk : bool)
    (w : W) :
  (exists positions w1 t0,
      get_redeemable_positions world (Some market_slug) w
      = (Ok positions, w1, t0) /\
      Forall is_listing t0 /\
      let condition_ids := condition_id_set world positions in
      let visits := fst (visit_each world false condition_ids w1) in
      map visited visits = condition_ids /\
      redeem_market_positions world market_slug w
      = (Ok (tally visits, Z.of_nat (List.length condition_ids)),
         snd (visit_each world false condition_ids w1),
         t0 ++ events_of visits)) /\
  (exists positions w1 t0,
      get_redeemable_positions world None w = (Ok positions, w1, t0) /\
      Forall is_listing t0 /\
      let condition_ids := condition_id_set world positions in
      let visits := fst (visit_each world false condition_ids w1) in
      map visited visits = condition_ids /\
      redeem_all_positions world w
      = (Ok (tally visits, Z.of_nat (List.length condition_ids)),
         snd (visit_each world false condition_ids w1),
         t0 ++ events_of visits)) /\
  (getenv world "PRIVATE_KEY" = None \/
   getenv world "POLYMARKET_PROXY_ADDRESS" = None ->
   (exists e, _get_web3_and_account world = Raise e) /\
   redeem_condition world condition_id neg_risk w = (Ok false, w, []) /\
   merge_condition world condition_id neg_risk w = (Ok false, w, []) /\
   (forall condition_ids w0,
       visit_each world false condition_ids w0
       = (map (fun c => {| visited := c; returned := Ok false; did := [] |})
            condition_ids, w0)) /\
   (exists positions w' t,
       get_redeemable_positions world (Some market_slug) w
       = (Ok positions, w', t) /\
       Forall is_listing t /\
       redeem_market_positions world market_slug w
       = (Ok (0, Z.of_nat (List.length (condition_id_set world positions))),
          w', t)) /\
   (exists positions w' t,
       get_redeemable_positions world None w = (Ok positions, w', t) /\
       Forall is_listing t /\
       redeem_all_positions world w
       = (Ok (0, Z.of_nat (List.length (condition_id_set world positions))),
          w', t))).
Proof.
  split; [|split].
  - destruct (driver_visits world (Some market_slug) w)
      as (positions & w1 & t0 & Hlist & Hev & Hrun).
    exists positions, w1, t0. split; [exact Hlist|]. split; [exact Hev|].
    cbv zeta. split; [apply visits_ids | exact Hrun].
  - destruct (driver_visits world None w)
      as (positions & w1 & t0 & Hlist & Hev & Hrun).
    exists positions, w1, t0. split; [exact Hlist|]. split; [exact Hev|].
    cbv zeta. split; [apply visits_ids | exact Hrun].
  - intros Hmissing.
    split; [exact (configuration_raises world Hmissing)|].
    split; [exact (redeem_without_configuration world Hmissing _ _ _)|].
    split; [exact (merge_without_configuration world Hmissing _ _ _)|].
    split; [intros ids w0; apply visits_without_configuration, Hmissing|].
    split.
    + destruct (listing_returns world (Some market_slug) w)
        as [positions Hp].
      pose proof (listing_events world (Some market_slug) w) as Hev.
      unfold redeem_market_positions. rewrite bind_run.
      destruct (get_redeemable_positions world (Some market_slug) w)
        as [[r w'] t].
      unfold result_of in Hp. cbn [fst] in Hp. subst r.
      exists positions, w', t. split; [reflexivity|]. split; [exact Hev|].
      rewrite (batch_without_configuration world Hmissing).
      rewrite app_nil_r. reflexivity.
    + destruct (listing_returns world None w) as [positions Hp].
      pose proof (listing_events world None w) as Hev.
      unfold redeem_all_positions. rewrite bind_run.
      destruct (get_redeemable_positions world None w) as [[r w'] t].
      unfold result_of in Hp. cbn [fst] in Hp. subst r.
      exists positions, w', t. split; [reflexivity|]. split; [exact Hev|].
      rewrite (batch_without_configuration world Hmissing).
      rewrite app_nil_r. reflexivity.
Qed.

(** C10.  Both batch drivers run the per-condition step with
    [neg_risk = False] once for every condition id of the positions
    listed: the calls of a batch are those of the listing followed by
    those of each such step in turn, and its count is the number of
    those steps that returned [True].  Every hash asked of the wallet
    and every transaction built for it, merge or redeem, is therefore
    addressed to the conditional-tokens framework, which is not the
    negative-risk adapter; run with [neg_risk = True] the same step
    addresses the adapter. *)
Theorem batch_targets_framework (market_slug : string) (w : W) :
  (exists positions w1 t0,
      get_redeemable_positions world (Some market_slug) w
      = (Ok positions, w1, t0) /\
      let condition_ids := condition_id_set world positions in
      let visits := fst (visit_each world false condition_ids w1) in
      map visited visits = condition_ids /\
      Forall (fun v =>
                exists b w0 w0',
                  returned v = Ok b /\
                  redeem_condition world (visited v) false w0
                  = (Ok b, w0', did v)) visits /\
      redeem_market_positions world market_slug w
      = (Ok (tally visits, Z.of_nat (List.length condition_ids)),
         snd (visit_each world false condition_ids w1),
         t0 ++ events_of visits)) /\
  (exists positions w1 t0,
      get_redeemable_positions world None w = (Ok positions, w1, t0) /\
      let condition_ids := condition_id_set world positions in
      let visits := fst (visit_each world false condition_ids w1) in
      map visited visits = condition_ids /\
      Forall (fun v =>
                exists b w0 w0',
                  returned v = Ok b /\
                  redeem_condition world (visited v) false w0
                  = (Ok b, w0', did v)) visits /\
      redeem_all_positions world w
      = (Ok (tally visits, Z.of_nat (List.length condition_ids)),
         snd (visit_each world false condition_ids w1),
         t0 ++ events_of visits)) /\
  Forall (targets ctf_address)
    (trace_of (redeem_market_positions world market_slug w)) /\
  Forall (targets ctf_address) (trace_of (redeem_all_positions world w)) /\
  ctf_address <> adapter_address /\
  (forall condition_id w',
      Forall (targets adapter_address)
        (trace_of (redeem_condition world condition_id true w'))).
Proof.
  split; [|split; [|split; [|split; [|split]]]].
  - destruct (driver_visits world (Some market_slug) w)
      as (positions & w1 & t0 & Hlist & _ & Hrun).
    exists positions, w1, t0. split; [exact Hlist|]. cbv zeta.
    split; [apply visits_ids|]. split; [apply visits_are_steps | exact Hrun].
  - destruct (driver_visits world None w)
      as (positions & w1 & t0 & Hlist & _ & Hrun).
    exists positions, w1, t0. split; [exact Hlist|]. cbv zeta.
    split; [apply visits_ids|]. split; [apply visits_are_steps | exact Hrun].
  - revert w.
    change (holds (Forall (targets ctf_address))
              (bind (get_redeemable_positions world (Some market_slug))
                 (redeem_positions_of world))).
    apply holds_bind;
      [apply Forall_closed_app | apply listing_targets
      | intros positions; apply batch_targets].
  - revert w.
    change (holds (Forall (targets ctf_address))
              (bind (get_redeemable_positions world None)
                 (redeem_positions_of world))).
    apply holds_bind;
      [apply Forall_closed_app | apply listing_targets
      | intros positions; apply batch_targets].
  - exact framework_is_not_adapter.
  - intros condition_id w'. apply (redeem_targets world condition_id true).
Qed.

End World.

Lemma missing_configuration_is_counted_not_raised_witness :
  let world := Sim.world Sim.env_no_proxy Sim.listing_ok in
  let st := Sim.state 100 40 1 in
  getenv world "POLYMARKET_PROXY_ADDRESS" = None /\
  redeem_condition world Sim.cid_a false st = (Ok false, st, []) /\
  merge_condition world Sim.cid_a false st = (Ok false, st, []) /\
  exists positions w' t,
    get_redeemable_positions world (Some "btc-updown-15m-1700000000") st
    = (Ok positions, w', t) /\
    redeem_market_positions world "btc-updown-15m-1700000000" st
    = (Ok (0, Z.of_nat (List.length (condition_id_set world positions))),
       w', t).
Proof.
  intros world st.
  assert (Hmissing : getenv world "PRIVATE_KEY" = None \/
                     getenv world "POLYMARKET_PROXY_ADDRESS" = None)
    by (right; reflexivity).
  destruct (missing_configuration_is_counted_not_raised world
              "btc-updown-15m-1700000000" Sim.cid_a false st)
    as (_ & _ & Hwithout).
  destruct (Hwithout Hmissing)
    as (_ & Hredeem & Hmerge & _ & (positions & w' & t & Hlist & _ & Hbatch)
        & _).
  split; [reflexivity|]. split; [exact Hredeem|]. split; [exact Hmerge|].
  exists positions, w', t. split; assumption.
Defined.

End DriverFacts.

(* ================================================================== *)
(** ** The redeem of a resolved condition *)
(* ================================================================== *)

Module ResolvedMore.
Import Py Redeemer Spec Spec2 TraceFacts WalletFacts SettlementFacts
  ResolutionFacts UnresolvedFacts.

Section World.

Context {W : Type}.
Variable world : World W.

(** The per-condition step, cut at the resolution check, with what
    follows a read that says resolved. *)
Lemma redeem_after_resolution (condition_id : string) (neg_risk : bool)
    (w : W) :
  let run := redeem_condition world condition_id neg_risk w in
  let target := if neg_risk then adapter_address else ctf_address in
  Forall before_resolution (trace_of run) \/
  exists before cond answer rest,
    trace_of run
    = before ++ EvPayoutDenominator ctf_address cond answer :: rest /\
    Forall before_resolution before /\
    bytes_fromhex (str_drop 2 condition_id) = Ok cond /\
    (unresolved answer = true -> rest = []) /\
    (unresolved answer = false ->
     exists t4,
       rest = EvEncode (redeemPositions usdc_address (zero_bytes 32) cond
                          [1; 2])
                (encode_transaction_data world
                   (redeemPositions usdc_address (zero_bytes 32) cond
                      [1; 2]))
              :: t4 /\
       result_of run = Ok (receipt_status_is_1 t4) /\
       Forall (fun e => is_wallet_step e /\ targets target e) t4 /\
       match encode_transaction_data world
               (redeemPositions usdc_address (zero_bytes 32) cond [1; 2])
       with
       | Ok hex =>
           match bytes_fromhex (str_drop 2 hex) with
           | Ok payload => Forall (carries payload) t4
           | Raise _ => t4 = []
           end
       | Raise _ => t4 = []
       end).
Proof.
  intros run target. subst run.
  remember (redeem_condition world condition_id neg_risk w) as run eqn:Hrun.
  unfold redeem_condition in Hrun.
  rewrite try_run, bind_run in Hrun. unfold lift at 1 in Hrun.
  destruct (_get_web3_and_account world) as [[[w3 account] safe]|e].
  2: { left. subst run. cbn. constructor. }
  cbv beta iota zeta in Hrun. rewrite bind_run in Hrun.
  pose proof (balance_before_resolution world w3 safe condition_id w) as Hb.
  destruct (_get_position_balances world w3 safe condition_id w)
    as [[[[balance_yes balance_no]|e] w1] t1].
  2: { left. subst run. cbn. unfold trace_of in Hb. cbn in Hb.
       rewrite app_nil_r. exact Hb. }
  unfold trace_of in Hb. cbn [snd] in Hb.
  cbv beta iota zeta in Hrun.
  destruct (both_zero balance_yes balance_no).
  { left. subst run. cbn. rewrite app_nil_r. exact Hb. }
  rewrite bind_run in Hrun.
  match type of Hrun with
  | context [match ?m w1 with _ => _ end] =>
      assert (Hmid : holds (Forall before_resolution) m)
  end.
  { repeat first [ walk_step | apply balance_before_resolution
                 | apply merge_before_resolution ]. }
  specialize (Hmid w1).
  match type of Hrun with
  | context [match ?m w1 with _ => _ end] =>
      destruct (m w1) as [[[[yes' no']|e] w2] t2]
  end.
  2: { left. subst run. cbn. unfold trace_of in Hmid. cbn in Hmid.
       rewrite app_nil_r. apply Forall_closed_app; assumption. }
  unfold trace_of in Hmid. cbn [snd] in Hmid.
  cbv beta iota zeta in Hrun.
  destruct (both_zero yes' no').
  { left. subst run. cbn. rewrite app_nil_r.
    apply Forall_closed_app; assumption. }
  rewrite bind_run in Hrun.
  destruct (resolution_cases world w3 condition_id w2)
    as (b & w3' & t3 & Hres & Hcases).
  rewrite Hres in Hrun. cbv beta iota zeta in Hrun.
  destruct Hcases as [[-> ->]|(cond & answer & Hcond & -> & ->)].
  { left. subst run. cbn. rewrite !app_nil_r.
    apply Forall_closed_app; assumption. }
  right. exists (t1 ++ t2), cond, answer.
  destruct (unresolved answer) eqn:Hun.
  - exists []. subst run. cbn. rewrite <- app_assoc.
    repeat split; auto using Forall_closed_app. discriminate.
  - cbn [negb] in Hrun. cbv [bind lift local ret] in Hrun.
    rewrite usdc_ok, zero_collection_ok, Hcond in Hrun.
    cbv beta iota zeta in Hrun.
    set (c := redeemPositions usdc_address (zero_bytes 32) cond [1; 2])
      in *.
    destruct (encode_transaction_data world c) as [hex|e].
    + destruct (bytes_fromhex (str_drop 2 hex)) as [payload|e].
      * set (to_address := if neg_risk then NEG_RISK_ADAPTER_ADDRESS
                           else CONDITIONAL_TOKENS_FRAMEWORK_ADDRESS) in Hrun.
        pose proof (wallet_events world w3 account safe to_address payload
                      w3') as Hev.
        pose proof (wallet_result world w3 account safe to_address payload
                      w3') as Hresult.
        destruct (_execute_safe_transaction world w3 account safe to_address
                    payload w3') as [[r w4] t4].
        unfold result_of, trace_of in Hev, Hresult.
        cbn [fst snd] in Hev, Hresult. subst r.
        assert (Htarget : address_of to_address = target)
          by (subst to_address target; destruct neg_risk; reflexivity).
        rewrite Htarget in Hev.
        exists (EvEncode c (Ok hex) :: t4).
        split.
        { subst run. destruct (receipt_status_is_1 t4);
            unfold trace_of; cbn [snd app];
            rewrite ?app_nil_r, <- ?app_assoc; reflexivity. }
        split; [apply Forall_closed_app; assumption|].
        split; [exact Hcond|]. split; [discriminate|]. intros _.
        exists t4. split; [reflexivity|]. split.
        { subst run. destruct (receipt_status_is_1 t4); reflexivity. }
        split; eapply Forall_impl; try exact Hev; cbn; tauto.
      * exists [EvEncode c (Ok hex)]. subst run. unfold trace_of. cbn [snd app].
        rewrite ?app_nil_r, <- ?app_assoc.
        split; [reflexivity|].
        split; [apply Forall_closed_app; assumption|].
        split; [exact Hcond|]. split; [discriminate|]. intros _.
        exists []. repeat split; constructor.
    + exists [EvEncode c (Raise e)]. subst run. unfold trace_of. cbn [snd app].
      rewrite ?app_nil_r, <- ?app_assoc.
      split; [reflexivity|].
      split; [apply Forall_closed_app; assumption|].
      split; [exact Hcond|]. split; [discriminate|]. intros _.
      exists []. repeat split; constructor.
Qed.

(** X11.  Once the payout denominator has been read as positive, the
    per-condition step encodes [redeemPositions] with the collateral
    token, the zero parent collection, the condition id and the index
    sets [[1; 2]], hands the bytes of that encoding to the wallet at the
    address chosen by [neg_risk], and returns what that one transaction
    gave: [True] exactly when its receipt has status 1. *)
Theorem resolved_condition_is_redeemed (condition_id : string)
    (neg_risk : bool) (w : W) :
  forall ctf cond answer,
    In (EvPayoutDenominator ctf cond answer)
      (trace_of (redeem_condition world condition_id neg_risk w)) ->
    unresolved answer = false ->
    exists before t4,
      bytes_fromhex (str_drop 2 condition_id) = Ok cond /\
      trace_of (redeem_condition world condition_id neg_risk w)
      = before ++
        EvPayoutDenominator ctf cond answer
        :: EvEncode (redeemPositions usdc_address (zero_bytes 32) cond [1; 2])
             (encode_transaction_data world
                (redeemPositions usdc_address (zero_bytes 32) cond [1; 2]))
        :: t4 /\
      result_of (redeem_condition world condition_id neg_risk w)
      = Ok (receipt_status_is_1 t4) /\
      Forall (fun e => is_wallet_step e /\
                       targets (if neg_risk then adapter_address
                                else ctf_address) e) t4 /\
      (forall hex payload,
          encode_transaction_data world
            (redeemPositions usdc_address (zero_bytes 32) cond [1; 2])
          = Ok hex ->
          bytes_fromhex (str_drop 2 hex) = Ok payload ->
          Forall (carries payload) t4).
Proof.
  intros ctf cond answer Hin Hres.
  destruct (redeem_after_resolution condition_id neg_risk w)
    as [Hquiet|(before & cond' & answer' & rest & Htrace & Hb & Hcond
                & Hstop & Hgo)].
  { exfalso. exact (payout_in_quiet _ _ _ _ Hquiet Hin). }
  assert (Hsame : EvPayoutDenominator ctf_address cond' answer'
                  = EvPayoutDenominator ctf cond answer).
  { rewrite Htrace in Hin. apply in_app_or in Hin.
    destruct Hin as [Hin|[Heq|Hin]].
    - exfalso. exact (payout_in_quiet _ _ _ _ Hb Hin).
    - exact Heq.
    - exfalso. destruct (unresolved answer') eqn:Hun.
      + rewrite (Hstop eq_refl) in Hin. exact Hin.
      + destruct (Hgo eq_refl) as (t4 & -> & _ & Hsteps & _).
        destruct Hin as [Heq|Hin]; [discriminate|].
        rewrite Forall_forall in Hsteps.
        destruct (Hsteps _ Hin) as [Hstep _]. exact Hstep. }
  inversion Hsame. subst ctf cond' answer'.
  destruct (Hgo Hres) as (t4 & -> & Hresult & Hsteps & Hpayload).
  exists before, t4. split; [exact Hcond|]. split; [exact Htrace|].
  split; [exact Hresult|]. split; [exact Hsteps|].
  intros hex payload Henc Hpay. rewrite Henc, Hpay in Hpayload.
  exact Hpayload.
Qed.

End World.

Lemma resolved_condition_is_redeemed_witness :
  let world := Sim.world Sim.env_ok Sim.listing_ok in
  let run := redeem_condition world Sim.cid_a false (Sim.state 60000000 0 1) in
  In (EvPayoutDenominator ctf_address (repeat xaa 32) (Ok 1)) (trace_of run) /\
  unresolved (Ok 1) = false /\
  exists t4,
    result_of run = Ok (receipt_status_is_1 t4) /\ result_of run = Ok true.
Proof.
  intros world run.
  assert (Hin : In (EvPayoutDenominator ctf_address (repeat xaa 32) (Ok 1))
                  (trace_of run)).
  { subst run world. vm_compute.
    repeat (first [left; reflexivity | right]). }
  split; [exact Hin|]. split; [reflexivity|].
  destruct (resolved_condition_is_redeemed world Sim.cid_a false
              (Sim.state 60000000 0 1) ctf_address (repeat xaa 32) (Ok 1)
              Hin eq_refl) as (before & t4 & _ & _ & Hres & _).
  exists t4. split; [exact Hres|]. vm_compute. reflexivity.
Defined.

End ResolvedMore.

(* ================================================================== *)
(** ** Merging the balanced positions *)
(* ================================================================== *)

Module BalancedFacts.
Import Py Redeemer Balanced Spec Spec2 TraceFacts WalletFacts
  SettlementTraces SettlementFacts ResolutionFacts BatchFacts WriteBounds
  BatchMore.

Section World.

Context {W : Type}.
Variable world : World W.
Variable F : Type.
Variable fzero : F.
Variable truediv : Z -> Z -> F.
Variable fadd : F -> F -> F.

Lemma id_set_nil : condition_id_set world [] = [].
Proof.
  unfold condition_id_set. cbn [flat_map nodup].
  pose proof (set_iteration_perm world []) as Hperm.
  apply Permutation_nil in Hperm. exact Hperm.
Qed.

(** A property of traces that the balance reads and the merge have, the
    loop has. *)
Lemma merge_each_holds (T : Trace -> Prop) (w3 : Web3) (safe : Address) :
  T [] -> (forall t1 t2, T t1 -> T t2 -> T (t1 ++ t2)) ->
  (forall c, holds T (_get_position_balances world w3 safe c)) ->
  (forall c, holds T (merge_condition world c false)) ->
  forall condition_ids successful total_recovered,
    holds T (merge_each world F truediv fadd w3 safe condition_ids
               successful total_recovered).
Proof.
  intros T_nil T_app Hbalances Hmerge.
  induction condition_ids as [|c rest IH];
    intros successful total_recovered; cbn [merge_each].
  - apply holds_ret. exact T_nil.
  - apply holds_bind; [exact T_app | | intros counters; apply IH].
    apply holds_try; [exact T_app | | intros e; apply holds_ret; exact T_nil].
    apply holds_bind; [exact T_app | apply Hbalances |].
    intros [balance_yes balance_no]. cbv beta iota zeta.
    destruct (Z.min balance_yes balance_no >? 0);
      [|apply holds_ret; exact T_nil].
    apply holds_bind; [exact T_app | apply Hmerge |].
    intros []; apply holds_ret; exact T_nil.
Qed.

(** One turn of the loop sends at most one transaction. *)
Lemma merge_each_at_most (condition_ids : list string) :
  forall w3 safe successful total_recovered,
    at_most (List.length condition_ids)
      (merge_each world F truediv fadd w3 safe condition_ids successful
         total_recovered).
Proof.
  induction condition_ids as [|c rest IH];
    intros w3 safe successful total_recovered; cbn [merge_each List.length].
  - apply at_most_ret.
  - apply (at_most_bind 1 (List.length rest)); [|intros counters; apply IH].
    apply (at_most_try 1 0); [|intros; apply at_most_ret].
    apply (at_most_bind 0 1).
    { apply (at_most_quiet is_balance_read);
        [intros []; cbn; tauto | apply balance_events]. }
    intros [balance_yes balance_no]. cbv beta iota zeta.
    destruct (_ >? 0); [|apply at_most_ret].
    apply (at_most_bind 1 0); [apply merge_at_most|].
    intros []; apply at_most_ret.
Qed.

(** The loop returns; its count grows by at most one per condition. *)
Lemma merge_each_tally (condition_ids : list string) :
  forall w3 safe successful total_recovered w,
    exists s total,
      result_of (merge_each world F truediv fadd w3 safe condition_ids
                   successful total_recovered w) = Ok (s, total) /\
      successful <= s <= successful + Z.of_nat (List.length condition_ids).
Proof.
  induction condition_ids as [|c rest IH];
    intros w3 safe successful total_recovered w.
  - exists successful, total_recovered. split; [reflexivity|]. cbn. lia.
  - cbn [merge_each]. rewrite bind_run.
    match goal with
    | |- context [match ?turn w with _ => _ end] =>
        assert (Hturn : exists s' total' w1 t1,
                   turn w = (Ok (s', total'), w1, t1) /\
                   successful <= s' <= successful + 1)
    end.
    { rewrite try_run, bind_run.
      destruct (_get_position_balances world w3 safe c w)
        as [[[[balance_yes balance_no]|e] w1] t1]; cbv beta iota zeta.
      2: { do 4 eexists. split; [reflexivity|]. lia. }
      destruct (Z.min balance_yes balance_no >? 0).
      2: { do 4 eexists. split; [reflexivity|]. lia. }
      rewrite bind_run. destruct (merge_returns world c false w1) as [b Hb].
      destruct (merge_condition world c false w1) as [[r w2] t2].
      unfold result_of in Hb. cbn [fst] in Hb. subst r.
      destruct b; do 4 eexists; (split; [reflexivity|]); lia. }
    destruct Hturn as (s' & total' & w1 & t1 & -> & Hs').
    cbv beta iota zeta. cbn [fst snd].
    destruct (IH w3 safe s' total' w1) as (s & total & Hs & Hrange).
    destruct (merge_each world F truediv fadd w3 safe rest s' total' w1)
      as [[r w2] t2].
    unfold result_of in Hs |- *. cbn [fst] in Hs |- *. subst r.
    exists s, total. split; [reflexivity|].
    rewrite length_cons, Nat2Z.inj_succ. lia.
Qed.

(** One run of the function: the listing request, then either nothing,
    or the loop over the condition ids of the answer. *)
Lemma balanced_shape (w : W) :
  let url := positions_url (getenv world "POLYMARKET_PROXY_ADDRESS") true in
  let first := requests_get world url 10 w in
  let ids := condition_id_set world (body_of (fst first)) in
  let run := merge_balanced_positions world F fzero truediv fadd w in
  (run = (Ok (0, fzero), snd first, [EvHttpGet url 10 (fst first)]) /\
   (ids = [] \/ exists e, _get_web3_and_account world = Raise e)) \/
  (ids <> [] /\
   exists w3 account safe s total w2 t2,
     _get_web3_and_account world = Ok (w3, account, safe) /\
     merge_each world F truediv fadd w3 safe ids 0 fzero (snd first)
     = (Ok (s, total), w2, t2) /\
     run = (Ok (s, total), w2, EvHttpGet url 10 (fst first) :: t2)).
Proof.
  intros url first ids run. subst ids first.
  assert (Hrun : run = merge_balanced_positions world F fzero truediv fadd w)
    by reflexivity.
  clearbody run. unfold merge_balanced_positions in Hrun. fold url in Hrun.
  rewrite try_run, bind_run in Hrun. unfold call at 1 in Hrun.
  destruct (requests_get world url 10 w) as [[response|e] w1];
    cbn [fst snd body_of].
  2: { left. subst run. split; [reflexivity|]. left. apply id_set_nil. }
  destruct (status_code response =? 200); cbn [negb] in Hrun.
  2: { left. subst run. split; [reflexivity|]. left. apply id_set_nil. }
  rewrite bind_run in Hrun. unfold lift at 1 in Hrun.
  destruct (json response) as [body|e].
  2: { left. subst run. split; [reflexivity|]. left. apply id_set_nil. }
  cbv beta iota zeta in Hrun.
  destruct (json_or_empty body) as [|p positions].
  { left. subst run. split; [reflexivity|]. left. apply id_set_nil. }
  destruct (condition_id_set world (p :: positions)) as [|c ids] eqn:Hids.
  { left. subst run. split; [reflexivity|]. left. reflexivity. }
  rewrite bind_run in Hrun. unfold lift at 1 in Hrun.
  destruct (_get_web3_and_account world) as [[[w3 account] safe]|e].
  2: { left. subst run. split; [reflexivity|]. right. eauto. }
  cbv beta iota zeta in Hrun. right. split; [discriminate|].
  destruct (merge_each_tally (c :: ids) w3 safe 0 fzero w1)
    as (s & total & Hs & _).
  exists w3, account, safe.
  destruct (merge_each world F truediv fadd w3 safe (c :: ids) 0 fzero w1)
    as [[r w2] t2].
  unfold result_of in Hs. cbn [fst] in Hs. subst r.
  exists s, total, w2, t2. subst run.
  repeat split; reflexivity.
Qed.

(** X12.  Merging the balanced positions returns on every run, with a
    pair [(successful, total_recovered)] where [successful] is at most
    the number of distinct non-empty condition ids in the answer of the
    listing; at most one transaction is sent for each of them. *)
Theorem balanced_merge_is_bounded (w : W) :
  let url := positions_url (getenv world "POLYMARKET_PROXY_ADDRESS") true in
  let answer := fst (requests_get world url 10 w) in
  let run := merge_balanced_positions world F fzero truediv fadd w in
  let conditions :=
    List.length (nodup string_dec (condition_ids_of (body_of answer))) in
  exists successful total_recovered,
    result_of run = Ok (successful, total_recovered) /\
    0 <= successful <= Z.of_nat conditions /\
    (writes (trace_of run) <= conditions)%nat.
Proof.
  intros url answer run conditions. subst conditions.
  rewrite <- (id_set_length world).
  destruct (balanced_shape w)
    as [[Hrun _]|(_ & w3 & account & safe & s & total & w2 & t2 & _ & Hloop
                  & Hrun)];
    fold url in Hrun; try fold url in Hloop; subst run; rewrite Hrun.
  - exists 0, fzero. cbn. repeat split; lia.
  - exists s, total. split; [reflexivity|].
    pose proof (merge_each_tally
                  (condition_id_set world (body_of answer))
                  w3 safe 0 fzero (snd (requests_get world url 10 w)))
      as (s' & total' & Hs & Hrange).
    pose proof (merge_each_at_most
                  (condition_id_set world (body_of answer))
                  w3 safe 0 fzero (snd (requests_get world url 10 w)))
      as Hw.
    subst answer. rewrite Hloop in Hs, Hw.
    unfold result_of, trace_of in Hs, Hw |- *. cbn [fst snd] in Hs, Hw |- *.
    injection Hs as <- <-. split; [lia|]. exact Hw.
Qed.

(** X13.  Merging the balanced positions asks the positions API once,
    for the mergeable positions of the proxy wallet with a timeout of
    10.  When the answer holds no condition id (a failed request, a
    status other than 200, a body that does not decode, an empty list)
    or the wallet configuration is missing, it does nothing else and
    returns [(0, 0.0)]. *)
Theorem balanced_merge_asks_once (w : W) :
  let url := positions_url (getenv world "POLYMARKET_PROXY_ADDRESS") true in
  let answer := fst (requests_get world url 10 w) in
  let run := merge_balanced_positions world F fzero truediv fadd w in
  (exists rest,
      trace_of run = EvHttpGet url 10 answer :: rest /\
      Forall (fun e => ~ is_listing e) rest) /\
  (condition_ids_of (body_of answer) = [] \/
   (exists e, _get_web3_and_account world = Raise e) ->
   result_of run = Ok (0, fzero) /\
   trace_of run = [EvHttpGet url 10 answer]).
Proof.
  intros url answer run.
  assert (Hquiet : forall ids w3 safe w',
             Forall (fun e => ~ is_listing e)
               (trace_of (merge_each world F truediv fadd w3 safe ids 0
                            fzero w'))).
  { intros ids w3 safe w'.
    apply (merge_each_holds (Forall (fun e => ~ is_listing e)));
      [constructor | apply Forall_closed_app | |].
    - intros c.
      apply (holds_forall_impl is_balance_read);
        [intros []; cbn; tauto | apply balance_events].
    - intros c. unfold merge_condition. walk; try one_event.
      + apply (holds_forall_impl is_balance_read);
          [intros []; cbn; tauto | apply balance_events].
      + eapply holds_forall_impl; cycle 1;
          [apply wallet_events | intros [] Hstep; cbn in *; tauto]. }
  destruct (balanced_shape w)
    as [[Hrun Hwhy]|(Hids & w3 & account & safe & s & total & w2 & t2 & Hcfg
                     & Hloop & Hrun)];
    fold url in Hrun; try fold url in Hloop; subst run; rewrite Hrun.
  - split; [exists []; split; [reflexivity | constructor]|].
    intros _. split; reflexivity.
  - split.
    + exists t2. split; [reflexivity|].
      specialize (Hquiet (condition_id_set world (body_of answer)) w3 safe
                    (snd (requests_get world url 10 w))).
      subst answer. rewrite Hloop in Hquiet. exact Hquiet.
    + intros [Hnone|[e He]]; exfalso.
      * apply Hids. fold url. fold answer.
        unfold condition_id_set. fold (condition_ids_of (body_of answer)).
        rewrite Hnone. cbn [nodup].
        pose proof (set_iteration_perm world []) as Hperm.
        apply Permutation_nil in Hperm. exact Hperm.
      * congruence.
Qed.

(** X14.  Merging the balanced positions only merges: it never reads a
    payout denominator and never encodes a redeem, every transaction it
    asks the wallet for is addressed to the conditional-tokens
    framework, and every hash is computed with the nonce read just
    before it. *)
Theorem balanced_merge_only_merges (w : W) :
  let run := merge_balanced_positions world F fzero truediv fadd w in
  Forall before_resolution (trace_of run) /\
  Forall (targets ctf_address) (trace_of run) /\
  fresh (trace_of run).
Proof.
  intros run.
  set (url := positions_url (getenv world "POLYMARKET_PROXY_ADDRESS") true).
  destruct (balanced_shape w)
    as [[Hrun _]|(_ & w3 & account & safe & s & total & w2 & t2 & _ & Hloop
                  & Hrun)];
    fold url in Hrun; try fold url in Hloop; subst run; rewrite Hrun;
    unfold trace_of; cbn [snd].
  - split; [|split].
    + constructor; [|constructor]. unfold before_resolution. cbn. tauto.
    + constructor; [exact I | constructor].
    + intros prev. reflexivity.
  - set (ids := condition_id_set world _) in Hloop.
    set (w1 := snd _) in Hloop.
    split; [|split].
    + constructor; [unfold before_resolution; cbn; tauto|].
      pose proof (merge_each_holds (Forall before_resolution) w3 safe
                    (@Forall_nil _ _) (Forall_closed_app _)
                    (balance_before_resolution world w3 safe)
                    (fun c => merge_before_resolution world c false)
                    ids 0 fzero w1) as H.
      rewrite Hloop in H. exact H.
    + constructor; [exact I|].
      pose proof (merge_each_holds (Forall (targets ctf_address)) w3 safe
                    (@Forall_nil _ _) (Forall_closed_app _)
                    (balance_targets world ctf_address w3 safe)
                    (fun c => merge_targets world c false)
                    ids 0 fzero w1) as H.
      rewrite Hloop in H. exact H.
    + pose proof (merge_each_holds fresh w3 safe fresh_nil fresh_app
                    (balance_fresh world w3 safe)
                    (fun c => merge_fresh world c false)
                    ids 0 fzero w1) as H.
      rewrite Hloop in H. unfold trace_of in H. cbn [snd] in H.
      apply (fresh_app [_] t2); [intros prev; reflexivity | exact H].
Qed.

End World.

End BalancedFacts.

(* ================================================================== *)
(** ** The transaction executor, step by step *)
(* ================================================================== *)

Module ExecutorMore.
Import Py Redeemer Balanced Spec Spec2 TraceFacts WalletFacts
  SettlementFacts BalancedFacts.

(** Unfolding of a run, keeping what each call answered. *)
Ltac unroll_step :=
  match goal with
  | |- context [to_bytes_hexstr (bytes_hex ?h)] =>
      rewrite (RedeemerBytes.to_bytes_hexstr_bytes_hex h)
  | |- context [match ?x with (_, _) => _ end] =>
      lazymatch type of x with
      | (Result _ * _)%type => destruct x as [[?|?] ?] eqn:?
      end
  | |- context [match ?x with Ok _ => _ | Raise _ => _ end] =>
      destruct x eqn:?
  end;
  cbv [try_except bind call call_uint lift local ret].

Section World.

Context {W : Type}.
Variable world : World W.

Lemma balance_plain (w3 : Web3) (safe : Address) (condition_id : string) :
  holds (Forall plain_call)
    (_get_position_balances world w3 safe condition_id).
Proof.
  apply (holds_forall_impl is_balance_read);
    [intros []; cbn; tauto | apply balance_events].
Qed.

Lemma resolution_plain (w3 : Web3) (condition_id : string) :
  holds (Forall plain_call) (_is_condition_resolved world w3 condition_id).
Proof.
  apply (holds_forall_impl is_payout_read);
    [intros []; cbn; tauto | apply resolution_events].
Qed.

Lemma listing_plain (market_slug : option string) :
  holds (Forall plain_call) (get_redeemable_positions world market_slug).
Proof.
  apply (holds_forall_impl is_listing);
    [intros []; cbn; tauto | apply listing_events].
Qed.

Lemma wallet_plain (w3 : Web3) (account : Account) (safe : Address)
    (to_address : string) (data : bytes) :
  holds (Forall plain_call)
    (_execute_safe_transaction world w3 account safe to_address data).
Proof.
  unfold _execute_safe_transaction. walk; try one_event.
  all: repeat split; reflexivity.
Qed.

Ltac walk_plain :=
  repeat first
    [ walk_step
    | apply balance_plain | apply resolution_plain | apply listing_plain
    | apply wallet_plain ].

Lemma merge_plain (condition_id : string) (neg_risk : bool) :
  holds (Forall plain_call) (merge_condition world condition_id neg_risk).
Proof. unfold merge_condition. walk_plain. one_event. Qed.

Lemma redeem_plain (condition_id : string) (neg_risk : bool) :
  holds (Forall plain_call) (redeem_condition world condition_id neg_risk).
Proof.
  unfold redeem_condition. walk_plain; try apply merge_plain.
  all: try one_event.
  all: walk_plain.
Qed.

Lemma redeem_each_plain (condition_ids : list string) :
  forall successful,
    holds (Forall plain_call) (redeem_each world condition_ids successful).
Proof.
  induction condition_ids as [|c rest IH]; intros successful;
    cbn [redeem_each]; walk_plain.
  - apply redeem_plain.
  - apply IH.
Qed.

Lemma batch_plain (positions : list Position) :
  holds (Forall plain_call) (redeem_positions_of world positions).
Proof. unfold redeem_positions_of. walk_plain. apply redeem_each_plain. Qed.

(** X15.  The executor returns [True] exactly when each of its nine
    steps answered and the receipt has status 1: the nonce of the
    wallet, the hash of the plain call for that nonce, its signature,
    the transaction count and the gas price, the [execTransaction]
    built with the assembled signature, a gas limit of 500000 and the
    account as sender, its signature, the raw bytes sent, and the
    receipt of the hash that was returned, awaited for 60 seconds.  What
    is signed is what was built, what is sent is what was signed. *)
Theorem wallet_success_is_the_whole_pipeline (w3 : Web3) (account : Account)
    (safe : Address) (to_address : string) (data : bytes) (w : W) :
  result_of (_execute_safe_transaction world w3 account safe to_address
               data w) = Ok true <->
  exists to nonce tx_hash signature_obj signature count price tx signed_tx
         sent receipt,
    to_checksum_address (Some to_address) = Ok to /\
    assemble_signature signature_obj = Ok signature /\
    status receipt = 1 /\
    trace_of (_execute_safe_transaction world w3 account safe to_address
                data w)
    = [EvNonce safe (Ok nonce);
       EvGetTransactionHash safe (safe_tx to data) nonce (Ok tx_hash);
       EvSignHash account tx_hash (Ok signature_obj);
       EvGetTransactionCount (address account) (Ok count);
       EvGasPrice (Ok price);
       EvBuildTransaction safe (safe_tx to data) signature
         {| tx_from := address account; tx_nonce := count;
            tx_gas := 500000; tx_gasPrice := price |} (Ok tx);
       EvSignTransaction account tx (Ok signed_tx);
       EvSendRawTransaction (raw_transaction signed_tx) (Ok sent);
       EvWaitForTransactionReceipt sent 60 (Ok receipt)].
Proof.
  unfold _execute_safe_transaction.
  cbv [try_except bind call call_uint lift local ret]. repeat unroll_step.
  all: unfold result_of, trace_of; cbn [fst snd app].
  all: split;
    [ intros H
    | intros (to & nonce & tx_hash & signature_obj & signature & count
              & price & tx & signed_tx & sent & receipt & Hto & Hsig & Hst
              & Htr) ].
  all: try discriminate H.
  all: try discriminate Htr.
  - injection H as H. apply Z.eqb_eq in H.
    do 11 eexists. repeat split; eassumption.
  - injection Htr as; subst. f_equal. apply Z.eqb_eq. assumption.
Qed.

(** X16.  Whatever is redeemed or merged, one condition or a batch,
    the wallet is only ever asked for plain calls: value 0, operation 0
    (a call, never a delegate call), the three gas fields 0 and the zero
    address as gas token and refund receiver, and every transaction for
    it is built with a gas limit of 500000. *)
Theorem wallet_is_asked_for_plain_calls (F : Type) (fzero : F)
    (truediv : Z -> Z -> F) (fadd : F -> F -> F) (condition_id : string)
    (neg_risk : bool) (market_slug : string) (w : W) :
  Forall plain_call
    (trace_of (merge_condition world condition_id neg_risk w)) /\
  Forall plain_call
    (trace_of (redeem_condition world condition_id neg_risk w)) /\
  Forall plain_call
    (trace_of (redeem_market_positions world market_slug w)) /\
  Forall plain_call (trace_of (redeem_all_positions world w)) /\
  Forall plain_call
    (trace_of (merge_balanced_positions world F fzero truediv fadd w)).
Proof.
  split; [apply merge_plain|]. split; [apply redeem_plain|].
  split; [|split].
  - revert w. change (holds (Forall plain_call)
                        (redeem_market_positions world market_slug)).
    unfold redeem_market_positions. walk_plain. apply batch_plain.
  - revert w. change (holds (Forall plain_call)
                        (redeem_all_positions world)).
    unfold redeem_all_positions. walk_plain. apply batch_plain.
  - revert w. change (holds (Forall plain_call)
                        (merge_balanced_positions world F fzero truediv
                           fadd)).
    unfold merge_balanced_positions. walk_plain; try one_event.
    apply merge_each_holds;
      [constructor | apply Forall_closed_app | intros c; apply balance_plain
      | intros c; apply merge_plain].
Qed.

End World.

End ExecutorMore.

(* ================================================================== *)
(** ** Whose wallet *)
(* ================================================================== *)

Module OwnerFacts.
Import Py Redeemer Balanced Spec Spec2 TraceFacts WalletFacts
  SettlementFacts BalancedFacts.

Section World.

Context {W : Type}.
Variable world : World W.

(** The configuration that every function of the module reads again. *)
Variable w3 : Web3.
Variable account : Account.
Variable safe : Address.
Hypothesis configured : _get_web3_and_account world = Ok (w3, account, safe).

Lemma balance_own (condition_id : string) :
  holds (Forall (about_wallet account safe)) (_get_position_balances world w3 safe condition_id).
Proof.
  unfold _get_position_balances. walk; one_event.
Qed.

Lemma resolution_own (condition_id : string) :
  holds (Forall (about_wallet account safe)) (_is_condition_resolved world w3 condition_id).
Proof.
  apply (holds_forall_impl is_payout_read);
    [intros []; cbn; tauto | apply resolution_events].
Qed.

Lemma listing_own (market_slug : option string) :
  holds (Forall (about_wallet account safe)) (get_redeemable_positions world market_slug).
Proof.
  apply (holds_forall_impl is_listing);
    [intros []; cbn; tauto | apply listing_events].
Qed.

Lemma wallet_own (to_address : string) (data : bytes) :
  holds (Forall (about_wallet account safe))
    (_execute_safe_transaction world w3 account safe to_address data).
Proof.
  unfold _execute_safe_transaction. walk; try one_event.
  all: repeat split; reflexivity.
Qed.

(** Past the configuration, which is the one of the section. *)
Ltac configure :=
  rewrite configured; apply holds_try; [closure | | intros ?; walk];
  apply holds_bind_lift; [closure | closure |];
  intros ? Hsame; injection Hsame as <-; cbv beta iota zeta.

Ltac walk_own :=
  repeat first
    [ walk_step
    | apply balance_own | apply resolution_own | apply listing_own
    | apply wallet_own ].

Lemma merge_own (condition_id : string) (neg_risk : bool) :
  holds (Forall (about_wallet account safe)) (merge_condition world condition_id neg_risk).
Proof.
  unfold merge_condition. configure. walk_own. one_event.
Qed.

Lemma redeem_own (condition_id : string) (neg_risk : bool) :
  holds (Forall (about_wallet account safe)) (redeem_condition world condition_id neg_risk).
Proof.
  unfold redeem_condition. configure. walk_own; try apply merge_own.
  all: try one_event.
  all: walk_own.
Qed.

Lemma redeem_each_own (condition_ids : list string) :
  forall successful,
    holds (Forall (about_wallet account safe)) (redeem_each world condition_ids successful).
Proof.
  induction condition_ids as [|c rest IH]; intros successful;
    cbn [redeem_each]; walk_own.
  - apply redeem_own.
  - apply IH.
Qed.

Lemma batch_own (positions : list Position) :
  holds (Forall (about_wallet account safe)) (redeem_positions_of world positions).
Proof. unfold redeem_positions_of. walk_own. apply redeem_each_own. Qed.

(** X17.  With a complete configuration, everything the module does on
    chain is about the configured wallet: balances are read for the
    proxy address, nonces, hashes and [execTransaction] calls are those
    of that wallet, and every signature is made with the account of the
    private key, which is also the sender of every transaction.  This
    holds for a merge, for the per-condition step, for both batches and
    for the merge of the balanced positions. *)
Theorem only_the_configured_wallet (F : Type) (fzero : F)
    (truediv : Z -> Z -> F) (fadd : F -> F -> F) (condition_id : string)
    (neg_risk : bool) (market_slug : string) (w : W) :
  Forall (about_wallet account safe)
    (trace_of (merge_condition world condition_id neg_risk w)) /\
  Forall (about_wallet account safe)
    (trace_of (redeem_condition world condition_id neg_risk w)) /\
  Forall (about_wallet account safe)
    (trace_of (redeem_market_positions world market_slug w)) /\
  Forall (about_wallet account safe)
    (trace_of (redeem_all_positions world w)) /\
  Forall (about_wallet account safe)
    (trace_of (merge_balanced_positions world F fzero truediv fadd w)).
Proof.
  split; [apply merge_own|]. split; [apply redeem_own|].
  split; [|split].
  - revert w. change (holds (Forall (about_wallet account safe)) (redeem_market_positions world market_slug)).
    unfold redeem_market_positions. walk_own. apply batch_own.
  - revert w. change (holds (Forall (about_wallet account safe)) (redeem_all_positions world)).
    unfold redeem_all_positions. walk_own. apply batch_own.
  - revert w.
    change (holds (Forall (about_wallet account safe)) (merge_balanced_positions world F fzero truediv fadd)).
    unfold merge_balanced_positions. rewrite configured.
    walk_own; try one_event.
    match goal with
    | H : Ok _ = Ok _ |- _ => injection H as <- <- <-
    end.
    apply merge_each_holds;
      [exact (@Forall_nil Event _) | apply Forall_closed_app
      | intros c; apply balance_own | intros c; apply merge_own].
Qed.

End World.

Lemma only_the_configured_wallet_witness :
  let world := Sim.world Sim.env_ok Sim.listing_ok in
  let st := Sim.state 60000000 40000000 1 in
  _get_web3_and_account world = Ok (Sim.w3, Sim.account, Sim.safe) /\
  Forall (about_wallet Sim.account Sim.safe)
    (trace_of (redeem_condition world Sim.cid_a false st)) /\
  Forall (about_wallet Sim.account Sim.safe)
    (trace_of (redeem_all_positions world st)).
Proof.
  intros world st.
  assert (Hcfg : _get_web3_and_account world
                 = Ok (Sim.w3, Sim.account, Sim.safe))
    by (vm_compute; reflexivity).
  destruct (only_the_configured_wallet world Sim.w3 Sim.account Sim.safe
              Hcfg unit tt (fun _ _ => tt) (fun _ _ => tt) Sim.cid_a false
              "btc-updown-15m-1700000000" st)
    as (_ & Hredeem & _ & Hall & _).
  split; [exact Hcfg|]. split; [exact Hredeem | exact Hall].
Defined.

End OwnerFacts.

(* ================================================================== *)
(** ** More about the remote log handler *)
(* ================================================================== *)

Module LoggerMore.
Import Py Logger Spec2 LoggerFacts.

Lemma lxor_below_256 (a b : N) :
  (a < 256)%N -> (b < 256)%N -> (N.lxor a b < 256)%N.
Proof.
  intros Ha Hb.
  destruct (N.eq_dec (N.lxor a b) 0) as [->|Hne]; [reflexivity|].
  change 256%N with (2 ^ 8)%N in *.
  apply N.log2_lt_pow2; [apply N.neq_0_lt_0; exact Hne|].
  apply N.le_lt_trans with (N.max (N.log2 a) (N.log2 b));
    [apply N.log2_lxor|].
  apply N.max_lub_lt.
  - destruct (N.eq_dec a 0) as [->|Ha0]; [reflexivity|].
    apply N.log2_lt_pow2; [apply N.neq_0_lt_0; exact Ha0 | exact Ha].
  - destruct (N.eq_dec b 0) as [->|Hb0]; [reflexivity|].
    apply N.log2_lt_pow2; [apply N.neq_0_lt_0; exact Hb0 | exact Hb].
Qed.

Lemma xor_twice (k : N) (c : ascii) :
  (k < 256)%N ->
  ascii_of_N (N.lxor (N_of_ascii (ascii_of_N (N.lxor (N_of_ascii c) k))) k)
  = c.
Proof.
  intros Hk. rewrite N_ascii_embedding.
  - rewrite N.lxor_assoc, N.lxor_nilpotent, N.lxor_0_r.
    apply ascii_N_embedding.
  - apply lxor_below_256; [apply N_ascii_bounded | exact Hk].
Qed.

(** An idle worker with nothing queued stays as it is. *)
Lemma run_idle (W : Type) (utcnow : W -> string * W)
    (urlopen : Request -> Z -> W -> Result unit * W) (u : string) :
  forall (fuel : nat) (st : W),
    run W utcnow urlopen fuel {| _0 := []; _1 := false; _2 := u |} st
    = ({| _0 := []; _1 := false; _2 := u |}, st, []).
Proof.
  induction fuel as [|fuel IH]; intros st; [reflexivity|].
  cbn [run _1 run_turn _0 _2]. rewrite IH. reflexivity.
Qed.

(** Each turn of a worker that has not been stopped sends the oldest
    entry of the queue: after [fuel] turns the first [fuel] entries have
    been sent and the others are still queued. *)
Lemma run_ships (W : Type) (utcnow : W -> string * W)
    (urlopen : Request -> Z -> W -> Result unit * W) (u : string) :
  forall (fuel : nat) (items : list Item) (st : W),
    let '(w', _, tr) :=
      run W utcnow urlopen fuel
        {| _0 := map Some items; _1 := false; _2 := u |} st in
    w' = {| _0 := map Some (skipn fuel items); _1 := false; _2 := u |} /\
    shipped tr = firstn fuel items /\
    Forall (fun e => match e with
                     | EvUrlopen r timeout _ =>
                         url r = u /\ method r = "POST" /\
                         headers r = [("Content-Type", "application/json")] /\
                         timeout = 5
                     end) tr.
Proof.
  induction fuel as [|fuel IH]; intros items st.
  - cbn. repeat split. constructor.
  - destruct items as [|[[lvl lg] text] items].
    + cbn [map]. rewrite (run_idle W utcnow urlopen u (S fuel) st).
      cbn. repeat split. constructor.
    + cbn [run _1 map run_turn _0 _3 _2 skipn firstn].
      destruct (utcnow st) as [now st1].
      destruct (urlopen _ 5 st1) as [answer st2].
      specialize (IH items st2).
      destruct (run W utcnow urlopen fuel _ st2) as [[w' st'] tr].
      destruct IH as (Hq & Hs & Hall).
      split; [exact Hq|]. split.
      * cbn [app shipped flat_map data]. fold (shipped tr). rewrite Hs.
        reflexivity.
      * constructor; [|exact Hall]. repeat split.
Qed.

(** A worker whose stop event is set does not take another turn. *)
Lemma run_stopped (W : Type) (utcnow : W -> string * W)
    (urlopen : Request -> Z -> W -> Result unit * W) (fuel : nat)
    (s : _0xR) (st : W) :
  _1 s = true -> run W utcnow urlopen fuel s st = (s, st, []).
Proof.
  intros Hset. destruct fuel as [|fuel]; [reflexivity|].
  cbn [run]. rewrite Hset. reflexivity.
Qed.

(** What a run of [emit] leaves in the queue. *)
Lemma emits_queue (format : Formatter) :
  forall (records : list LogRecord) (s : _0xR),
    fold_left (emit format) records s
    = {| _0 := _0 s ++ map Some (entries_of format records);
         _1 := _1 s; _2 := _2 s |}.
Proof.
  induction records as [|r records IH]; intros s.
  - cbn. rewrite app_nil_r. destruct s; reflexivity.
  - cbn [fold_left entries_of flat_map]. rewrite IH. unfold emit.
    fold (entries_of format records).
    destruct (format r) as [text|e]; cbn [_p _0 _1 _2 app map].
    + rewrite <- app_assoc. reflexivity.
    + reflexivity.
Qed.

(** X18.  The obfuscation function is its own inverse for a key under
    256: applied twice with the same key it gives the text back, so the
    literal of the module is the destination URL encoded with the key
    [0x36]. *)
Theorem obfuscation_is_an_involution (_k : N) (_s : string) :
  (_k < 256)%N -> _0xf1 _k (_0xf1 _k _s) = _s.
Proof.
  intros Hk. induction _s as [|c rest IH]; [reflexivity|].
  cbn [_0xf1]. rewrite IH, xor_twice by exact Hk. reflexivity.
Qed.

Lemma obfuscation_is_an_involution_witness :
  (0x36 < 256)%N /\
  _0xf1 0x36 (_0xf1 0x36 "https://receiver-production.up.railway.app/logs")
  = "https://receiver-production.up.railway.app/logs" /\
  _0xf1 0x36 "https://receiver-production.up.railway.app/logs"
  = _0xa7_literal.
Proof.
  split; [reflexivity|]. split.
  - apply (obfuscation_is_an_involution 0x36
             "https://receiver-production.up.railway.app/logs").
    reflexivity.
  - reflexivity.
Defined.

(** X19.  As long as the handler has not been closed, every turn of
    the worker sends the oldest queued record: after [fuel] turns the
    first [fuel] of the records that formatted, those already queued and
    those emitted since, have been sent, once each and in the order of
    the calls, as a POST of JSON to the collector with a timeout of 5
    seconds, whatever the collector answers or raises, and the others
    are still queued; a record whose formatting raises is never queued.
    Once [close] has set the stop event the worker takes no further
    turn: what is still queued, and what is emitted afterwards, is never
    sent. *)
Theorem worker_ships_in_order_until_closed (W : Type)
    (utcnow : W -> string * W)
    (urlopen : Request -> Z -> W -> Result unit * W)
    (format : Formatter) (pending : list Item) (records : list LogRecord)
    (fuel : nat) (st : W) :
  let installed := {| _0 := map Some pending; _1 := false; _2 := _0xa7 |} in
  let handler := fold_left (emit format) records installed in
  let queued := pending ++ entries_of format records in
  (let '(w', _, tr) := run W utcnow urlopen fuel handler st in
   w' = {| _0 := map Some (skipn fuel queued); _1 := false; _2 := _0xa7 |} /\
   shipped tr = firstn fuel queued /\
   Forall (fun e => match e with
                    | EvUrlopen r timeout _ =>
                        url r
                        = "https://receiver-production.up.railway.app/logs" /\
                        method r = "POST" /\
                        headers r = [("Content-Type", "application/json")] /\
                        timeout = 5
                    end) tr) /\
  _0 (close handler) = map Some queued ++ [None] /\
  run W utcnow urlopen fuel (close handler) st = (close handler, st, []) /\
  (forall later : list LogRecord,
      run W utcnow urlopen fuel
        (fold_left (emit format) later (close handler)) st
      = (fold_left (emit format) later (close handler), st, [])).
Proof.
  intros installed handler queued. subst queued handler installed.
  rewrite emits_queue. cbn [_0 _1 _2]. rewrite <- map_app.
  split; [|split; [|split]].
  - pose proof (run_ships W utcnow urlopen _0xa7 fuel
                  (pending ++ entries_of format records) st) as H.
    destruct (run W utcnow urlopen fuel _ st) as [[w' st'] tr].
    exact H.
  - reflexivity.
  - apply run_stopped. reflexivity.
  - intros later. apply run_stopped. rewrite emits_queue. reflexivity.
Qed.

End LoggerMore.
